(** * Store ingestion, normalization and marker presentation

    A shallow embedding of the data pipeline of the FamilyMart ice-cream map:

    - [src/worker/store.worker.js]: [normalizeStoreData], [fetchAndProcessStores];
    - [src/js/controllers/MapController.js]: [_initIcons], [renderMarkers] and
      the cluster [iconCreateFunction];
    - [src/js/helpers/UIHelpers.js]: [escapeHtml], [createStorePopupContent],
      [createPinIcon];
    - [src/js/config.js]: the [CONFIG] constants the above read.

    and of what surrounds it:

    - [src/worker/store.worker.js]: the message handler of the worker;
    - [src/js/services/StoreService.js]: [fetchStores];
    - [src/js/services/NotificationService.js]: the toasts and their timers;
    - [src/js/services/LocationService.js]: the watch of the position and
      [getErrorMessage];
    - [src/js/controllers/MapController.js]: the location of the user
      ([locateUser], its handlers, [_updateUserMarker]) and
      [updateLastUpdatedTime]; [LoadingController];
    - [src/js/main.js]: the data path of [App.init];
    - [service-worker.js]: the [activate] and [fetch] handlers, and the
      cache writes the [fetch] handler starts.

    The program is JavaScript, so the first module fixes the fragment of the
    language these functions rely on:

    - a string is a sequence of UTF-16 code units;
    - a Number is an IEEE-754 binary64 value ([SpecFloat]);
    - a value is what [JSON.parse] can produce, or [undefined]; an object
      is the list of its members, and an object the program builds by
      assignment also has a prototype, which an assignment to [__proto__]
      replaces;
    - a call returns normally or throws ([Completion]);
    - the built-ins that are called: [parseFloat], [isNaN], [String] and the
      conversion of a value to a property key, [encodeURIComponent],
      [String.prototype.includes], [Array.prototype.includes],
      [String.prototype.replace], [Array.prototype.map] and [filter].

    The worker posts its result to the main thread; the structured clone
    that carries it keeps strings, Numbers, arrays and plain objects as they
    are, so the stores [renderMarkers] receives are the stores the worker
    built.  Leaflet is outside the model: a marker and an icon are the
    options they were created with, and what the cluster group does with
    the markers it is handed ([addLayers]) is an input.  So are the page,
    the timers, the geolocation of the browser, the network and the cache
    storage: an element is its class list and text, a timer is a pending
    callback with its due time, time is the value of [Date.now()], in
    milliseconds, a worker may never answer, and a cache write that the
    service worker starts ends later, stored or not. *)

From Stdlib Require Import List String Ascii ZArith NArith QArith Bool Lia.
From Stdlib Require Import Permutation.
From Stdlib Require Import DecimalString DecimalPos.
From Stdlib Require Import Floats.SpecFloat.
Import ListNotations.

Close Scope Q_scope.
Local Open Scope list_scope.

(* ===================================================================== *)
(** * The JavaScript fragment *)
(* ===================================================================== *)

Module JS.

(** ** Strings

    A JavaScript string is a finite sequence of 16-bit code units. *)

Definition jsstring := list N.

Definition jsstring_eq_dec : forall a b : jsstring, {a = b} + {a <> b} :=
  list_eq_dec N.eq_dec.

Definition str_eqb (a b : jsstring) : bool :=
  if jsstring_eq_dec a b then true else false.

(** String literals of the sources are written [js "..."]: the UTF-8 bytes
    of the literal are decoded to code points and re-encoded as UTF-16. *)

Definition utf16_of_code_point (cp : N) : list N :=
  if (cp <? 65536)%N then [cp]
  else [(55296 + (cp - 65536) / 1024)%N; (56320 + (cp - 65536) mod 1024)%N].

Fixpoint utf8_decode (bytes : list N) : list N :=
  match bytes with
  | [] => []
  | b0 :: rest =>
      if (b0 <? 128)%N then b0 :: utf8_decode rest
      else if (b0 <? 224)%N then
        match rest with
        | b1 :: rest' =>
            ((b0 - 192) * 64 + (b1 - 128))%N :: utf8_decode rest'
        | _ => []
        end
      else if (b0 <? 240)%N then
        match rest with
        | b1 :: b2 :: rest' =>
            ((b0 - 224) * 4096 + (b1 - 128) * 64 + (b2 - 128))%N
              :: utf8_decode rest'
        | _ => []
        end
      else
        match rest with
        | b1 :: b2 :: b3 :: rest' =>
            ((b0 - 240) * 262144 + (b1 - 128) * 4096
             + (b2 - 128) * 64 + (b3 - 128))%N :: utf8_decode rest'
        | _ => []
        end
  end.

Definition js (s : string) : jsstring :=
  flat_map utf16_of_code_point
    (utf8_decode (map N_of_ascii (list_ascii_of_string s))).

(** The double quote, which a literal cannot hold. *)
Definition dq : jsstring := [34%N].

(** [s.startsWith(p)] and [s.includes(p)] on code units. *)

Fixpoint starts_with (p s : jsstring) : bool :=
  match p, s with
  | [], _ => true
  | _ :: _, [] => false
  | a :: p', b :: s' => N.eqb a b && starts_with p' s'
  end.

Fixpoint str_includes (s p : jsstring) : bool :=
  starts_with p s ||
  match s with
  | [] => false
  | _ :: s' => str_includes s' p
  end.

(** [s.replace(p, r)] with a string pattern: the first occurrence only.
    ([r] holds no dollar sign at any call site, so it is inserted as is.) *)

Fixpoint replace_first (p r s : jsstring) : jsstring :=
  if starts_with p s then r ++ skipn (List.length p) s
  else match s with
       | [] => []
       | c :: s' => c :: replace_first p r s'
       end.

(** [s.replace(/c/g, r)] for a one-character pattern [c]. *)

Fixpoint replace_all (c : N) (r : jsstring) (s : jsstring) : jsstring :=
  match s with
  | [] => []
  | x :: s' => (if N.eqb x c then r else [x]) ++ replace_all c r s'
  end.

Fixpoint join (sep : jsstring) (parts : list jsstring) : jsstring :=
  match parts with
  | [] => []
  | [p] => p
  | p :: ps => p ++ sep ++ join sep ps
  end.

(** Decimal digits of a natural number, as [String(n)] prints an index. *)

Definition digits_of_N (n : N) : jsstring :=
  match n with
  | N0 => js "0"
  | Npos p => js (NilEmpty.string_of_uint (Pos.to_uint p))
  end.

(** ** Numbers

    A Number is an IEEE-754 binary64 value: [prec = 53], [emax = 1024]. *)

Definition number := spec_float.
Definition prec : Z := 53.
Definition emax : Z := 1024.

Definition isNaN (x : number) : bool :=
  match x with S754_nan => true | _ => false end.

Definition is_finite (x : number) : bool :=
  match x with S754_zero _ | S754_finite _ _ _ => true | _ => false end.

(** The Number value of the real [(-1)^neg * m * 10^e]: round to nearest,
    ties to even, overflow to an infinity.  The two early exits only avoid
    huge powers: with [d] digits in [m] the real is at least [10^(d-1+e)] and
    below [10^(d+e)]. *)

Definition number_of_decimal (neg : bool) (m : N) (e : Z) : number :=
  match m with
  | N0 => S754_zero neg
  | Npos p =>
      let d := Z.of_nat (Decimal.nb_digits (Pos.to_uint p)) in
      if (309 <=? d - 1 + e)%Z then S754_infinity neg
      else if (d + e <=? -324)%Z then S754_zero neg
      else if (0 <=? e)%Z then
        binary_normalize prec emax
          (if neg then Z.opp (Zpos p * 10 ^ e) else Zpos p * 10 ^ e)%Z 0 neg
      else
        SFdiv prec emax (S754_finite neg p 0)
          (S754_finite false (Z.to_pos (10 ^ (- e))) 0)
  end.

(** *** Number::toString (radix 10) *)

(** The real value of a positive finite Number, as a fraction. *)
Definition fraction_of (m : positive) (e : Z) : Z * Z :=
  if (0 <=? e)%Z then (Zpos m * 2 ^ e, 1)%Z else (Zpos m, 2 ^ (- e))%Z.

(** [num/den * 10^(-q)] as a fraction. *)
Definition scale10 (f : Z * Z) (q : Z) : Z * Z :=
  let (num, den) := f in
  if (0 <=? q)%Z then (num, den * 10 ^ q)%Z else (num * 10 ^ (- q), den)%Z.

Definition same_positive (x : number) (m : positive) (e : Z) : bool :=
  match x with
  | S754_finite false mx ex =>
      let (a, b) := fraction_of mx ex in
      let (c, d) := fraction_of m e in
      (a * d =? c * b)%Z
  | _ => false
  end.

(** [n] with [10^(n-1) <= num/den < 10^n], searched from a logarithmic guess. *)
Fixpoint adjust_down (fuel : nat) (f : Z * Z) (j : Z) : Z :=
  match fuel with
  | O => j
  | S fuel' =>
      let (a, b) := scale10 f j in
      if (a <? b)%Z then adjust_down fuel' f (j - 1) else j
  end.

Fixpoint adjust_up (fuel : nat) (f : Z * Z) (j : Z) : Z :=
  match fuel with
  | O => j
  | S fuel' =>
      let (a, b) := scale10 f (j + 1) in
      if (b <=? a)%Z then adjust_up fuel' f (j + 1) else j
  end.

Definition decimal_exponent (m : positive) (e : Z) : Z :=
  let f := fraction_of m e in
  let bits := (Zpos (digits2_pos m) + e)%Z in
  let guess := ((bits - 1) * 30103 / 100000)%Z in
  (adjust_up 4 f (adjust_down 4 f guess) + 1)%Z.

(** The integers next to [num/den], the closer one first (the even one on
    a tie). *)
Definition nearest_integers (f : Z * Z) : list Z :=
  let (a, b) := f in
  let lo := (a / b)%Z in
  let r := (a mod b)%Z in
  if (r =? 0)%Z then [lo]
  else match (2 * r ?= b)%Z with
       | Lt => [lo; lo + 1]
       | Gt => [lo + 1; lo]
       | Eq => if Z.even lo then [lo; lo + 1] else [lo + 1; lo]
       end%Z.

(** The shortest digits [s] (with [k] digits) and exponent [n] such that
    [s * 10^(n-k)] reads back as the Number [m * 2^e]. *)
Fixpoint shortest_digits (fuel : nat) (k : Z) (m : positive) (e n : Z)
  : Z * Z :=
  let cands := nearest_integers (scale10 (fraction_of m e) (n - k)) in
  let back (s : Z) :=
    same_positive (number_of_decimal false (Z.to_N s) (n - k)) m e in
  match fuel with
  | O => (hd 0%Z cands, k)
  | S fuel' =>
      match filter back cands with
      | s :: _ => (s, k)
      | [] => shortest_digits fuel' (k + 1) m e n
      end
  end.

Definition zeros (n : Z) : jsstring := repeat 48%N (Z.to_nat n).

Definition Number_toString (x : number) : jsstring :=
  match x with
  | S754_nan => js "NaN"
  | S754_zero _ => js "0"
  | S754_infinity s => (if s then js "-" else []) ++ js "Infinity"
  | S754_finite s m e =>
      let n0 := decimal_exponent m e in
      let (s0, k) := shortest_digits 16 1 m e n0 in
      (* rounding up to [10^k] carries into the next decade *)
      let '(sd, n) :=
        if (s0 =? 10 ^ k)%Z then (10 ^ (k - 1), n0 + 1)%Z else (s0, n0) in
      let ds := digits_of_N (Z.to_N sd) in
      let exp_part :=
        js "e" ++ (if (0 <=? n - 1)%Z then js "+" else js "-")
               ++ digits_of_N (Z.to_N (Z.abs (n - 1))) in
      (if s then js "-" else []) ++
      (if ((k <=? n) && (n <=? 21))%Z then ds ++ zeros (n - k)
       else if ((0 <? n) && (n <=? 21))%Z then
         firstn (Z.to_nat n) ds ++ js "." ++ skipn (Z.to_nat n) ds
       else if ((-6 <? n) && (n <=? 0))%Z then
         js "0." ++ zeros (- n) ++ ds
       else if (k =? 1)%Z then ds ++ exp_part
       else firstn 1 ds ++ js "." ++ skipn 1 ds ++ exp_part)
  end.

(** ** Completions

    A call either returns normally or throws.  The program only ever reads
    [error.message] of what it catches; the text of a built-in error is
    engine-defined, so the error itself is kept. *)

Inductive JsError :=
| TypeError
| URIError
| SyntaxError
| Error (message : jsstring).

Inductive Completion (A : Type) :=
| Normal (a : A)
| Throw (e : JsError).

Arguments Normal {A} a.
Arguments Throw {A} e.

Definition bind {A B : Type} (c : Completion A) (k : A -> Completion B)
  : Completion B :=
  match c with
  | Normal a => k a
  | Throw e => Throw e
  end.

Notation "x <- c ;; k" := (bind c (fun x => k))
  (at level 61, c at next level, right associativity).

(** [xs.map(f)] where [f] may throw: the first exception ends the call. *)
Fixpoint mapM {A B : Type} (f : A -> Completion B) (xs : list A)
  : Completion (list B) :=
  match xs with
  | [] => Normal []
  | x :: xs' =>
      y <- f x ;;
      ys <- mapM f xs' ;;
      Normal (y :: ys)
  end.

(** ** Values

    What [JSON.parse] produces, and [undefined], which a read of a missing
    property or of an index past the end of an array yields.  The members
    of an object are kept in the order written; where a name occurs twice
    the later member is the property ([JSON.parse] and repeated assignment
    agree on that). *)

#[warnings="-register-all"]
Inductive JValue :=
| JUndefined
| JNull
| JBool (b : bool)
| JNum (n : number)
| JStr (s : jsstring)
| JArr (elems : list JValue)
| JObj (members : list (jsstring * JValue)).

Fixpoint lookup (P : jsstring) (members : list (jsstring * JValue))
  : option JValue :=
  match members with
  | [] => None
  | (k, v) :: rest =>
      match lookup P rest with
      | Some later => Some later
      | None => if str_eqb k P then Some v else None
      end
  end.

Definition has_own (P : jsstring) (members : list (jsstring * JValue)) : bool :=
  match lookup P members with Some _ => true | None => false end.

(** An object the program creates with [{}] and fills by assignment.  Its
    prototype is [Object.prototype] until an assignment to [__proto__]
    replaces it. *)

Inductive Prototype :=
| ObjectPrototype
| NullPrototype
| ValuePrototype (v : JValue).

Record Object := {
  own : list (jsstring * JValue);
  proto : Prototype
}.

(** The operand of a property read: a parsed value or a created object. *)
Inductive Value :=
| Data (v : JValue)
| Obj (o : Object).

Definition ToBoolean (v : JValue) : bool :=
  match v with
  | JUndefined | JNull => false
  | JBool b => b
  | JNum (S754_zero _) | JNum S754_nan => false
  | JNum _ => true
  | JStr [] => false
  | JStr _ => true
  | JArr _ | JObj _ => true
  end.

(** [a || b] *)
Definition or_else (a b : JValue) : JValue :=
  if ToBoolean a then a else b.

Definition isArray (v : JValue) : bool :=
  match v with JArr _ => true | _ => false end.

(** [String(v)], also the property key [v] denotes.  An array joins its
    elements with commas ([null] and [undefined] print as nothing); a plain
    object prints through [Object.prototype.toString] unless a member named
    [toString] shadows it, and such a member is never callable. *)

Fixpoint ToString (v : JValue) : Completion jsstring :=
  match v with
  | JUndefined => Normal (js "undefined")
  | JNull => Normal (js "null")
  | JBool true => Normal (js "true")
  | JBool false => Normal (js "false")
  | JNum n => Normal (Number_toString n)
  | JStr s => Normal s
  | JArr elems =>
      parts <- (fix each (l : list JValue) : Completion (list jsstring) :=
                  match l with
                  | [] => Normal []
                  | e :: l' =>
                      s <- match e with
                           | JUndefined | JNull => Normal []
                           | _ => ToString e
                           end ;;
                      ss <- each l' ;;
                      Normal (s :: ss)
                  end) elems ;;
      Normal (join (js ",") parts)
  | JObj members =>
      if has_own (js "toString") members then Throw TypeError
      else Normal (js "[object Object]")
  end.

(** [recv.includes(search)] with a string argument: the substring test of
    [String.prototype], the membership test of [Array.prototype]; no other
    value has a callable [includes]. *)

Definition includes (recv : JValue) (search : jsstring) : Completion bool :=
  match recv with
  | JStr s => Normal (str_includes s search)
  | JArr elems =>
      Normal (existsb (fun e => match e with
                                | JStr t => str_eqb t search
                                | _ => false
                                end) elems)
  | _ => Throw TypeError
  end.

(** [v[i]] for an array index [i]. *)

Definition GetIndex (v : JValue) (i : nat) : Completion JValue :=
  match v with
  | JUndefined | JNull => Throw TypeError
  | JArr elems => Normal (nth i elems JUndefined)
  | JStr s => Normal (match nth_error s i with
                      | Some c => JStr [c]
                      | None => JUndefined
                      end)
  | JObj members =>
      Normal (match lookup (digits_of_N (N.of_nat i)) members with
              | Some x => x
              | None => JUndefined
              end)
  | JBool _ | JNum _ => Normal JUndefined
  end.

(** [o[P] = V] on a created object.  The name [__proto__] reaches the
    accessor of [Object.prototype], which replaces the prototype when [V] is
    an object or [null] and does nothing otherwise, unless a data property
    of that name is met first on the way up or the chain ends before
    [Object.prototype]; every other name defines or updates an own
    property. *)

Definition proto_setter_reachable (o : Object) : bool :=
  negb (has_own (js "__proto__") (own o)) &&
  match proto o with
  | ObjectPrototype => true
  | NullPrototype => false
  | ValuePrototype (JObj members) => negb (has_own (js "__proto__") members)
  | ValuePrototype _ => true
  end.

Definition SetProperty (o : Object) (P : jsstring) (V : JValue) : Object :=
  if str_eqb P (js "__proto__") && proto_setter_reachable o then
    match V with
    | JObj _ | JArr _ => {| own := own o; proto := ValuePrototype V |}
    | JNull => {| own := own o; proto := NullPrototype |}
    | _ => o
    end
  else {| own := own o ++ [(P, V)]; proto := proto o |}.

(** ** parseFloat

    Leading white space and line terminators are skipped, then the longest
    prefix that is a [StrDecimalLiteral] is read; [NaN] when there is none. *)

Definition is_white_space (c : N) : bool :=
  existsb (N.eqb c)
    [9; 10; 11; 12; 13; 32; 160; 5760; 8232; 8233; 8239; 8287; 12288; 65279]%N
  || ((8192 <=? c) && (c <=? 8202))%N.

Fixpoint trim_start (s : jsstring) : jsstring :=
  match s with
  | c :: s' => if is_white_space c then trim_start s' else s
  | [] => []
  end.

Definition is_digit (c : N) : bool := ((48 <=? c) && (c <=? 57))%N.

(** The leading decimal digits of [s] (as digit values) and what follows. *)
Fixpoint span_digits (s : jsstring) : list N * jsstring :=
  match s with
  | c :: s' =>
      if is_digit c then
        let (ds, rest) := span_digits s' in ((c - 48)%N :: ds, rest)
      else ([], s)
  | [] => ([], [])
  end.

Definition digits_value (ds : list N) : N :=
  fold_left (fun acc d => (10 * acc + d)%N) ds 0%N.

(** The value of an [ExponentPart] at the head of [s]; 0 when none is. *)
Definition exponent_part (s : jsstring) : Z :=
  match s with
  | c :: s' =>
      if (N.eqb c 101 || N.eqb c 69)%bool then
        let '(neg, s'') :=
          match s' with
          | 43%N :: t => (false, t)
          | 45%N :: t => (true, t)
          | _ => (false, s')
          end in
        match fst (span_digits s'') with
        | [] => 0%Z
        | ds => let e := Z.of_N (digits_value ds) in
                if neg then Z.opp e else e
        end
      else 0%Z
  | [] => 0%Z
  end.

Definition parse_decimal_prefix (s : jsstring) : number :=
  let '(neg, s1) :=
    match s with
    | 43%N :: t => (false, t)
    | 45%N :: t => (true, t)
    | _ => (false, s)
    end in
  if starts_with (js "Infinity") s1 then S754_infinity neg
  else
    let (int_digits, s2) := span_digits s1 in
    let (frac_digits, s3) :=
      match s2 with
      | 46%N :: t => span_digits t
      | _ => ([], s2)
      end in
    match int_digits ++ frac_digits with
    | [] => S754_nan
    | ds => number_of_decimal neg (digits_value ds)
              (exponent_part s3 - Z.of_nat (List.length frac_digits))
    end.

Definition parseFloat (v : JValue) : Completion number :=
  s <- ToString v ;;
  Normal (parse_decimal_prefix (trim_start s)).

End JS.

Import JS.

(* ===================================================================== *)
(** * config.js *)
(* ===================================================================== *)

Module CONFIG.

Module MARKERS.
Definition BLUE : jsstring := js "blue".
Definition RED : jsstring := js "red".
Definition BLUE_STRIPED : jsstring := js "blue-striped".
Definition RED_STRIPED : jsstring := js "red-striped".
Definition DEFAULT : jsstring := js "blue".
End MARKERS.

Module COLORS.
Definition BLUE : jsstring := js "#2b82cb".
Definition RED : jsstring := js "#e04e39".
End COLORS.

Module CSS_CLASSES.
Definition POPUP_FLAVOR : jsstring := js "store-popup-flavor".
Definition POPUP_FLAVOR_MULTILINE : jsstring :=
  js "store-popup-flavor--multiline".
Definition POPUP_LINK : jsstring := js "store-popup-link".
End CSS_CLASSES.

End CONFIG.

(* ===================================================================== *)
(** * worker/store.worker.js *)
(* ===================================================================== *)

Module Worker.

(** The configuration object the main thread posts to the worker
    ([StoreService.fetchStores]) holds [DATA_URL], [MARKERS] and [COLORS]
    of [CONFIG].  The worker reads [MARKERS.DEFAULT], [COLORS.BLUE] and
    [COLORS.RED] of it; [DATA_URL] only reaches [fetch], whose outcome is an
    input here. *)

Record Config := {
  MARKERS_DEFAULT : jsstring;
  COLORS_BLUE : jsstring;
  COLORS_RED : jsstring
}.

Definition workerConfig : Config := {|
  MARKERS_DEFAULT := CONFIG.MARKERS.DEFAULT;
  COLORS_BLUE := CONFIG.COLORS.BLUE;
  COLORS_RED := CONFIG.COLORS.RED
|}.

(** The property names the worker reads off the payload and its records.
    None of them names a member of a built-in prototype, so a read finds an
    own property, a property of a replaced prototype, or nothing. *)

Module Raw.
Inductive Field :=
| NAME | py | px | addr | TEL | flavorType | markerColor
| last_updated | data.

Definition name_of (f : Field) : jsstring :=
  match f with
  | NAME => js "NAME"
  | py => js "py"
  | px => js "px"
  | addr => js "addr"
  | TEL => js "TEL"
  | flavorType => js "flavorType"
  | markerColor => js "markerColor"
  | last_updated => js "last_updated"
  | data => js "data"
  end.
End Raw.

Definition own_or_undefined (P : jsstring) (members : list (jsstring * JValue))
  : JValue :=
  match lookup P members with
  | Some v => v
  | None => JUndefined
  end.

(** [v.f] on a parsed value. *)
Definition GetData (v : JValue) (f : Raw.Field) : Completion JValue :=
  match v with
  | JUndefined | JNull => Throw TypeError
  | JObj members => Normal (own_or_undefined (Raw.name_of f) members)
  | JBool _ | JNum _ | JStr _ | JArr _ => Normal JUndefined
  end.

(** [rawStore.f] *)
Definition Get (rawStore : Value) (f : Raw.Field) : Completion JValue :=
  match rawStore with
  | Data v => GetData v f
  | Obj o =>
      match lookup (Raw.name_of f) (own o) with
      | Some v => Normal v
      | None =>
          match proto o with
          | ValuePrototype (JObj members) =>
              Normal (own_or_undefined (Raw.name_of f) members)
          | _ => Normal JUndefined
          end
      end
  end.

Record StoreRecord := {
  name : JValue;
  latitude : number;
  longitude : number;
  address : JValue;
  phone : JValue;
  flavorType : JValue;
  markerColor : JValue;
  isSpecialShape : bool;
  displayColor : jsstring
}.

(** What [normalizeStoreData] returns: [{ isValid: false }], or the record
    with [isValid: true]. *)
Inductive Normalized :=
| Invalid
| Valid (store : StoreRecord).

Definition isValid (n : Normalized) : bool :=
  match n with Valid _ => true | Invalid => false end.

(** [rawStore.py && rawStore.px && !isNaN(parseFloat(rawStore.py)) &&
    !isNaN(parseFloat(rawStore.px))], then [!hasCoordinates] *)
Definition hasCoordinates (rawStore : Value) : Completion bool :=
  y <- Get rawStore Raw.py ;;
  if negb (ToBoolean y) then Normal false else
  x <- Get rawStore Raw.px ;;
  if negb (ToBoolean x) then Normal false else
  lat <- parseFloat y ;;
  if isNaN lat then Normal false else
  lng <- parseFloat x ;;
  Normal (negb (isNaN lng)).

Definition specialShapeMarker : jsstring := js "特殊造型".

Definition normalizeStoreData (rawStore : Value) (config : Config)
  : Completion Normalized :=
  ok <- hasCoordinates rawStore ;;
  if negb ok then Normal Invalid else
  ft <- Get rawStore Raw.flavorType ;;
  let flavorType := or_else ft (JStr []) in
  isSpecialShape <- includes flavorType specialShapeMarker ;;
  mc <- Get rawStore Raw.markerColor ;;
  let markerColor := or_else mc (JStr (MARKERS_DEFAULT config)) in
  red <- includes markerColor (js "red") ;;
  let displayColor := if red then COLORS_RED config else COLORS_BLUE config in
  nm <- Get rawStore Raw.NAME ;;
  y <- Get rawStore Raw.py ;;
  lat <- parseFloat y ;;
  x <- Get rawStore Raw.px ;;
  lng <- parseFloat x ;;
  ad <- Get rawStore Raw.addr ;;
  tel <- Get rawStore Raw.TEL ;;
  Normal (Valid {|
    name := or_else nm (JStr (js "Unknown Store"));
    latitude := lat;
    longitude := lng;
    address := or_else ad (JStr []);
    phone := or_else tel (JStr []);
    flavorType := flavorType;
    markerColor := markerColor;
    isSpecialShape := isSpecialShape;
    displayColor := displayColor
  |}).

(** [.filter(store => store.isValid)]: the records that stay are the valid
    ones. *)
Fixpoint filter_valid (results : list Normalized) : list StoreRecord :=
  match results with
  | [] => []
  | Valid s :: rest => s :: filter_valid rest
  | Invalid :: rest => filter_valid rest
  end.

(** [rawData.keys].  On an array the name is the built-in method
    [Array.prototype.keys]. *)
Inductive KeysProperty :=
| KeysValue (v : JValue)
| KeysMethod.

Definition Get_keys (rawData : JValue) : Completion KeysProperty :=
  match rawData with
  | JUndefined | JNull => Throw TypeError
  | JArr _ => Normal KeysMethod
  | JObj members => Normal (KeysValue (own_or_undefined (js "keys") members))
  | JBool _ | JNum _ | JStr _ => Normal (KeysValue JUndefined)
  end.

Definition keys_truthy (k : KeysProperty) : bool :=
  match k with
  | KeysValue v => ToBoolean v
  | KeysMethod => true
  end.

(** [keys.forEach((key, index) => { storeObj[key] = row[index]; })] *)
Fixpoint assign_columns (keys : list JValue) (index : nat) (row : JValue)
  (storeObj : Object) : Completion Object :=
  match keys with
  | [] => Normal storeObj
  | key :: keys' =>
      v <- GetIndex row index ;;
      P <- ToString key ;;
      assign_columns keys' (S index) row (SetProperty storeObj P v)
  end.

Definition forEach_key (keys : KeysProperty) (row : JValue)
  : Completion Object :=
  match keys with
  | KeysValue (JArr ks) =>
      assign_columns ks 0 row {| own := []; proto := ObjectPrototype |}
  | _ => Throw TypeError
  end.

(** The payload of the [SUCCESS] message. *)
Record Payload := {
  stores : list StoreRecord;
  lastUpdated : JValue
}.

Definition invalid_data_format : JsError := Error (js "Invalid data format").

(** The body of the [try] block from [response.json()] on. *)
Definition processStores (rawData : JValue) (config : Config)
  : Completion Payload :=
  keys <- Get_keys rawData ;;
  d <- (if keys_truthy keys then GetData rawData Raw.data
        else Normal JUndefined) ;;
  match keys_truthy keys, d with
  | true, JArr rows =>
      (* New Optimized Format *)
      lu <- GetData rawData Raw.last_updated ;;
      results <- mapM (fun row =>
                         storeObj <- forEach_key keys row ;;
                         normalizeStoreData (Obj storeObj) config) rows ;;
      Normal {| stores := filter_valid results;
                lastUpdated := or_else lu (JStr []) |}
  | _, _ =>
      match rawData with
      | JArr elems =>
          (* Legacy Format *)
          lu <- match elems with
                | first :: _ =>
                    l <- GetData first Raw.last_updated ;;
                    Normal (if ToBoolean l then l else JStr [])
                | [] => Normal (JStr [])
                end ;;
          results <- mapM (fun store =>
                             normalizeStoreData (Data store) config) elems ;;
          Normal {| stores := filter_valid results; lastUpdated := lu |}
      | _ => Throw invalid_data_format
      end
  end.

(** What [fetch] and [response.json()] hand to the worker. *)
Inductive FetchOutcome :=
| FetchRejected (e : JsError)
| Response (ok : bool) (statusText : jsstring) (json : Completion JValue).

(** The message posted to the main thread. *)
Inductive Message :=
| SUCCESS (payload : Payload)
| ERROR (error : JsError).

Definition network_error (statusText : jsstring) : JsError :=
  Error (js "Network response was not ok: " ++ statusText).

Definition fetchAndProcessStores (config : Config) (fetched : FetchOutcome)
  : Message :=
  let body : Completion Payload :=
    match fetched with
    | FetchRejected e => Throw e
    | Response ok statusText json =>
        if negb ok then Throw (network_error statusText)
        else rawData <- json ;; processStores rawData config
    end in
  match body with
  | Normal payload => SUCCESS payload
  | Throw e => ERROR e
  end.

End Worker.

(* ===================================================================== *)
(** * js/helpers/UIHelpers.js *)
(* ===================================================================== *)

Module UIHelpers.

Import Worker.

(** The five [replace] calls of [escapeHtml], in the order written. *)
Definition escape_string (s : jsstring) : jsstring :=
  replace_all 39 (js "&#039;")
    (replace_all 34 (js "&quot;")
      (replace_all 62 (js "&gt;")
        (replace_all 60 (js "&lt;")
          (replace_all 38 (js "&amp;") s)))).

Definition escapeHtml (text : JValue) : Completion jsstring :=
  if negb (ToBoolean text) then Normal []
  else s <- ToString text ;; Normal (escape_string s).

(** *** encodeURIComponent *)

Definition is_uri_unreserved (c : N) : bool :=
  ((65 <=? c) && (c <=? 90) || (97 <=? c) && (c <=? 122)
   || (48 <=? c) && (c <=? 57))%N
  || existsb (N.eqb c) (js "-_.!~*'()").

Definition hex_digit (n : N) : N :=
  if (n <? 10)%N then (48 + n)%N else (55 + n)%N.

Definition percent (byte : N) : jsstring :=
  [37%N; hex_digit (byte / 16); hex_digit (byte mod 16)].

Definition utf8_encode (cp : N) : list N :=
  if (cp <? 128)%N then [cp]
  else if (cp <? 2048)%N then [(192 + cp / 64)%N; (128 + cp mod 64)%N]
  else if (cp <? 65536)%N then
    [(224 + cp / 4096)%N; (128 + (cp / 64) mod 64)%N; (128 + cp mod 64)%N]
  else
    [(240 + cp / 262144)%N; (128 + (cp / 4096) mod 64)%N;
     (128 + (cp / 64) mod 64)%N; (128 + cp mod 64)%N].

Definition is_high_surrogate (c : N) : bool := ((55296 <=? c) && (c <=? 56319))%N.
Definition is_low_surrogate (c : N) : bool := ((56320 <=? c) && (c <=? 57343))%N.

Fixpoint encode_units (s : jsstring) : Completion jsstring :=
  match s with
  | [] => Normal []
  | c :: s' =>
      if is_uri_unreserved c then
        r <- encode_units s' ;; Normal (c :: r)
      else if is_low_surrogate c then Throw URIError
      else if is_high_surrogate c then
        match s' with
        | d :: s'' =>
            if is_low_surrogate d then
              r <- encode_units s'' ;;
              Normal (flat_map percent
                        (utf8_encode
                           (65536 + (c - 55296) * 1024 + (d - 56320))%N)
                      ++ r)
            else Throw URIError
        | [] => Throw URIError
        end
      else
        r <- encode_units s' ;;
        Normal (flat_map percent (utf8_encode c) ++ r)
  end.

Definition encodeURIComponent (v : JValue) : Completion jsstring :=
  s <- ToString v ;; encode_units s.

Definition nl : jsstring := [10%N].

(** The template literal of [createStorePopupContent]. *)
Definition popup_template
  (mapUrl safeName flavorClass colorStyle flavorHtml safeAddress safePhone
   : jsstring) : jsstring :=
  List.concat [
    nl; js "            <div class="; dq; js "store-popup"; dq; js ">";
    nl; js "                <b>";
    nl; js "                    <a href="; dq; mapUrl; dq; js " ";
    nl; js "                       target="; dq; js "_blank"; dq; js " ";
    nl; js "                       rel="; dq; js "noopener noreferrer"; dq; js " ";
    nl; js "                       class="; dq; CONFIG.CSS_CLASSES.POPUP_LINK; dq; js ">";
    nl; js "                        "; safeName;
    nl; js "                    </a>";
    nl; js "                </b><br>";
    nl; js "                <span class="; dq; flavorClass; dq; js " style="; dq; colorStyle; dq; js ">";
    nl; js "                    "; flavorHtml;
    nl; js "                </span><br>";
    nl; js "                地址: "; safeAddress; js "<br>";
    nl; js "                電話: "; safePhone;
    nl; js "            </div>";
    nl; js "        "
  ].

Definition createStorePopupContent (store : StoreRecord)
  : Completion jsstring :=
  safeName <- escapeHtml (name store) ;;
  uri <- encodeURIComponent (name store) ;;
  let mapUrl := js "https://www.google.com/maps/search/" ++ uri in
  safeAddress <- escapeHtml (address store) ;;
  safePhone <- escapeHtml (phone store) ;;
  flavorHtml0 <- escapeHtml (flavorType store) ;;
  let flavorClass0 := CONFIG.CSS_CLASSES.POPUP_FLAVOR in
  let colorStyle := js "color: " ++ displayColor store ++ js ";" in
  let '(flavorHtml, flavorClass) :=
    if isSpecialShape store then
      (replace_first (js " (") (js "<br>(") flavorHtml0,
       flavorClass0 ++ js " " ++ CONFIG.CSS_CLASSES.POPUP_FLAVOR_MULTILINE)
    else (flavorHtml0, flavorClass0) in
  Normal (popup_template mapUrl safeName flavorClass colorStyle flavorHtml
            safeAddress safePhone).

(** [L.divIcon(options)]: the options, kept as given. *)
Record DivIcon := {
  className : jsstring;
  html : jsstring;
  iconSize : Z * Z;
  iconAnchor : option (Z * Z);
  popupAnchor : option (Z * Z)
}.

Definition createPinIcon (cls : jsstring) : DivIcon := {|
  className := js "pin-wrapper";
  html := js "<div class=" ++ dq ++ js "custom-pin " ++ cls ++ dq
          ++ js "></div>";
  iconSize := (30, 30)%Z;
  iconAnchor := Some (15, 36)%Z;
  popupAnchor := Some (0, -36)%Z
|}.

End UIHelpers.

(* ===================================================================== *)
(** * js/controllers/MapController.js *)
(* ===================================================================== *)

Module MapController.

Import Worker UIHelpers.

(** What a read [this.icons[key]] can yield.  [this.icons] starts as [{}],
    so a name that is not an own property is looked up in
    [Object.prototype]. *)
Inductive IconSlot :=
| OwnIcon (icon : DivIcon)
| Inherited (member : jsstring)
| Undefined.

Definition object_prototype_members : list jsstring :=
  map js ["constructor"; "hasOwnProperty"; "isPrototypeOf";
          "propertyIsEnumerable"; "toLocaleString"; "toString"; "valueOf";
          "__proto__"; "__defineGetter__"; "__defineSetter__";
          "__lookupGetter__"; "__lookupSetter__"]%string.

Fixpoint lookup_icon (P : jsstring) (members : list (jsstring * DivIcon))
  : option DivIcon :=
  match members with
  | [] => None
  | (k, v) :: rest =>
      match lookup_icon P rest with
      | Some later => Some later
      | None => if str_eqb k P then Some v else None
      end
  end.

Definition icons_get (icons : list (jsstring * DivIcon)) (P : jsstring)
  : IconSlot :=
  match lookup_icon P icons with
  | Some i => OwnIcon i
  | None =>
      if existsb (str_eqb P) object_prototype_members then Inherited P
      else Undefined
  end.

Definition slot_truthy (s : IconSlot) : bool :=
  match s with Undefined => false | _ => true end.

(** [L.marker([lat, lng], { icon, markerColor }).bindPopup(popupContent)] *)
Record Marker := {
  latlng : number * number;
  icon : IconSlot;
  options_markerColor : JValue;
  popup : jsstring
}.

Record State := {
  icons : list (jsstring * DivIcon);
  markersLayer : option (list Marker)   (* [null] until [_initMarkersLayer] *)
}.

Definition constructed : State := {| icons := []; markersLayer := None |}.

Definition _initIcons (this : State) : State := {|
  icons := icons this
    ++ [(CONFIG.MARKERS.BLUE, createPinIcon (js "marker-blue"))]
    ++ [(CONFIG.MARKERS.RED, createPinIcon (js "marker-red"))]
    ++ [(CONFIG.MARKERS.BLUE_STRIPED, createPinIcon (js "marker-blue-striped"))]
    ++ [(CONFIG.MARKERS.RED_STRIPED, createPinIcon (js "marker-red-striped"))];
  markersLayer := markersLayer this
|}.

Definition _initMarkersLayer (this : State) : State := {|
  icons := icons this;
  markersLayer := Some []
|}.

(** [init()], as far as icons and the marker layer go. *)
Definition init (this : State) : State := _initMarkersLayer (_initIcons this).

(** [this.icons[store.markerColor] || this.icons[CONFIG.MARKERS.DEFAULT]] *)
Definition icon_for (this : State) (store : StoreRecord)
  : Completion IconSlot :=
  key <- ToString (markerColor store) ;;
  let first := icons_get (icons this) key in
  Normal (if slot_truthy first then first
          else icons_get (icons this) CONFIG.MARKERS.DEFAULT).

Definition make_marker (this : State) (store : StoreRecord)
  : Completion Marker :=
  i <- icon_for this store ;;
  popupContent <- createStorePopupContent store ;;
  Normal {| latlng := (latitude store, longitude store);
            icon := i;
            options_markerColor := markerColor store;
            popup := popupContent |}.

(** *** The cluster group

    The layer is Leaflet's: [_initMarkersLayer] creates it with
    [L.markerClusterGroup({ chunkedLoading: true, ... })], and Leaflet is
    not part of the repository.  [renderMarkers] makes two calls on it.
    [clearLayers()] returns with no marker on the group.  What
    [addLayers(markers)] has done when control comes back is an input here:
    with [chunkedLoading] the group takes markers for a while and leaves the
    rest to a timer of its own, which a later [clearLayers()] does not
    cancel; and the call throws when Leaflet draws a marker whose [icon]
    option is no icon.  [markersLayer] holds the markers on the group when
    the last call on it ended; what the group's timers add afterwards is
    outside the state. *)
Record AddLayers := {
  onLayer : list Marker;        (* the markers on the group when the call ends *)
  completion : Completion unit  (* how the call ends *)
}.

(** [renderMarkers(stores)]: the controller it leaves and how it ends, with
    [addLayers] what the group does with the markers it is handed.  The
    group is cleared before the first marker is made; when a marker cannot
    be made, [addLayers] is not called. *)
Definition renderMarkers (addLayers : list Marker -> AddLayers)
  (this : State) (stores : list StoreRecord) : State * Completion unit :=
  match markersLayer this with
  | None => (this, Normal tt)
  | Some _ =>
      let cleared := {| icons := icons this; markersLayer := Some [] |} in
      match mapM (make_marker this) stores with
      | Throw e => (cleared, Throw e)
      | Normal markers =>
          let added := addLayers markers in
          ({| icons := icons this; markersLayer := Some (onLayer added) |},
           completion added)
      end
  end.

(** *** The cluster icon *)

(** [marker.options.markerColor && marker.options.markerColor.includes('red')] *)
Definition counts_red (m : Marker) : Completion bool :=
  if ToBoolean (options_markerColor m)
  then includes (options_markerColor m) (js "red")
  else Normal false.

Fixpoint count_red (markers : list Marker) (redCount : nat)
  : Completion nat :=
  match markers with
  | [] => Normal redCount
  | m :: rest =>
      r <- counts_red m ;;
      count_red rest (if r then S redCount else redCount)
  end.

Definition Q_of_nat (n : nat) : Q := inject_Z (Z.of_nat n).

Definition colorClass (redCount len : nat) : jsstring :=
  if Qeq_bool (Q_of_nat redCount) (Q_of_nat len / 2)%Q then
    js "marker-cluster-split"
  else if negb (Qle_bool (Q_of_nat redCount) (Q_of_nat len / 2)%Q) then
    js "marker-cluster-red"
  else
    js "marker-cluster-blue".

Definition iconCreateFunction (cluster : list Marker) : Completion DivIcon :=
  let markers := cluster in
  redCount <- count_red markers 0 ;;
  Normal {|
    className := js "marker-cluster " ++ colorClass redCount (List.length markers);
    html := js "<div><span>" ++ digits_of_N (N.of_nat (List.length cluster))
            ++ js "</span></div>";
    iconSize := (40, 40)%Z;
    iconAnchor := None;
    popupAnchor := None
  |}.

End MapController.

(* ===================================================================== *)
(** * The DOM, as far as the controllers touch it *)
(* ===================================================================== *)

Module DOM.

(** [element.classList]: an ordered set of tokens. *)
Definition classList_contains (token : jsstring) (classes : list jsstring)
  : bool :=
  existsb (str_eqb token) classes.

Definition classList_add (token : jsstring) (classes : list jsstring)
  : list jsstring :=
  if classList_contains token classes then classes else classes ++ [token].

Definition classList_remove (token : jsstring) (classes : list jsstring)
  : list jsstring :=
  filter (fun c => negb (str_eqb token c)) classes.

(** [parent.removeChild(node)] and [node.remove()] on the children of the
    parent, nodes being told apart by identity. *)
Definition remove_child (node : nat) (children : list nat) : list nat :=
  filter (fun c => negb (Nat.eqb node c)) children.

Definition is_child (node : nat) (children : list nat) : bool :=
  existsb (Nat.eqb node) children.

End DOM.

(* ===================================================================== *)
(** * js/services/NotificationService.js *)
(* ===================================================================== *)

Module NotificationService.

Import DOM.

Definition TOAST_TIMEOUT : Z := 3000.
Definition TOAST : jsstring := js "toast".
Definition TOAST_SHOW : jsstring := js "show".
Definition TOAST_ERROR : jsstring := js "error".

(** A toast element. *)
Record Toast := {
  classList : list jsstring;
  textContent : jsstring
}.

(** The two [setTimeout] callbacks of [show], each closed over its
    [toast]. *)
Inductive Callback :=
| Hide (toast : nat)      (* after [TOAST_TIMEOUT] *)
| Detach (toast : nat).   (* 300 ms later, after the transition *)

Record Timer := {
  due : Z;
  callback : Callback
}.

(** The service and the part of the page it works on.  Elements are told
    apart by the position at which [createElement] made them. *)
Record State := {
  container : option (list nat);  (* the children of the container element;
                                     [None] when [getElementById] found none *)
  lastMessageTime : Z;
  lastMessageText : jsstring;
  currentToast : option nat;
  elements : list Toast;
  timers : list Timer
}.

(** [new NotificationService()] *)
Definition constructor (container_found : bool) : State := {|
  container := if container_found then Some [] else None;
  lastMessageTime := 0;
  lastMessageText := [];
  currentToast := None;
  elements := [];
  timers := []
|}.

Fixpoint update_element (toast : nat) (f : Toast -> Toast) (l : list Toast)
  : list Toast :=
  match l, toast with
  | [], _ => []
  | e :: l', O => f e :: l'
  | e :: l', S n => e :: update_element n f l'
  end.

(** [show(message, type)], with [now] the value of [Date.now()]. *)
Definition show (message type : jsstring) (now : Z) (this : State) : State :=
  match container this with
  | None => this
  | Some children =>
      if str_eqb message (lastMessageText this)
         && (now - lastMessageTime this <? 2000)%Z
      then this
      else
        let children :=
          match currentToast this with
          | Some old => remove_child old children
          | None => children
          end in
        let toast := List.length (elements this) in
        let classes := [TOAST] in
        let classes :=
          if str_eqb type (js "error") then classList_add TOAST_ERROR classes
          else classes in
        let classes := classList_add TOAST_SHOW classes in
        {| container := Some (children ++ [toast]);
           lastMessageTime := now;
           lastMessageText := message;
           currentToast := Some toast;
           elements := elements this
                       ++ [{| classList := classes; textContent := message |}];
           timers := timers this
                     ++ [{| due := now + TOAST_TIMEOUT;
                            callback := Hide toast |}] |}
  end.

Definition is_current (toast : nat) (this : State) : bool :=
  match currentToast this with
  | Some t => Nat.eqb t toast
  | None => false
  end.

(** The body of a timer callback, run at time [now]. *)
Definition run_callback (c : Callback) (now : Z) (this : State)
  : Completion State :=
  match c with
  | Hide toast =>
      if is_current toast this then
        Normal {| container := container this;
                  lastMessageTime := lastMessageTime this;
                  lastMessageText := lastMessageText this;
                  currentToast := currentToast this;
                  elements :=
                    update_element toast
                      (fun e => {| classList :=
                                     classList_remove TOAST_SHOW (classList e);
                                   textContent := textContent e |})
                      (elements this);
                  timers := timers this
                            ++ [{| due := now + 300;
                                   callback := Detach toast |}] |}
      else Normal this
  | Detach toast =>
      (* [toast.parentNode === this.container] *)
      match container this with
      | None =>
          (* a toast outside the document has the parent [null], which
             is what the container is: [this.container.removeChild]
             fails *)
          Throw TypeError
      | Some children =>
          let children :=
            if is_child toast children then remove_child toast children
            else children in
          Normal {| container := Some children;
                    lastMessageTime := lastMessageTime this;
                    lastMessageText := lastMessageText this;
                    currentToast :=
                      if is_current toast this then None
                      else currentToast this;
                    elements := elements this;
                    timers := timers this |}
      end
  end.

Fixpoint remove_nth {A : Type} (k : nat) (l : list A) : list A :=
  match l, k with
  | [], _ => []
  | _ :: l', O => l'
  | x :: l', S n => x :: remove_nth n l'
  end.

Definition without_timer (k : nat) (this : State) : State := {|
  container := container this;
  lastMessageTime := lastMessageTime this;
  lastMessageText := lastMessageText this;
  currentToast := currentToast this;
  elements := elements this;
  timers := remove_nth k (timers this)
|}.

(** The event loop runs the [k]-th pending timer at time [now], if it is
    due.  An exception that escapes the callback ends the task and leaves
    what the callback had done so far, which is nothing. *)
Definition fire (k : nat) (now : Z) (this : State) : State :=
  match nth_error (timers this) k with
  | Some t =>
      if (due t <=? now)%Z then
        match run_callback (callback t) now (without_timer k this) with
        | Normal this' => this'
        | Throw _ => without_timer k this
        end
      else this
  | None => this
  end.

(** What can happen to the service: a call of [show], or a timer. *)
Inductive Event :=
| Show (message type : jsstring) (now : Z)
| Fire (k : nat) (now : Z).

Definition step (this : State) (e : Event) : State :=
  match e with
  | Show message type now => show message type now this
  | Fire k now => fire k now this
  end.

Definition run (events : list Event) (this : State) : State :=
  fold_left step events this.

Definition toast_of (c : Callback) : nat :=
  match c with Hide t | Detach t => t end.

Definition shown (this : State) : list nat :=
  match currentToast this with Some t => [t] | None => [] end.

End NotificationService.

(* ===================================================================== *)
(** * js/config.js: CONFIG.MESSAGES *)
(* ===================================================================== *)

Module MESSAGES.
Definition LOCATION_NOT_SUPPORTED : jsstring :=
  js "您的瀏覽器不支援地理位置功能".
Definition LOCATION_DENIED : jsstring :=
  js "請允許存取位置資訊以顯示您附近的店舖。" ++ [10%N]
  ++ js "若您先前已拒絕，請檢查瀏覽器網址列或設定中的權限設定。".
Definition LOCATION_UNAVAILABLE : jsstring :=
  js "無法偵測到您的目前位置，請確認您的裝置已開啟 GPS 或連上網路。".
Definition LOCATION_TIMEOUT : jsstring := js "取得位置資訊逾時，請稍後再試。".
Definition LOCATION_UNKNOWN_ERROR : jsstring := js "無法取得您的位置。".
Definition USER_LOCATION_POPUP : jsstring := js "您的目前位置".
Definition FETCH_ERROR : jsstring :=
  js "暫時無法取得店舖資料，請檢查網路連線。".
End MESSAGES.

(* ===================================================================== *)
(** * js/services/LocationService.js *)
(* ===================================================================== *)

Module LocationService.

(** The values that reach an error handler: the browser's
    [GeolocationPositionError] (whose prototype carries the constants
    [PERMISSION_DENIED = 1], [POSITION_UNAVAILABLE = 2], [TIMEOUT = 3]), or
    an [Error] object made with [new Error(message)], or an exception of
    the engine; the last two have a message and nothing else. *)
Inductive ErrorValue :=
| GeolocationPositionError (code : N) (message : jsstring)
| ErrorObject (message : jsstring)
| Exception (e : JsError).

(** [error.message === s].  The message of a built-in exception is the
    engine's own sentence, never one of the program's constants. *)
Definition message_is (error : ErrorValue) (s : jsstring) : bool :=
  match error with
  | GeolocationPositionError _ m | ErrorObject m => str_eqb m s
  | Exception (Error m) => str_eqb m s
  | Exception _ => false
  end.

(** The numeric properties of an error value; [None] is [undefined]. *)
Definition code (error : ErrorValue) : option N :=
  match error with
  | GeolocationPositionError c _ => Some c
  | ErrorObject _ | Exception _ => None
  end.

Definition PERMISSION_DENIED (error : ErrorValue) : option N :=
  match error with
  | GeolocationPositionError _ _ => Some 1%N
  | ErrorObject _ | Exception _ => None
  end.

Definition POSITION_UNAVAILABLE (error : ErrorValue) : option N :=
  match error with
  | GeolocationPositionError _ _ => Some 2%N
  | ErrorObject _ | Exception _ => None
  end.

Definition TIMEOUT (error : ErrorValue) : option N :=
  match error with
  | GeolocationPositionError _ _ => Some 3%N
  | ErrorObject _ | Exception _ => None
  end.

(** [a === b], the comparison a [switch] makes, on such properties. *)
Definition strict_equals (a b : option N) : bool :=
  match a, b with
  | None, None => true
  | Some x, Some y => N.eqb x y
  | _, _ => false
  end.

(** [static getErrorMessage(error)] *)
Definition getErrorMessage (error : ErrorValue) : jsstring :=
  if strict_equals (code error) (PERMISSION_DENIED error) then
    MESSAGES.LOCATION_DENIED
  else if strict_equals (code error) (POSITION_UNAVAILABLE error) then
    MESSAGES.LOCATION_UNAVAILABLE
  else if strict_equals (code error) (TIMEOUT error) then
    MESSAGES.LOCATION_TIMEOUT
  else
    MESSAGES.LOCATION_UNKNOWN_ERROR.

(** [position.coords] *)
Record Position := {
  latitude : number;
  longitude : number
}.

(** How the promise of [getCurrentPosition] settles. *)
Inductive Outcome :=
| Resolved (position : Position)
| Rejected (error : ErrorValue).

(** [navigator.geolocation]: the watches that are active, and the
    identifier the next one gets. *)
Record Geolocation := {
  watches : list nat;
  next_watch : nat
}.

Record State := {
  watchId : option nat;
  geolocation : option Geolocation   (* [None]: not in [navigator] *)
}.

Definition constructor (geolocation : option Geolocation) : State := {|
  watchId := None;
  geolocation := geolocation
|}.

Definition isSupported (this : State) : bool :=
  match geolocation this with Some _ => true | None => false end.

(** [getCurrentPosition()]: the browser is asked only when geolocation is
    supported; [browser] is how it answers. *)
Definition getCurrentPosition (this : State) (browser : Outcome) : Outcome :=
  if negb (isSupported this) then
    Rejected (ErrorObject (js "GEOLOCATION_NOT_SUPPORTED"))
  else browser.

Definition clearWatch (this : State) : Completion State :=
  match watchId this with
  | Some id =>
      match geolocation this with
      | Some g =>
          Normal {| watchId := None;
                    geolocation :=
                      Some {| watches :=
                                filter (fun w => negb (Nat.eqb id w))
                                  (watches g);
                              next_watch := next_watch g |} |}
      | None => Throw TypeError
      end
  | None => Normal this
  end.

Definition watchPosition (this : State) : Completion State :=
  if negb (isSupported this) then Normal this else
  this <- clearWatch this ;;
  match geolocation this with
  | Some g =>
      Normal {| watchId := Some (next_watch g);
                geolocation :=
                  Some {| watches := watches g ++ [next_watch g];
                          next_watch := S (next_watch g) |} |}
  | None => Throw TypeError
  end.

End LocationService.

(** ** Calls of the service, in sequence *)

Module LocationCalls.

Import LocationService.

(** The two methods that change the service. *)
Inductive Call :=
| WatchPosition
| ClearWatch.

Definition call (c : Call) (this : State) : Completion State :=
  match c with
  | WatchPosition => watchPosition this
  | ClearWatch => clearWatch this
  end.

(** A sequence of calls; an exception ends it. *)
Fixpoint calls (cs : list Call) (this : State) : Completion State :=
  match cs with
  | [] => Normal this
  | c :: cs' => this' <- call c this ;; calls cs' this'
  end.

End LocationCalls.

(* ===================================================================== *)
(** * js/controllers/MapController.js: the user's location *)
(* ===================================================================== *)

Module MapControllerLocation.

Import DOM.

Section WithNotificationService.

(** The notification service the controller is constructed with: any
    object with a [show(message, type)] method, or [null]. *)
Variable Notifier : Type.
Variable show : jsstring -> jsstring -> Z -> Notifier -> Notifier.

(** The fields of the controller that the location code uses, and what it
    changes on the map: the user markers added to it (told apart by their
    position in [layers]) and the view. *)
Record State := {
  userMarker : option nat;
  layers : list (number * number);
  view : (number * number) * Z;
  locateButton : option (list jsstring);   (* the class list of the control *)
  lastErrorTime : Z;
  notificationService : option Notifier;
  locationService : LocationService.State
}.

Definition set_button (f : list jsstring -> list jsstring) (this : State)
  : State := {|
  userMarker := userMarker this;
  layers := layers this;
  view := view this;
  locateButton := option_map f (locateButton this);
  lastErrorTime := lastErrorTime this;
  notificationService := notificationService this;
  locationService := locationService this
|}.

(** [this.notificationService?.show(message, 'error')] *)
Definition notify (message : jsstring) (now : Z) (this : State) : State := {|
  userMarker := userMarker this;
  layers := layers this;
  view := view this;
  locateButton := locateButton this;
  lastErrorTime := lastErrorTime this;
  notificationService :=
    option_map (show message (js "error") now) (notificationService this);
  locationService := locationService this
|}.

Fixpoint set_nth {A : Type} (k : nat) (x : A) (l : list A) : list A :=
  match l, k with
  | [], _ => []
  | _ :: l', O => x :: l'
  | y :: l', S n => y :: set_nth n x l'
  end.

Definition _updateUserMarker (lat lng : number) (this : State) : State :=
  match userMarker this with
  | Some m =>
      {| userMarker := userMarker this;
         layers := set_nth m (lat, lng) (layers this);
         view := view this;
         locateButton := locateButton this;
         lastErrorTime := lastErrorTime this;
         notificationService := notificationService this;
         locationService := locationService this |}
  | None =>
      {| userMarker := Some (List.length (layers this));
         layers := layers this ++ [(lat, lng)];
         view := view this;
         locateButton := locateButton this;
         lastErrorTime := lastErrorTime this;
         notificationService := notificationService this;
         locationService := locationService this |}
  end.

Definition setView (center : number * number) (zoom : Z) (this : State)
  : State := {|
  userMarker := userMarker this;
  layers := layers this;
  view := (center, zoom);
  locateButton := locateButton this;
  lastErrorTime := lastErrorTime this;
  notificationService := notificationService this;
  locationService := locationService this
|}.

Definition _handleLocationSuccess (position : LocationService.Position)
  (this : State) : State :=
  let this := set_button (classList_remove (js "loading")) this in
  let latitude := LocationService.latitude position in
  let longitude := LocationService.longitude position in
  let this := _updateUserMarker latitude longitude this in
  setView (latitude, longitude) 15 this.

(** [_handleLocationError(error, isManualRequest)], with [now] the value of
    [Date.now()] during the call. *)
Definition _handleLocationError (error : LocationService.ErrorValue)
  (isManualRequest : bool) (now : Z) (this : State) : State :=
  let this := set_button (classList_remove (js "loading")) this in
  if LocationService.message_is error (js "GEOLOCATION_NOT_SUPPORTED")
  then notify MESSAGES.LOCATION_NOT_SUPPORTED now this
  else
    (* Throttle error messages *)
    if (now - lastErrorTime this <? 5000)%Z then this
    else
      let this := {| userMarker := userMarker this;
                     layers := layers this;
                     view := view this;
                     locateButton := locateButton this;
                     lastErrorTime := now;
                     notificationService := notificationService this;
                     locationService := locationService this |} in
      notify (LocationService.getErrorMessage error) now this.

(** [locateUser(isManualRequest)] up to its [await]. *)
Definition locateUser_begin (this : State) : State :=
  set_button (classList_add (js "loading")) this.

(** [locateUser(isManualRequest)] from its [await] on: [browser] is the
    browser's answer to [getCurrentPosition], [now] the time. *)
Definition locateUser_resume (isManualRequest : bool)
  (browser : LocationService.Outcome) (now : Z) (this : State) : State :=
  match LocationService.getCurrentPosition (locationService this) browser with
  | LocationService.Resolved position =>
      let this := _handleLocationSuccess position this in
      match LocationService.watchPosition (locationService this) with
      | Normal service =>
          {| userMarker := userMarker this;
             layers := layers this;
             view := view this;
             locateButton := locateButton this;
             lastErrorTime := lastErrorTime this;
             notificationService := notificationService this;
             locationService := service |}
      | Throw e =>
          _handleLocationError (LocationService.Exception e)
            isManualRequest now this
      end
  | LocationService.Rejected error =>
      _handleLocationError error isManualRequest now this
  end.

(** The [onclick] handler of the locate control, up to the [await]. *)
Definition onclick (this : State) : option State :=
  match locateButton this with
  | Some classes =>
      if classList_contains (js "loading") classes then None
      else Some (locateUser_begin this)
  | None => Some (locateUser_begin this)
  end.

(** What happens to the controller, as far as location goes. *)
Inductive Event :=
| Begin                        (* [locateUser()] is called *)
| Click                        (* the locate control is clicked *)
| Resume (isManualRequest : bool) (browser : LocationService.Outcome)
    (now : Z)                  (* a [locateUser] call goes on after [await] *)
| WatchFix (position : LocationService.Position)  (* the watch reports *)
| WatchError.                  (* the watch fails: [console.warn] only *)

Definition step (this : State) (e : Event) : State :=
  match e with
  | Begin => locateUser_begin this
  | Click =>
      match onclick this with
      | Some this' => this'
      | None => this
      end
  | Resume isManualRequest browser now =>
      locateUser_resume isManualRequest browser now this
  | WatchFix position =>
      _updateUserMarker (LocationService.latitude position)
        (LocationService.longitude position) this
  | WatchError => this
  end.

Definition run (events : list Event) (this : State) : State :=
  fold_left step events this.

Definition DEFAULT_CENTER : number * number :=
  (number_of_decimal false 250320 (-4), number_of_decimal false 1215143 (-4)).
Definition DEFAULT_ZOOM : Z := 13.

(** The controller after [init()]: the map shows the default view, the
    locate control is on it, and there is no marker of the user yet. *)
Definition initialized (notificationService : option Notifier)
  (geolocation : option LocationService.Geolocation) : State := {|
  userMarker := None;
  layers := [];
  view := (DEFAULT_CENTER, DEFAULT_ZOOM);
  locateButton :=
    Some [js "leaflet-control-locate"; js "leaflet-bar";
          js "leaflet-control"];
  lastErrorTime := 0;
  notificationService := notificationService;
  locationService := LocationService.constructor geolocation
|}.

End WithNotificationService.

Arguments userMarker {Notifier}.
Arguments layers {Notifier}.
Arguments view {Notifier}.
Arguments locateButton {Notifier}.
Arguments lastErrorTime {Notifier}.
Arguments notificationService {Notifier}.
Arguments locationService {Notifier}.
Arguments _updateUserMarker {Notifier}.
Arguments _handleLocationSuccess {Notifier}.
Arguments _handleLocationError {Notifier}.
Arguments locateUser_begin {Notifier}.
Arguments locateUser_resume {Notifier}.
Arguments onclick {Notifier}.
Arguments step {Notifier}.
Arguments run {Notifier}.
Arguments initialized {Notifier}.

End MapControllerLocation.

(* ===================================================================== *)
(** * js/controllers/MapController.js: the rest of the rendering *)
(* ===================================================================== *)

Module MapControllerRender.

Import Worker UIHelpers MapController.

(** [updateLastUpdatedTime(date)] on the text of the element, [None] when
    the page has no such element. *)
Definition updateLastUpdatedTime (date : JValue) (el : option jsstring)
  : Completion (option jsstring) :=
  match el with
  | Some _ =>
      if ToBoolean date then
        s <- ToString date ;;
        Normal (Some (js "資料最後更新時間: " ++ s))
      else Normal el
  | None => Normal el
  end.

End MapControllerRender.

(* ===================================================================== *)
(** * js/controllers/LoadingController.js *)
(* ===================================================================== *)

Module LoadingController.

Import DOM.

Definition LOADING_HIDDEN : jsstring := js "hidden".

(** [this.element]: the class list of the overlay, [None] when the page has
    no such element. *)
Definition State : Type := option (list jsstring).

Definition show (this : State) : State :=
  option_map (classList_remove LOADING_HIDDEN) this.

Definition hide (this : State) : State :=
  option_map (classList_add LOADING_HIDDEN) this.

End LoadingController.

(* ===================================================================== *)
(** * worker/store.worker.js: the message handler *)
(* ===================================================================== *)

Module WorkerMessages.

Import Worker.

(** [e.data] of a message to the worker.  [config] is [None] when the
    member is missing or falsy. *)
Record Request := {
  type : JValue;
  config : option Config
}.

Definition configuration_missing : JsError :=
  Error (js "Configuration missing in worker").

(** [self.onmessage]: the message posted back, if any.  [fetched] is what
    [fetch] and [response.json()] yield if they are called. *)
Definition onmessage (data : Request) (fetched : FetchOutcome)
  : option Message :=
  match type data with
  | JStr t =>
      if str_eqb t (js "FETCH_STORES") then
        match config data with
        | None => Some (ERROR configuration_missing)
        | Some config => Some (fetchAndProcessStores config fetched)
        end
      else None
  | _ => None
  end.

End WorkerMessages.

(* ===================================================================== *)
(** * js/services/StoreService.js *)
(* ===================================================================== *)

Module StoreService.

Import Worker.

(** What a rejected promise carries: [new Error(message)] with the message
    the worker sent, or the event of [worker.onerror]. *)
Inductive Reason :=
| ErrorWith (error : JsError)
| ErrorEvent.

(** How the promise is settled. *)
Inductive Outcome :=
| Fulfilled (payload : Payload)
| Rejected (reason : Reason).

Record Fetch := {
  promise : option Outcome;   (* [None] while pending *)
  terminated : bool           (* [worker.terminate()] was called *)
}.

(** [resolve] and [reject] settle a pending promise and do nothing to a
    settled one. *)
Definition settle (o : Outcome) (f : Fetch) : Fetch := {|
  promise := match promise f with None => Some o | settled => settled end;
  terminated := terminated f
|}.

Definition terminate (f : Fetch) : Fetch := {|
  promise := promise f;
  terminated := true
|}.

(** [worker.onmessage] *)
Definition onmessage (data : Message) (f : Fetch) : Fetch :=
  match data with
  | SUCCESS payload => terminate (settle (Fulfilled payload) f)
  | ERROR error => terminate (settle (Rejected (ErrorWith error)) f)
  end.

(** [worker.onerror] *)
Definition onerror (f : Fetch) : Fetch :=
  terminate (settle (Rejected ErrorEvent) f).

(** The message [fetchStores] posts to the worker. *)
Definition request : WorkerMessages.Request := {|
  WorkerMessages.type := JStr (js "FETCH_STORES");
  WorkerMessages.config := Some workerConfig
|}.

(** What the worker has done with the request so far: it failed to
    start, or it has not answered (its script is still loading, or its
    [fetch] or the reading of the response has not settled, and nothing
    makes them settle), or it has run its message handler to the end, with
    [fetched] what the network gave. *)
Inductive WorkerRun :=
| LoadFailed
| Silent
| Runs (fetched : FetchOutcome).

(** [fetchStores()], and what the worker has made of its promise. *)
Definition fetchStores (w : WorkerRun) : Fetch :=
  let f := {| promise := None; terminated := false |} in
  match w with
  | LoadFailed => onerror f
  | Silent => f
  | Runs fetched =>
      match WorkerMessages.onmessage request fetched with
      | Some data => onmessage data f
      | None => f
      end
  end.

End StoreService.

(* ===================================================================== *)
(** * js/main.js *)
(* ===================================================================== *)

Module App.

Import Worker MapController MapControllerRender.

Record State := {
  loadingController : LoadingController.State;
  notificationService : NotificationService.State;
  mapController : MapController.State;
  last_updated : option jsstring     (* the text of the timestamp element *)
}.

Definition OFFLINE_MESSAGE : jsstring := js "目前處於離線模式，無法更新資料".

(** [init()] up to its [await], the location request and the listeners
    apart. *)
Definition init_begin (this : State) : State := {|
  loadingController := LoadingController.show (loadingController this);
  notificationService := notificationService this;
  mapController := MapController.init (mapController this);
  last_updated := last_updated this
|}.

(** What the [catch] block receives: the reason of the rejected promise, or
    an exception of the [try] block. *)
Inductive Caught :=
| RejectedWith (reason : StoreService.Reason)
| Thrown (e : JsError).

(** The [try] block after the [await]: what it leaves, and what it throws
    if it does.  [addLayers] is what the cluster group does with the
    markers. *)
Definition init_try (addLayers : list Marker -> AddLayers)
  (settled : StoreService.Outcome) (this : State) : State * option Caught :=
  match settled with
  | StoreService.Fulfilled payload =>
      let (map, rendered) :=
        renderMarkers addLayers (mapController this) (stores payload) in
      let this := {| loadingController := loadingController this;
                     notificationService := notificationService this;
                     mapController := map;
                     last_updated := last_updated this |} in
      match rendered with
      | Throw e => (this, Some (Thrown e))
      | Normal _ =>
          match updateLastUpdatedTime (lastUpdated payload)
                  (last_updated this) with
          | Throw e => (this, Some (Thrown e))
          | Normal el =>
              ({| loadingController := loadingController this;
                  notificationService := notificationService this;
                  mapController := mapController this;
                  last_updated := el |}, None)
          end
      end
  | StoreService.Rejected reason => (this, Some (RejectedWith reason))
  end.

(** [init()] from the [await] on, once the promise of [fetchStores] is
    settled (while it is pending, [init] stays at the [await] and the
    loading overlay stays): [onLine] is [navigator.onLine] and [now] the
    time when the [catch] block runs. *)
Definition init_resume (addLayers : list Marker -> AddLayers)
  (settled : StoreService.Outcome) (onLine : bool) (now : Z) (this : State)
  : State :=
  let (this, caught) := init_try addLayers settled this in
  let this :=
    match caught with
    | None => this
    | Some error =>
        let message :=
          if negb onLine then OFFLINE_MESSAGE else MESSAGES.FETCH_ERROR in
        {| loadingController := loadingController this;
           notificationService :=
             NotificationService.show message (js "error") now
               (notificationService this);
           mapController := mapController this;
           last_updated := last_updated this |}
    end in
  {| loadingController := LoadingController.hide (loadingController this);
     notificationService := notificationService this;
     mapController := mapController this;
     last_updated := last_updated this |}.

End App.

(* ===================================================================== *)
(** * service-worker.js *)
(* ===================================================================== *)

Module ServiceWorker.

Definition CACHE_NAME : jsstring := js "family-icecream-map-v5".

(** A response, as far as the worker looks at it. *)
Record Response := {
  ok : bool;
  body : jsstring
}.

(** [event.request], a GET request: its URL, and the path of that URL. *)
Record Request := {
  url : jsstring;
  pathname : jsstring
}.

(** What [fetch(event.request)] does: it resolves or rejects. *)
Inductive Network :=
| Answered (response : Response)
| Failed.

(** A cache maps request URLs to responses; the cache storage holds the
    named caches in the order in which they were created. *)
Definition Cache : Type := list (jsstring * Response).
Definition CacheStorage : Type := list (jsstring * Cache).

Fixpoint cache_match (u : jsstring) (cache : Cache) : option Response :=
  match cache with
  | [] => None
  | (k, r) :: rest => if str_eqb k u then Some r else cache_match u rest
  end.

(** [cache.put(request, response)]: the entry of the URL is replaced. *)
Definition cache_put (u : jsstring) (r : Response) (cache : Cache) : Cache :=
  filter (fun e => negb (str_eqb (fst e) u)) cache ++ [(u, r)].

(** [caches.match(request)]: the first cache, in creation order, that has
    an entry. *)
Fixpoint caches_match (u : jsstring) (storage : CacheStorage)
  : option Response :=
  match storage with
  | [] => None
  | (_, cache) :: rest =>
      match cache_match u cache with
      | Some r => Some r
      | None => caches_match u rest
      end
  end.

(** [caches.open(name).then(cache => cache.put(request, response))]: the
    cache is created when there is none of that name. *)
Fixpoint caches_put (name u : jsstring) (r : Response)
  (storage : CacheStorage) : CacheStorage :=
  match storage with
  | [] => [(name, [(u, r)])]
  | (n, cache) :: rest =>
      if str_eqb n name then (n, cache_put u r cache) :: rest
      else (n, cache) :: caches_put name u r rest
  end.

(** The [activate] handler: every cache of another name is deleted. *)
Definition onactivate (storage : CacheStorage) : CacheStorage :=
  filter (fun c => str_eqb (fst c) CACHE_NAME) storage.

(** [s.endsWith(suffix)] *)
Definition ends_with (s suffix : jsstring) : bool :=
  starts_with (rev suffix) (rev s).

(** The worker's view of the world between two events: the cache storage,
    and the writes that a [fetch] handler has started and that have not
    ended yet.  The handler starts a write with
    [caches.open(CACHE_NAME).then(cache => { cache.put(request, clone) })]
    and neither returns that promise to [respondWith] nor passes it to
    [waitUntil]: the page has its answer before the entry is stored, and
    nothing keeps the worker alive until it is. *)
Record State := {
  storage : CacheStorage;
  pending : list (jsstring * Response)
}.

(** The [fetch] handler: what the page gets ([None] when the promise given
    to [respondWith] rejects or yields [undefined]) and the state the
    handler leaves.  [network] is what [fetch] does if it is called.  The
    handler reads the cache storage and never writes it; for the store
    data it starts a write when the network answers with an [ok]
    response. *)
Definition onfetch (request : Request) (network : Network) (s : State)
  : option Response * State :=
  if ends_with (pathname request) (js "stores.json") then
    (* Network First, fallback to Cache *)
    match network with
    | Answered response =>
        (Some response,
         if ok response
         then {| storage := storage s;
                 pending := pending s ++ [(url request, response)] |}
         else s)
    | Failed => (caches_match (url request) (storage s), s)
    end
  else
    (* Cache First, falling back to Network *)
    match caches_match (url request) (storage s) with
    | Some response => (Some response, s)
    | None =>
        (match network with
         | Answered response => Some response
         | Failed => None
         end, s)
    end.

(** The pending writes without the [k]-th. *)
Fixpoint remove_write (k : nat) (writes : list (jsstring * Response))
  : list (jsstring * Response) :=
  match k, writes with
  | _, [] => []
  | O, _ :: rest => rest
  | S k', w :: rest => w :: remove_write k' rest
  end.

(** What happens to the worker: a [fetch] event, or the end of one of the
    pending writes, the [k]-th, in whatever order the browser ends them.
    The entry is stored, or it is not: [cache.put] rejects some responses
    (a partial one, one that varies on everything), the quota may be
    exceeded, and the worker may be stopped before the write is done. *)
Inductive Event :=
| FetchEvent (request : Request) (network : Network)
| WriteEnds (k : nat) (stored : bool).

Definition step (e : Event) (s : State) : State :=
  match e with
  | FetchEvent request network => snd (onfetch request network s)
  | WriteEnds k stored =>
      match nth_error (pending s) k with
      | Some (u, r) =>
          {| storage := if stored
                        then caches_put CACHE_NAME u r (storage s)
                        else storage s;
             pending := remove_write k (pending s) |}
      | None => s
      end
  end.

Definition run (events : list Event) (s : State) : State :=
  fold_left (fun s e => step e s) events s.

(** The worker right after its [activate] handler is done: fetch events
    wait until then. *)
Definition activated (storage : CacheStorage) : State := {|
  storage := onactivate storage;
  pending := []
|}.

End ServiceWorker.

(* ===================================================================== *)
(** * Vocabulary of the statements *)
(* ===================================================================== *)

Module Props.

Import Worker UIHelpers MapController.

(** A value with an [includes] method: a string or an array. *)
Definition searchable (v : JValue) : bool :=
  match v with JStr _ | JArr _ => true | _ => false end.

(** The raw record [{ k1: v1, ... }] as [JSON.parse] delivers it. *)
Definition record (members : list (jsstring * JValue)) : Value :=
  Data (JObj members).

Definition text (s : string) : JValue := JStr (js s).

(** A string, number, boolean, [null] or [undefined]. *)
Definition primitive (v : JValue) : bool :=
  match v with JArr _ | JObj _ => false | _ => true end.

(** A value that [String] can convert: anything but an object with a
    member named [toString], or an array that holds one. *)
Fixpoint convertible (v : JValue) : bool :=
  match v with
  | JArr elems => forallb convertible elems
  | JObj members => negb (has_own (js "toString") members)
  | _ => true
  end.

(** Absent or falsy (so that the default takes its place), or a string or
    an array. *)
Definition text_or_falsy (v : JValue) : bool :=
  negb (ToBoolean v) || searchable v.

(** A member of a cluster counts as dual when its marker colour contains
    [red]. *)
Definition is_dual (m : Marker) : bool :=
  ToBoolean (options_markerColor m) &&
  match includes (options_markerColor m) (js "red") with
  | Normal b => b
  | Throw _ => false
  end.

Definition dual_count (cluster : list Marker) : nat :=
  List.length (filter is_dual cluster).

Definition cluster_class (cls : jsstring) : jsstring :=
  js "marker-cluster " ++ cls.

Definition configured_keys : list jsstring :=
  [CONFIG.MARKERS.BLUE; CONFIG.MARKERS.RED;
   CONFIG.MARKERS.BLUE_STRIPED; CONFIG.MARKERS.RED_STRIPED].

Definition default_pin : IconSlot :=
  OwnIcon (createPinIcon (js "marker-blue")).

(** The two payload shapes as the spec words them: an object with a [keys]
    sequence and a [data] sequence, or a bare array. *)
Definition accepted_shape (rawData : JValue) : bool :=
  match rawData with
  | JArr _ => true
  | JObj members =>
      isArray (own_or_undefined (js "keys") members) &&
      isArray (own_or_undefined (js "data") members)
  | _ => false
  end.

(** The test the worker applies: [keys] need only be truthy. *)
Definition passes_shape_test (rawData : JValue) : bool :=
  match rawData with
  | JArr _ => true
  | JObj members =>
      ToBoolean (own_or_undefined (js "keys") members) &&
      isArray (own_or_undefined (js "data") members)
  | _ => false
  end.

(** The sequence of records a payload carries: the rows of a columnar
    payload, the elements of a legacy one. *)
Definition source_records (rawData : JValue) : option (list JValue) :=
  match rawData with
  | JArr elems => Some elems
  | JObj members =>
      match own_or_undefined (js "data") members with
      | JArr rows =>
          if ToBoolean (own_or_undefined (js "keys") members)
          then Some rows else None
      | _ => None
      end
  | _ => None
  end.

(** What the worker does with one record of the payload. *)
Definition normalize_record (rawData : JValue) (config : Config)
  (rec : JValue) : Completion Normalized :=
  match rawData with
  | JObj members =>
      storeObj <- forEach_key
                    (KeysValue (own_or_undefined (js "keys") members)) rec ;;
      normalizeStoreData (Obj storeObj) config
  | _ => normalizeStoreData (Data rec) config
  end.

Definition rejected_count (results : list Normalized) : nat :=
  List.length (filter (fun r => negb (isValid r)) results).

(** A columnar payload, and the flat array of objects that zips its keys
    with each of its rows. *)
Definition columnar_payload (keys : list jsstring) (rows : list (list JValue))
  : JValue :=
  JObj [(js "keys", JArr (map JStr keys));
        (js "data", JArr (map JArr rows))].

Definition zip_object (keys : list jsstring) (row : list JValue) : JValue :=
  JObj (combine keys row).

Definition legacy_payload (keys : list jsstring) (rows : list (list JValue))
  : JValue :=
  JArr (map (zip_object keys) rows).

Definition stores_of (c : Completion Payload) : Completion (list StoreRecord) :=
  p <- c ;; Normal (stores p).

(** What [escapeHtml] is meant to do to one character: one of the five
    becomes its entity, any other stays. *)
Definition escape_char (c : N) : jsstring :=
  if N.eqb c 38 then js "&amp;"
  else if N.eqb c 60 then js "&lt;"
  else if N.eqb c 62 then js "&gt;"
  else if N.eqb c 34 then js "&quot;"
  else if N.eqb c 39 then js "&#039;"
  else [c].

(** The number of occurrences of the character [c] in [s]. *)
Definition count (c : N) (s : jsstring) : nat := count_occ N.eq_dec s c.

Definition lt_sign : N := 60.
Definition gt_sign : N := 62.

Definition with_name (nm : JValue) (s : StoreRecord) : StoreRecord := {|
  name := nm;
  latitude := latitude s;
  longitude := longitude s;
  address := address s;
  phone := phone s;
  flavorType := flavorType s;
  markerColor := markerColor s;
  isSpecialShape := isSpecialShape s;
  displayColor := displayColor s
|}.

(** A record whose text fields are strings. *)
Definition text_store (nm ad ph fl mc : jsstring) (lat lng : number)
  (special : bool) (color : jsstring) : StoreRecord := {|
  name := JStr nm;
  latitude := lat;
  longitude := lng;
  address := JStr ad;
  phone := JStr ph;
  flavorType := JStr fl;
  markerColor := JStr mc;
  isSpecialShape := special;
  displayColor := color
|}.

(** A string with no surrogate code unit: text of the Basic Multilingual
    Plane. *)
Definition no_surrogate (s : jsstring) : bool :=
  forallb (fun c => negb (is_high_surrogate c || is_low_surrogate c)) s.

(** [String] of an element inside [Array.prototype.join]. *)
Definition element_string (e : JValue) : Completion jsstring :=
  match e with
  | JUndefined | JNull => Normal []
  | _ => ToString e
  end.

(** The two striped pins. *)
Definition striped_icons : list IconSlot :=
  [OwnIcon (createPinIcon (js "marker-blue-striped"));
   OwnIcon (createPinIcon (js "marker-red-striped"))].

(** A marker that carries the given colour token. *)
Definition marker_of_color (color : string) : Marker := {|
  latlng := (S754_zero false, S754_zero false);
  icon := default_pin;
  options_markerColor := text color;
  popup := []
|}.

(** The accepted record of
    [{ "py": "25.03", "px": "121.5", "markerColor": "constructor" }]. *)
Definition constructor_store : StoreRecord := {|
  name := text "Unknown Store";
  latitude := number_of_decimal false 2503 (-2);
  longitude := number_of_decimal false 1215 (-1);
  address := JStr [];
  phone := JStr [];
  flavorType := JStr [];
  markerColor := text "constructor";
  isSpecialShape := false;
  displayColor := CONFIG.COLORS.BLUE
|}.

(** The spec's columnar scenario: two rows, the second with a latitude that
    does not parse. *)
Definition scenario_columnar : JValue :=
  JObj [(js "keys", JArr [text "NAME"; text "py"; text "px";
                          text "flavorType"; text "markerColor"]);
        (js "data",
         JArr [JArr [text "A"; text "25.03"; text "121.5";
                     text "單口味"; text "blue"];
               JArr [text "B"; text "bad"; text "121.5";
                     text "雙口味"; text "red"]]);
        (js "last_updated", text "2024-01-01")].

(** The spec's legacy scenario. *)
Definition scenario_legacy_first : JValue :=
  JObj [(js "last_updated", text "2024-02-02"); (js "NAME", text "C");
        (js "py", text "25.0"); (js "px", text "121.0");
        (js "flavorType", text "雙口味 特殊造型 (圓)");
        (js "markerColor", text "red")].

End Props.

(* ===================================================================== *)
(** * Vocabulary of the further properties *)
(* ===================================================================== *)

Module Behaviour.

Import Worker UIHelpers MapController Props.

Module NS := NotificationService.
Module LS := LocationService.
Module MCL := MapControllerLocation.

(** What every record of a [SUCCESS] message satisfies. *)
Definition store_invariant (config : Config) (s : StoreRecord) : Prop :=
  ToBoolean (name s) = true /\
  isNaN (latitude s) = false /\ isNaN (longitude s) = false /\
  (address s = JStr [] \/ ToBoolean (address s) = true) /\
  (phone s = JStr [] \/ ToBoolean (phone s) = true) /\
  searchable (flavorType s) = true /\
  searchable (markerColor s) = true /\
  includes (flavorType s) specialShapeMarker = Normal (isSpecialShape s) /\
  (includes (markerColor s) (js "red") = Normal true /\
     displayColor s = COLORS_RED config
   \/ includes (markerColor s) (js "red") = Normal false /\
     displayColor s = COLORS_BLUE config).

Definition bad_flavor_record : JValue :=
  JObj [(js "py", text "25.03"); (js "px", text "121.5");
        (js "flavorType", JNum (number_of_decimal false 5 0))].

Definition good_record : JValue :=
  JObj [(js "NAME", text "A"); (js "py", text "25.03");
        (js "px", text "121.5")].

Definition string_or_absent (v : JValue) : bool :=
  match v with JStr _ | JUndefined => true | _ => false end.

Definition string_record (rec : JValue) : bool :=
  match rec with
  | JObj members => forallb (fun kv => string_or_absent (snd kv)) members
  | _ => false
  end.

Definition string_rows (rows : list (list jsstring)) : JValue :=
  JArr (map (fun row => JArr (map JStr row)) rows).

(** The object a row of strings is zipped into holds strings (or nothing,
    where the row is short) and keeps [Object.prototype]. *)
Definition string_object (o : Object) : Prop :=
  proto o = ObjectPrototype /\
  forallb (fun kv => string_or_absent (snd kv)) (own o) = true.

(** The characters that open or close a tag or end a quoted attribute. *)
Definition markup_characters : list N := [lt_sign; gt_sign; 34%N].

(** The popup of a store with every field left empty: the markup the
    template itself contributes, with the line break of a special-shape
    flavour when [line_break] is set. *)
Definition popup_frame (store : StoreRecord) (line_break : bool) : jsstring :=
  popup_template
    (js "https://www.google.com/maps/search/") []
    (if isSpecialShape store
     then CONFIG.CSS_CLASSES.POPUP_FLAVOR ++ js " "
          ++ CONFIG.CSS_CLASSES.POPUP_FLAVOR_MULTILINE
     else CONFIG.CSS_CLASSES.POPUP_FLAVOR)
    (js "color: " ++ displayColor store ++ js ";")
    (if line_break then js "<br>" else [])
    [] [].

Definition special_store : StoreRecord :=
  text_store (js "<b>A&B</b>") (js "Taipei") (js "02-1234")
    (js "雙口味 特殊造型 (圓)") (js "red") (S754_zero false) (S754_zero false)
    true CONFIG.COLORS.RED.

Definition countable (m : Marker) : bool :=
  text_or_falsy (options_markerColor m).

Definition marker_at (lat : number) (color : JValue) : Marker := {|
  latlng := (lat, lat);
  icon := Undefined;
  options_markerColor := color;
  popup := []
|}.

(** What holds of the service between any two events. *)
Record toast_invariant (found : bool) (s : NS.State) : Prop := {
  inv_container :
    NS.container s = if found then Some (NS.shown s) else None;
  inv_found :
    found = false ->
    NS.currentToast s = None /\ NS.timers s = [] /\ NS.elements s = [];
  inv_current :
    forall t, NS.currentToast s = Some t ->
      exists el, nth_error (NS.elements s) t = Some el /\
                 NS.textContent el = NS.lastMessageText s /\
                 In NS.TOAST (NS.classList el)
}.

Definition two_toasts : list NS.Event :=
  [NS.Show (js "網路已斷線") (js "error") 1000;
   NS.Show (js "網路已連線") (js "info") 1500].

(** A notification service that only records the calls of [show]. *)
Definition CallLog : Type := list (jsstring * jsstring * Z).

Definition record_call (message type : jsstring) (now : Z) (log : CallLog)
  : CallLog :=
  log ++ [(message, type, now)].

Definition call_message (c : jsstring * jsstring * Z) : jsstring :=
  fst (fst c).

Definition call_time (c : jsstring * jsstring * Z) : Z := snd c.

(** The browser with geolocation (and no watch yet), or without. *)
Definition browser_geolocation (supported : bool) (next : nat)
  : option LS.Geolocation :=
  if supported then Some {| LS.watches := []; LS.next_watch := next |}
  else None.

(** The position the events report last: a fix of the watch, or the answer
    to a [locateUser] call where geolocation is supported. *)
Definition fix_of (supported : bool) (e : MCL.Event)
  : option (number * number) :=
  match e with
  | MCL.WatchFix p => Some (LS.latitude p, LS.longitude p)
  | MCL.Resume _ (LS.Resolved p) _ =>
      if supported then Some (LS.latitude p, LS.longitude p) else None
  | _ => None
  end.

Fixpoint last_fix (supported : bool) (events : list MCL.Event)
  (before : option (number * number)) : option (number * number) :=
  match events with
  | [] => before
  | e :: rest =>
      last_fix supported rest
        (match fix_of supported e with
         | Some p => Some p
         | None => before
         end)
  end.

Definition option_list {A : Type} (o : option A) : list A :=
  match o with Some x => [x] | None => [] end.

Definition spaced (log : CallLog) : Prop :=
  forall i j a b,
    i < j -> nth_error log i = Some a -> nth_error log j = Some b ->
    call_message a <> MESSAGES.LOCATION_NOT_SUPPORTED ->
    call_message b <> MESSAGES.LOCATION_NOT_SUPPORTED ->
    (call_time a + 5000 <= call_time b)%Z.

Definition throttle_invariant (s : MCL.State CallLog) : Prop :=
  exists log,
    MCL.notificationService s = Some log /\
    (forall c, In c log ->
       call_message c <> MESSAGES.LOCATION_NOT_SUPPORTED ->
       (call_time c <= MCL.lastErrorTime s)%Z) /\
    spaced log.

Definition denied_then_timeouts : list MCL.Event :=
  [MCL.Resume false
     (LS.Rejected (LS.GeolocationPositionError 1 (js "User denied"))) 10000;
   MCL.Resume true
     (LS.Rejected (LS.GeolocationPositionError 3 (js "Timeout expired"))) 12000;
   MCL.Resume true
     (LS.Rejected (LS.GeolocationPositionError 3 (js "Timeout expired"))) 16000].

Definition service_invariant (ls : LS.State) : Prop :=
  match LS.geolocation ls with
  | Some g => LS.watches g = option_list (LS.watchId ls)
  | None => LS.watchId ls = None
  end.

(** The message the data path shows when it fails. *)
Definition failure_message (onLine : bool) : jsstring :=
  if onLine then MESSAGES.FETCH_ERROR else App.OFFLINE_MESSAGE.

Definition lone_surrogate_record : JValue :=
  JObj [(js "NAME", JStr [55357%N]); (js "py", text "25.03");
        (js "px", text "121.5")].

Definition empty_page : App.State := {|
  App.loadingController := Some [];
  App.notificationService := NS.constructor true;
  App.mapController := constructed;
  App.last_updated := Some []
|}.

(** Well-formed UTF-16: every high surrogate is followed by a low one, and
    no low surrogate stands alone. *)
Fixpoint well_formed (s : jsstring) : bool :=
  match s with
  | [] => true
  | c :: s' =>
      if is_high_surrogate c then
        match s' with
        | d :: s'' => is_low_surrogate d && well_formed s''
        | [] => false
        end
      else negb (is_low_surrogate c) && well_formed s'
  end.

Definition code_unit (c : N) : Prop := (c < 65536)%N.

(** What a URI component is made of. *)
Definition uri_character (c : N) : bool :=
  is_uri_unreserved c || N.eqb c 37.

(** A well-formed string, or nothing. *)
Definition clean_value (v : JValue) : bool :=
  match v with
  | JStr s => well_formed s
  | JUndefined => true
  | _ => false
  end.

Definition clean_record (rec : JValue) : bool :=
  match rec with
  | JObj members => forallb (fun kv => clean_value (snd kv)) members
  | _ => false
  end.

Definition clean_row (row : JValue) : bool :=
  match row with
  | JArr cells => forallb clean_value cells
  | _ => false
  end.

(** A raw record all of whose fields are clean. *)
Definition clean_source (rawStore : Value) : Prop :=
  forall f, exists v, Get rawStore f = Normal v /\ clean_value v = true.

(** A store record made of strings, with a well-formed name. *)
Definition renderable (s : StoreRecord) : Prop :=
  exists nm ad ph fl mc,
    s = text_store nm ad ph fl mc (latitude s) (longitude s)
          (isSpecialShape s) (displayColor s) /\
    well_formed nm = true.

Definition clean_object (o : Object) : Prop :=
  proto o = ObjectPrototype /\
  forallb (fun kv => clean_value (snd kv)) (own o) = true.

(** A payload of either shape whose values are well-formed strings. *)
Definition clean_payload (rawData : JValue) : Prop :=
  match rawData with
  | JArr elems => forallb clean_record elems = true
  | JObj members =>
      exists keys rows,
        own_or_undefined (js "keys") members = JArr (map JStr keys) /\
        own_or_undefined (js "data") members = JArr rows /\
        forallb clean_row rows = true /\
        clean_value (own_or_undefined (js "last_updated") members) = true
  | _ => False
  end.

Definition clean_scenario : JValue :=
  JObj [(js "keys", JArr [text "NAME"; text "py"; text "px";
                          text "flavorType"; text "markerColor"]);
        (js "data",
         JArr [JArr [text "全家 A 店"; text "25.03"; text "121.5";
                     text "單口味"; text "blue"];
               JArr [text "B"; text "bad"; text "121.5";
                     text "雙口味"; text "red"]]);
        (js "last_updated", text "2024-01-01")].

(** Two ways for [addLayers] to end: with every marker on the group, or
    with an exception after the first [n] of them. *)
Definition adds_all (markers : list Marker) : AddLayers := {|
  onLayer := markers;
  completion := Normal tt
|}.

Definition throws_after (n : nat) (markers : list Marker) : AddLayers := {|
  onLayer := firstn n markers;
  completion := Throw TypeError
|}.

(** What [renderMarkers] makes of a store: the icon chosen for it, its
    coordinates, its marker colour and its popup. *)
Definition marker_of (this : State) (s : StoreRecord) (m : Marker) : Prop :=
  icon_for this s = Normal (icon m) /\
  latlng m = (latitude s, longitude s) /\
  options_markerColor m = markerColor s /\
  createStorePopupContent s = Normal (popup m).

(** The last successful answer among [networks], if any. *)
Fixpoint last_ok (networks : list ServiceWorker.Network)
  (before : option ServiceWorker.Response) : option ServiceWorker.Response :=
  match networks with
  | [] => before
  | ServiceWorker.Answered r :: rest =>
      last_ok rest (if ServiceWorker.ok r then Some r else before)
  | ServiceWorker.Failed :: rest => last_ok rest before
  end.

Definition one_cache (storage : ServiceWorker.CacheStorage) : Prop :=
  Forall (fun c => fst c = ServiceWorker.CACHE_NAME) storage.

(** A run in which the page asks for [request] once per element of
    [networks], and every write the worker starts is stored before the next
    event. *)
Definition prompt_writes (request : ServiceWorker.Request)
  (networks : list ServiceWorker.Network) : list ServiceWorker.Event :=
  flat_map (fun n => [ServiceWorker.FetchEvent request n;
                      ServiceWorker.WriteEnds 0 true]) networks.

(** An [ok] answer the network gave, among [events], to a request for the
    store data under the URL [u]. *)
Definition answered_before (events : list ServiceWorker.Event)
  (u : jsstring) (r : ServiceWorker.Response) : Prop :=
  exists request,
    In (ServiceWorker.FetchEvent request (ServiceWorker.Answered r)) events /\
    ServiceWorker.url request = u /\
    ServiceWorker.ends_with (ServiceWorker.pathname request)
      (js "stores.json") = true /\
    ServiceWorker.ok r = true.

(** What holds of the worker after the events [seen]: the cache storage
    has the one cache, and whatever it or a pending write holds for a URL
    was there at activation or is an [ok] answer of the network to a
    request for the store data under that URL. *)
Definition provenance (storage0 : ServiceWorker.CacheStorage)
  (seen : list ServiceWorker.Event) (s : ServiceWorker.State) : Prop :=
  one_cache (ServiceWorker.storage s) /\
  (forall u r,
     ServiceWorker.caches_match u (ServiceWorker.storage s) = Some r ->
     ServiceWorker.caches_match u (ServiceWorker.onactivate storage0) = Some r
     \/ answered_before seen u r) /\
  (forall u r,
     In (u, r) (ServiceWorker.pending s) -> answered_before seen u r).

(** A decimal numeral without sign and exponent: digits, a point, digits. *)
Definition numeral (int frac : jsstring) : jsstring :=
  int ++ [46%N] ++ frac.

(** Text that cannot continue a numeral that has its point: it is empty, or
    starts with something that is neither a digit nor the letter of an
    exponent. *)
Definition stops_numeral (t : jsstring) : bool :=
  match t with
  | [] => true
  | c :: _ => negb (is_digit c) && negb (N.eqb c 101 || N.eqb c 69)
  end.

(** The raw record [members] with the field [f] set to [v]. *)
Definition with_field (members : list (jsstring * JValue)) (f : Raw.Field)
  (v : JValue) : Value :=
  record (members ++ [(Raw.name_of f, v)]).

Definition coordinate (f : Raw.Field) : bool :=
  match f with Raw.py | Raw.px => true | _ => false end.

(** The times at which the [locateUser] calls among [events] go on after
    their [await]. *)
Fixpoint resume_times (events : list MCL.Event) : list Z :=
  match events with
  | [] => []
  | MCL.Resume _ _ now :: rest => now :: resume_times rest
  | _ :: rest => resume_times rest
  end.

Definition not_supported_notice (now : Z) : jsstring * jsstring * Z :=
  (MESSAGES.LOCATION_NOT_SUPPORTED, js "error", now).

(** What a browser without geolocation keeps true of the controller: the
    notices are [log], the throttle has not started, and the location
    service is as constructed. *)
Definition unsupported (log : CallLog)
  (s : MCL.State CallLog) : Prop :=
  MCL.notificationService s = Some log /\
  MCL.lastErrorTime s = 0%Z /\
  MCL.locationService s = LS.constructor None.

(** What the location events keep true of the controller. *)
Definition marker_invariant {Notifier : Type} (supported : bool)
  (fix_ : option (number * number)) (s : MCL.State Notifier) : Prop :=
  MCL.layers s = option_list fix_ /\
  MCL.userMarker s = match fix_ with Some _ => Some 0 | None => None end /\
  LS.isSupported (MCL.locationService s) = supported /\
  service_invariant (MCL.locationService s).

End Behaviour.

(* ===================================================================== *)
(** * Properties *)
(* ===================================================================== *)

Import Worker UIHelpers MapController Props.

(** ** Basic facts about the fragment *)

(** The built-ins on sample arguments, as a JavaScript engine answers. *)

Example parseFloat_examples :
  map (fun s => parseFloat (text s))
    ["25.03"; "  12abc"; "abc"; ".5"; "-Infinity"; "1e999"; "-0"; "";
     "1e21"; "12.e2"]%string
  = map Normal
      [S754_finite false 7045318667067720 (-48);
       S754_finite false 6755399441055744 (-49);
       S754_nan;
       S754_finite false 4503599627370496 (-53);
       S754_infinity true;
       S754_infinity false;
       S754_zero true;
       S754_nan;
       S754_finite false 7629394531250000 17;
       S754_finite false 5277655813324800 (-42)].
Proof. vm_compute. reflexivity. Qed.

Example Number_toString_examples :
  map Number_toString
    [S754_finite false 7045318667067720 (-48);
     S754_finite false 7629394531250000 17;
     number_of_decimal false 1 (-7);
     number_of_decimal true 125 (-1);
     number_of_decimal false 123456789012345680000 0;
     number_of_decimal false 5 (-324);
     S754_nan; S754_infinity true; S754_zero true]
  = map js ["25.03"; "1e+21"; "1e-7"; "-12.5"; "123456789012345680000";
            "5e-324"; "NaN"; "-Infinity"; "0"]%string.
Proof. vm_compute. reflexivity. Qed.

Example ToString_examples :
  ToString (JArr [JNum (number_of_decimal false 15 (-1)); JNull;
                  JArr [text "a"; text "b"]; JObj []; JBool false])
    = Normal (js "1.5,,a,b,[object Object],false")
  /\ ToString (JObj [(js "toString", JNull)]) = Throw TypeError
  /\ parseFloat (JArr [JNum (number_of_decimal false 255 (-1)); text "x"])
       = Normal (number_of_decimal false 255 (-1)).
Proof. repeat split; vm_compute; reflexivity. Qed.

Example encodeURIComponent_examples :
  encodeURIComponent (text "a b/特") = Normal (js "a%20b%2F%E7%89%B9")
  /\ encodeURIComponent (JStr [55357%N]) = Throw URIError.
Proof. split; vm_compute; reflexivity. Qed.

Lemma Normal_inj {A : Type} (a b : A) : Normal a = Normal b -> a = b.
Proof. congruence. Qed.

Lemma str_eqb_neq (a b : jsstring) : a <> b -> str_eqb a b = false.
Proof. unfold str_eqb. destruct (jsstring_eq_dec a b); congruence. Qed.

Lemma str_eqb_refl (a : jsstring) : str_eqb a a = true.
Proof. unfold str_eqb. destruct (jsstring_eq_dec a a); congruence. Qed.

Lemma str_eqb_true (a b : jsstring) : str_eqb a b = true -> a = b.
Proof.
  unfold str_eqb. destruct (jsstring_eq_dec a b); [ auto | discriminate ].
Qed.

Lemma isNaN_true (n : number) : isNaN n = true <-> n = S754_nan.
Proof. destruct n; simpl; split; congruence. Qed.

Lemma includes_searchable (v : JValue) (p : jsstring) :
  searchable v = true -> exists b, includes v p = Normal b.
Proof. destruct v; simpl; try discriminate; eauto. Qed.

Lemma includes_throws (v : JValue) (p : jsstring) :
  searchable v = false -> includes v p = Throw TypeError.
Proof. destruct v; simpl; try discriminate; reflexivity. Qed.

(** A read that succeeds for one field succeeds for every field: only
    [null] and [undefined] refuse property access. *)
Lemma Get_total (rawStore : Value) (f g : Raw.Field) (v : JValue) :
  Get rawStore f = Normal v -> exists w, Get rawStore g = Normal w.
Proof.
  destruct rawStore as [d | o]; simpl.
  - destruct d; simpl; try discriminate; eauto.
  - intros _. destruct (lookup (Raw.name_of g) (own o)); eauto.
    destruct (proto o) as [ | | p]; eauto. destruct p; eauto.
Qed.

(** ** C1 *)

(** C1, where it fails: the string [Infinity] parses to a Number that is
    not [NaN], so the record is accepted with an infinite latitude. *)
Lemma C1_infinite_latitude_is_accepted :
  exists s,
    normalizeStoreData
      (record [(js "py", text "Infinity"); (js "px", text "121.5")])
      workerConfig = Normal (Valid s)
    /\ latitude s = S754_infinity false
    /\ is_finite (latitude s) = false.
Proof. eexists. split; [vm_compute; reflexivity | split; reflexivity]. Qed.

(** Unfolding [normalizeStoreData] once the two coordinate reads are known. *)
Ltac split_bind :=
  repeat match goal with
  | H : ?a = Normal _ |- context [bind ?a _] => rewrite H; cbn [bind]
  | H : ?a = Throw _ |- context [bind ?a _] => rewrite H; cbn [bind]
  | H : ?b = true |- context [if ?b then _ else _] => rewrite H
  | H : ?b = false |- context [if ?b then _ else _] => rewrite H
  | H : ?b = true |- context [negb ?b] => rewrite H; cbn [negb]
  | H : ?b = false |- context [negb ?b] => rewrite H; cbn [negb]
  end.

Lemma hasCoordinates_spec (rawStore : Value) (y x : JValue) :
  Get rawStore Raw.py = Normal y ->
  Get rawStore Raw.px = Normal x ->
  hasCoordinates rawStore =
    if negb (ToBoolean y) then Normal false else
    if negb (ToBoolean x) then Normal false else
    match parseFloat y with
    | Throw e => Throw e
    | Normal lat =>
        if isNaN lat then Normal false else
        match parseFloat x with
        | Throw e => Throw e
        | Normal lng => Normal (negb (isNaN lng))
        end
    end.
Proof.
  intros Hy Hx. unfold hasCoordinates. split_bind.
  destruct (ToBoolean y); cbn [negb]; [ | reflexivity ]. split_bind.
  destruct (ToBoolean x); cbn [negb]; [ | reflexivity ].
  destruct (parseFloat y) as [lat | e]; cbn [bind]; [ | reflexivity ].
  destruct (isNaN lat); [ reflexivity | ].
  destruct (parseFloat x); reflexivity.
Qed.

(** A record is accepted exactly when the coordinate test passes and both
    [includes] calls find a method to call. *)
Lemma normalize_accepts (rawStore : Value) (config : Config)
  (y x ft mc : JValue) (lat lng : number) :
  Get rawStore Raw.py = Normal y ->
  Get rawStore Raw.px = Normal x ->
  Get rawStore Raw.flavorType = Normal ft ->
  Get rawStore Raw.markerColor = Normal mc ->
  ToBoolean y = true -> ToBoolean x = true ->
  parseFloat y = Normal lat -> parseFloat x = Normal lng ->
  isNaN lat = false -> isNaN lng = false ->
  forall special red,
    includes (or_else ft (JStr [])) specialShapeMarker = Normal special ->
    includes (or_else mc (JStr (MARKERS_DEFAULT config))) (js "red")
      = Normal red ->
    exists nm ad tel,
      Get rawStore Raw.NAME = Normal nm /\
      Get rawStore Raw.addr = Normal ad /\
      Get rawStore Raw.TEL = Normal tel /\
      normalizeStoreData rawStore config = Normal (Valid {|
        name := or_else nm (JStr (js "Unknown Store"));
        latitude := lat;
        longitude := lng;
        address := or_else ad (JStr []);
        phone := or_else tel (JStr []);
        flavorType := or_else ft (JStr []);
        markerColor := or_else mc (JStr (MARKERS_DEFAULT config));
        isSpecialShape := special;
        displayColor := if red then COLORS_RED config else COLORS_BLUE config
      |}).
Proof.
  intros Hy Hx Hft Hmc Ty Tx Py Px Ny Nx special red Hs Hr.
  destruct (Get_total _ _ Raw.NAME _ Hy) as [nm Hnm].
  destruct (Get_total _ _ Raw.addr _ Hy) as [ad Had].
  destruct (Get_total _ _ Raw.TEL _ Hy) as [tel Htel].
  exists nm, ad, tel. repeat split; trivial.
  unfold normalizeStoreData.
  rewrite (hasCoordinates_spec _ _ _ Hy Hx), Ty, Tx, Py, Px, Ny, Nx.
  cbn [negb bind]. split_bind. reflexivity.
Qed.

(** What an outcome of [normalizeStoreData] says about the coordinates. *)
Lemma normalize_inversion (rawStore : Value) (config : Config) (y x : JValue) :
  Get rawStore Raw.py = Normal y ->
  Get rawStore Raw.px = Normal x ->
  match normalizeStoreData rawStore config with
  | Normal Invalid => hasCoordinates rawStore = Normal false
  | Normal (Valid s) =>
      hasCoordinates rawStore = Normal true /\
      parseFloat y = Normal (latitude s) /\
      parseFloat x = Normal (longitude s)
  | Throw e =>
      hasCoordinates rawStore = Throw e \/
      hasCoordinates rawStore = Normal true /\ e = TypeError
  end.
Proof.
  intros Hy Hx. unfold normalizeStoreData.
  destruct (hasCoordinates rawStore) as [[ | ] | e] eqn:Hc; cbn [bind negb];
    [ | reflexivity | left; reflexivity ].
  destruct (Get_total _ _ Raw.flavorType _ Hy) as [ft Hft].
  destruct (Get_total _ _ Raw.markerColor _ Hy) as [mc Hmc].
  destruct (Get_total _ _ Raw.NAME _ Hy) as [nm Hnm].
  destruct (Get_total _ _ Raw.addr _ Hy) as [ad Had].
  destruct (Get_total _ _ Raw.TEL _ Hy) as [tel Htel].
  rewrite (hasCoordinates_spec _ _ _ Hy Hx) in Hc.
  destruct (ToBoolean y); cbn [negb] in Hc; [ | discriminate ].
  destruct (ToBoolean x); cbn [negb] in Hc; [ | discriminate ].
  destruct (parseFloat y) as [lat | ] eqn:Py; [ | discriminate ].
  destruct (isNaN lat); [ discriminate | ].
  destruct (parseFloat x) as [lng | ] eqn:Px; [ | discriminate ].
  split_bind.
  destruct (searchable (or_else ft (JStr []))) eqn:S1.
  - destruct (includes_searchable _ specialShapeMarker S1) as [b1 E1].
    rewrite E1; cbn [bind]. split_bind.
    destruct (searchable (or_else mc (JStr (MARKERS_DEFAULT config)))) eqn:S2.
    + destruct (includes_searchable _ (js "red") S2) as [b2 E2].
      rewrite E2; cbn [bind]. split_bind. cbn. auto.
    + rewrite (includes_throws _ (js "red") S2); cbn [bind]. auto.
  - rewrite (includes_throws _ specialShapeMarker S1); cbn [bind]. auto.
Qed.

(** C1 (as amended).  For every raw record whose [py] and [px] can be
    read: the record is rejected exactly when [py] or [px] is falsy or
    parses to [NaN]; an accepted record has truthy [py] and [px], its
    latitude and longitude are the Numbers [parseFloat] reads from them and
    neither is [NaN] (either may be infinite); and a record with truthy
    coordinates that parse to Numbers other than [NaN] is accepted with
    those Numbers whenever its flavour and marker texts are strings or
    arrays. *)
Theorem C1_normalize_coordinates :
  forall (rawStore : Value) (config : Config) (y x : JValue),
    Get rawStore Raw.py = Normal y ->
    Get rawStore Raw.px = Normal x ->
    (normalizeStoreData rawStore config = Normal Invalid <->
       ToBoolean y = false \/ ToBoolean x = false \/
       parseFloat y = Normal S754_nan \/
       (exists lat, parseFloat y = Normal lat /\
                    parseFloat x = Normal S754_nan))
    /\
    (forall s, normalizeStoreData rawStore config = Normal (Valid s) ->
       ToBoolean y = true /\ ToBoolean x = true /\
       parseFloat y = Normal (latitude s) /\
       parseFloat x = Normal (longitude s) /\
       isNaN (latitude s) = false /\ isNaN (longitude s) = false)
    /\
    (forall lat lng ft mc,
       ToBoolean y = true -> ToBoolean x = true ->
       parseFloat y = Normal lat -> parseFloat x = Normal lng ->
       isNaN lat = false -> isNaN lng = false ->
       Get rawStore Raw.flavorType = Normal ft ->
       Get rawStore Raw.markerColor = Normal mc ->
       searchable (or_else ft (JStr [])) = true ->
       searchable (or_else mc (JStr (MARKERS_DEFAULT config))) = true ->
       exists s, normalizeStoreData rawStore config = Normal (Valid s) /\
                 latitude s = lat /\ longitude s = lng).
Proof.
  intros rawStore config y x Hy Hx.
  pose proof (normalize_inversion rawStore config y x Hy Hx) as Hinv.
  pose proof (hasCoordinates_spec rawStore y x Hy Hx) as Hc.
  split; [ | split ].
  - split.
    + intros Hn. rewrite Hn in Hinv. rewrite Hinv in Hc.
      destruct (ToBoolean y); cbn [negb] in Hc; [ | auto ].
      destruct (ToBoolean x); cbn [negb] in Hc; [ | auto ].
      destruct (parseFloat y) as [lat | ]; [ | discriminate ].
      destruct (isNaN lat) eqn:Nl.
      * apply isNaN_true in Nl. subst. auto.
      * destruct (parseFloat x) as [lng | ]; [ | discriminate ].
        destruct (isNaN lng) eqn:Ng; [ | discriminate ].
        apply isNaN_true in Ng. subst. right; right; right; eauto.
    + intros H.
      assert (Hf : hasCoordinates rawStore = Normal false).
      { rewrite Hc.
        destruct H as [H | [H | [H | [lat [H1 H2]]]]].
        - rewrite H; reflexivity.
        - rewrite H; destruct (ToBoolean y); reflexivity.
        - rewrite H; destruct (ToBoolean y), (ToBoolean x); reflexivity.
        - rewrite H1, H2.
          destruct (ToBoolean y), (ToBoolean x), (isNaN lat); reflexivity. }
      unfold normalizeStoreData. rewrite Hf. reflexivity.
  - intros s Hn. rewrite Hn in Hinv. destruct Hinv as [Ht [Py Px]].
    rewrite Ht in Hc.
    destruct (ToBoolean y); cbn [negb] in Hc; [ | discriminate ].
    destruct (ToBoolean x); cbn [negb] in Hc; [ | discriminate ].
    rewrite Py, Px in Hc.
    destruct (isNaN (latitude s)); [ discriminate | ].
    destruct (isNaN (longitude s)); [ discriminate | ].
    repeat split; trivial.
  - intros lat lng ft mc Ty Tx Py Px Ny Nx Hft Hmc S1 S2.
    destruct (includes_searchable _ specialShapeMarker S1) as [b1 E1].
    destruct (includes_searchable _ (js "red") S2) as [b2 E2].
    destruct (normalize_accepts rawStore config y x ft mc lat lng
                Hy Hx Hft Hmc Ty Tx Py Px Ny Nx b1 b2 E1 E2)
      as (nm & ad & tel & _ & _ & _ & Hn).
    eexists. split; [ exact Hn | split; reflexivity ].
Qed.

(** The spec's first scenario record, accepted with its parsed coordinates. *)
Lemma C1_normalize_coordinates_witness :
  exists s,
    normalizeStoreData
      (record [(js "NAME", text "A"); (js "py", text "25.03");
               (js "px", text "121.5"); (js "flavorType", text "單口味");
               (js "markerColor", text "blue")]) workerConfig
      = Normal (Valid s)
    /\ latitude s = number_of_decimal false 2503 (-2)
    /\ longitude s = number_of_decimal false 1215 (-1).
Proof.
  pose (raw := record [(js "NAME", text "A"); (js "py", text "25.03");
               (js "px", text "121.5"); (js "flavorType", text "單口味");
               (js "markerColor", text "blue")]).
  destruct (C1_normalize_coordinates raw workerConfig
              (text "25.03") (text "121.5") eq_refl eq_refl)
    as (_ & _ & H).
  apply (H (number_of_decimal false 2503 (-2))
           (number_of_decimal false 1215 (-1))
           (text "單口味") (text "blue")); reflexivity.
Defined.

(** The fields of an accepted record, read off the raw record. *)
Lemma normalize_valid_inv (rawStore : Value) (config : Config)
  (s : StoreRecord) :
  normalizeStoreData rawStore config = Normal (Valid s) ->
  exists y x ft mc nm ad tel lat lng special red,
    Get rawStore Raw.py = Normal y /\
    Get rawStore Raw.px = Normal x /\
    Get rawStore Raw.flavorType = Normal ft /\
    Get rawStore Raw.markerColor = Normal mc /\
    Get rawStore Raw.NAME = Normal nm /\
    Get rawStore Raw.addr = Normal ad /\
    Get rawStore Raw.TEL = Normal tel /\
    parseFloat y = Normal lat /\ parseFloat x = Normal lng /\
    includes (or_else ft (JStr [])) specialShapeMarker = Normal special /\
    includes (or_else mc (JStr (MARKERS_DEFAULT config))) (js "red")
      = Normal red /\
    s = {| name := or_else nm (JStr (js "Unknown Store"));
           latitude := lat;
           longitude := lng;
           address := or_else ad (JStr []);
           phone := or_else tel (JStr []);
           flavorType := or_else ft (JStr []);
           markerColor := or_else mc (JStr (MARKERS_DEFAULT config));
           isSpecialShape := special;
           displayColor :=
             if red then COLORS_RED config else COLORS_BLUE config |}.
Proof.
  unfold normalizeStoreData. intros H.
  destruct (hasCoordinates rawStore) as [[ | ] | ]; cbn [bind negb] in H;
    try discriminate.
  destruct (Get rawStore Raw.flavorType) as [ft | ] eqn:Eft;
    cbn [bind] in H; [ | discriminate ].
  destruct (includes (or_else ft (JStr [])) specialShapeMarker)
    as [special | ] eqn:Esp; cbn [bind] in H; [ | discriminate ].
  destruct (Get rawStore Raw.markerColor) as [mc | ] eqn:Emc;
    cbn [bind] in H; [ | discriminate ].
  destruct (includes (or_else mc (JStr (MARKERS_DEFAULT config))) (js "red"))
    as [red | ] eqn:Ered; cbn [bind] in H; [ | discriminate ].
  destruct (Get rawStore Raw.NAME) as [nm | ] eqn:Enm; cbn [bind] in H;
    [ | discriminate ].
  destruct (Get rawStore Raw.py) as [y | ] eqn:Ey; cbn [bind] in H;
    [ | discriminate ].
  destruct (parseFloat y) as [lat | ] eqn:Elat; cbn [bind] in H;
    [ | discriminate ].
  destruct (Get rawStore Raw.px) as [x | ] eqn:Ex; cbn [bind] in H;
    [ | discriminate ].
  destruct (parseFloat x) as [lng | ] eqn:Elng; cbn [bind] in H;
    [ | discriminate ].
  destruct (Get rawStore Raw.addr) as [ad | ] eqn:Ead; cbn [bind] in H;
    [ | discriminate ].
  destruct (Get rawStore Raw.TEL) as [tel | ] eqn:Etel; cbn [bind] in H;
    [ | discriminate ].
  injection H as <-.
  exists y, x, ft, mc, nm, ad, tel, lat, lng, special, red.
  repeat split; assumption.
Qed.

(** The marker colour of an accepted record always has an [includes]
    method: the cluster icon function can call it. *)
Lemma normalize_markerColor_searchable (rawStore : Value) (config : Config)
  (s : StoreRecord) :
  normalizeStoreData rawStore config = Normal (Valid s) ->
  searchable (markerColor s) = true /\ searchable (flavorType s) = true.
Proof.
  intros H. apply normalize_valid_inv in H.
  destruct H as (y & x & ft & mc & nm & ad & tel & lat & lng & sp & red
                 & _ & _ & _ & _ & _ & _ & _ & _ & _ & Hs & Hr & ->).
  cbn [markerColor flavorType]. split.
  - destruct (searchable (or_else mc (JStr (MARKERS_DEFAULT config)))) eqn:E;
      [ reflexivity | ].
    rewrite (includes_throws _ _ E) in Hr. discriminate.
  - destruct (searchable (or_else ft (JStr []))) eqn:E; [ reflexivity | ].
    rewrite (includes_throws _ _ E) in Hs. discriminate.
Qed.

(** A marker keeps the marker colour of its record, so the markers of
    accepted records can be counted by the cluster icon function. *)
Lemma rendered_marker_countable (rawStore : Value) (config : Config)
  (this : State) (s : StoreRecord) (m : Marker) :
  normalizeStoreData rawStore config = Normal (Valid s) ->
  make_marker this s = Normal m ->
  options_markerColor m = markerColor s /\
  text_or_falsy (options_markerColor m) = true.
Proof.
  intros Hn Hm. unfold make_marker in Hm.
  destruct (icon_for this s); cbn [bind] in Hm; [ | discriminate ].
  destruct (createStorePopupContent s); cbn [bind] in Hm; [ | discriminate ].
  injection Hm as <-. cbn [options_markerColor].
  split; [ reflexivity | ].
  destruct (normalize_markerColor_searchable _ _ _ Hn) as [H _].
  unfold text_or_falsy. rewrite H. apply orb_true_r.
Qed.

(** X3.  The vote of a marker in a cluster is the classification of its
    record: the marker keeps the marker colour of the record, which is a
    string or an array, so the test of the cluster icon function does not
    throw on it, and its answer is [true] exactly when the record has the
    red display colour. *)
Lemma dual_marker_of_dual_record (rawStore : Value) (this : State)
  (s : StoreRecord) (m : Marker) :
  normalizeStoreData rawStore workerConfig = Normal (Valid s) ->
  make_marker this s = Normal m ->
  options_markerColor m = markerColor s /\
  searchable (options_markerColor m) = true /\
  (exists red : bool,
     counts_red m = Normal red /\
     (red = true <-> displayColor s = CONFIG.COLORS.RED)) /\
  (is_dual m = true <-> displayColor s = CONFIG.COLORS.RED).
Proof.
  intros Hn Hm.
  destruct (rendered_marker_countable _ _ _ _ _ Hn Hm) as [Hc _].
  destruct (normalize_markerColor_searchable _ _ _ Hn) as [Hsearch _].
  split; [ exact Hc | ].
  split; [ rewrite Hc; exact Hsearch | ].
  unfold is_dual, counts_red. rewrite Hc.
  apply normalize_valid_inv in Hn.
  destruct Hn as (y & x & ft & mc & nm & ad & tel & lat & lng & sp & red
                  & _ & _ & _ & _ & _ & _ & _ & _ & _ & _ & Hr & ->).
  cbn [markerColor displayColor workerConfig MARKERS_DEFAULT COLORS_RED
       COLORS_BLUE] in *.
  rewrite Hr.
  assert (Ht : ToBoolean (or_else mc (JStr CONFIG.MARKERS.DEFAULT)) = true).
  { unfold or_else. destruct (ToBoolean mc) eqn:E; [ exact E | reflexivity ]. }
  rewrite Ht. cbn [andb].
  split.
  - exists red. split; [ reflexivity | ].
    destruct red; split; intros H; try reflexivity; discriminate.
  - destruct red; split; intros H; try reflexivity; discriminate.
Qed.

(** The spec's legacy scenario record and its marker: dual, and red. *)
Lemma dual_marker_of_dual_record_witness :
  exists s m,
    normalizeStoreData (Data scenario_legacy_first) workerConfig
      = Normal (Valid s)
    /\ make_marker (init constructed) s = Normal m
    /\ counts_red m = Normal true
    /\ (is_dual m = true <-> displayColor s = CONFIG.COLORS.RED)
    /\ is_dual m = true.
Proof.
  eexists. eexists.
  split; [ vm_compute; reflexivity | ].
  split; [ vm_compute; reflexivity | ].
  match goal with
  | |- counts_red ?m = _ /\ _ =>
      destruct (dual_marker_of_dual_record (Data scenario_legacy_first)
                  (init constructed) _ m
                  ltac:(vm_compute; reflexivity)
                  ltac:(vm_compute; reflexivity))
        as (_ & _ & (red & Hred & Hiff) & Hdual)
  end.
  split; [ | split; [ exact Hdual | reflexivity ] ].
  rewrite Hred. f_equal. apply Hiff. reflexivity.
Defined.

Lemma ToString_primitive (v : JValue) :
  primitive v = true -> exists s, ToString v = Normal s.
Proof.
  destruct v as [ | | [ | ] | | | | ]; simpl; try discriminate; eauto.
Qed.

Lemma parseFloat_primitive (v : JValue) :
  primitive v = true -> exists n, parseFloat v = Normal n.
Proof.
  intros H. unfold parseFloat.
  destruct (ToString_primitive v H) as [s ->]. cbn [bind]. eauto.
Qed.

Lemma text_or_falsy_searchable (v : JValue) (d : jsstring) :
  text_or_falsy v = true -> searchable (or_else v (JStr d)) = true.
Proof.
  unfold text_or_falsy, or_else. destruct (ToBoolean v); simpl; auto.
Qed.

Lemma not_text_or_falsy (v : JValue) (d : jsstring) :
  text_or_falsy v = false -> searchable (or_else v (JStr d)) = false.
Proof.
  unfold text_or_falsy, or_else. destruct (ToBoolean v); simpl; auto;
    discriminate.
Qed.

(** ** C2 *)


(** C2, where it fails: the spec's own legacy scenario.  The record is
    special-shape and dual, and is drawn with the plain red pin: the icon is
    chosen by the [markerColor] token alone. *)
Lemma C2_special_shape_with_plain_icon :
  exists s m,
    normalizeStoreData
      (record [(js "NAME", text "C"); (js "py", text "25.0");
               (js "px", text "121.0");
               (js "flavorType", text "雙口味 特殊造型 (圓)");
               (js "markerColor", text "red")]) workerConfig
      = Normal (Valid s)
    /\ isSpecialShape s = true
    /\ make_marker (init constructed) s = Normal m
    /\ icon m = OwnIcon (createPinIcon (js "marker-red"))
    /\ ~ In (icon m) striped_icons.
Proof.
  eexists. eexists.
  split; [ vm_compute; reflexivity | ].
  split; [ reflexivity | ].
  split; [ vm_compute; reflexivity | ].
  split; [ reflexivity | ].
  cbn. intros [H | [H | []]]; vm_compute in H; discriminate.
Qed.

Lemma red_is_not_blue : CONFIG.COLORS.RED <> CONFIG.COLORS.BLUE.
Proof. vm_compute. discriminate. Qed.

Lemma or_else_falsy (v d : JValue) : ToBoolean v = false -> or_else v d = d.
Proof. unfold or_else. intros ->. reflexivity. Qed.

Lemma or_else_truthy (v d : JValue) : ToBoolean v = true -> or_else v d = v.
Proof. unfold or_else. intros ->. reflexivity. Qed.

Lemma includes_text (t p : jsstring) (d : JValue) (b : bool) :
  includes (or_else (JStr t) d) p = Normal b ->
  t <> [] -> b = str_includes t p.
Proof.
  intros H Ht. rewrite or_else_truthy in H by (destruct t; [ congruence | reflexivity ]).
  simpl in H. congruence.
Qed.

(** The slot [this.icons[key] || this.icons[CONFIG.MARKERS.DEFAULT]] of an
    initialized controller, key by key. *)
Lemma initialized_icon_table (s : StoreRecord) (slot : IconSlot) :
  icon_for (init constructed) s = Normal slot ->
  exists key,
    ToString (markerColor s) = Normal key /\
    ((key = CONFIG.MARKERS.RED_STRIPED /\
      slot = OwnIcon (createPinIcon (js "marker-red-striped"))) \/
     (key = CONFIG.MARKERS.BLUE_STRIPED /\
      slot = OwnIcon (createPinIcon (js "marker-blue-striped"))) \/
     (key = CONFIG.MARKERS.RED /\
      slot = OwnIcon (createPinIcon (js "marker-red"))) \/
     (key = CONFIG.MARKERS.BLUE /\
      slot = OwnIcon (createPinIcon (js "marker-blue"))) \/
     (~ In key configured_keys /\
      (slot = Inherited key \/ slot = default_pin))).
Proof.
  unfold icon_for. destruct (ToString (markerColor s)) as [key | e];
    [ | discriminate ].
  cbn [bind]. intros H. apply Normal_inj in H. exists key.
  split; [ reflexivity | ].
  unfold icons_get in H.
  cbn [init _initMarkersLayer _initIcons constructed icons app lookup_icon] in H.
  destruct (str_eqb CONFIG.MARKERS.RED_STRIPED key) eqn:E4.
  { left. split; [ symmetry; apply str_eqb_true; exact E4 | ].
    subst slot. reflexivity. }
  destruct (str_eqb CONFIG.MARKERS.BLUE_STRIPED key) eqn:E3.
  { right. left. split; [ symmetry; apply str_eqb_true; exact E3 | ].
    subst slot. reflexivity. }
  destruct (str_eqb CONFIG.MARKERS.RED key) eqn:E2.
  { right. right. left. split; [ symmetry; apply str_eqb_true; exact E2 | ].
    subst slot. reflexivity. }
  destruct (str_eqb CONFIG.MARKERS.BLUE key) eqn:E1.
  { right. right. right. left.
    split; [ symmetry; apply str_eqb_true; exact E1 | ].
    subst slot. reflexivity. }
  right. right. right. right. split.
  - cbn. intros [K | [K | [K | [K | []]]]]; subst key;
      rewrite str_eqb_refl in *; discriminate.
  - destruct (existsb (str_eqb key) object_prototype_members).
    + left. subst slot. reflexivity.
    + right. subst slot. reflexivity.
Qed.

Lemma configured_pin (key cls : jsstring) (r : StoreRecord) :
  In (key, cls)
     [(CONFIG.MARKERS.BLUE, js "marker-blue");
      (CONFIG.MARKERS.RED, js "marker-red");
      (CONFIG.MARKERS.BLUE_STRIPED, js "marker-blue-striped");
      (CONFIG.MARKERS.RED_STRIPED, js "marker-red-striped")] ->
  ToString (markerColor r) = Normal key ->
  icon_for (init constructed) r = Normal (OwnIcon (createPinIcon cls)).
Proof.
  intros Hin Hk. unfold icon_for. rewrite Hk.
  cbn in Hin.
  destruct Hin as [E | [E | [E | [E | []]]]];
    injection E as <- <-; reflexivity.
Qed.

Lemma striped_pin_iff (r : StoreRecord) (slot : IconSlot) :
  icon_for (init constructed) r = Normal slot ->
  (In slot striped_icons <->
     ToString (markerColor r) = Normal CONFIG.MARKERS.BLUE_STRIPED \/
     ToString (markerColor r) = Normal CONFIG.MARKERS.RED_STRIPED).
Proof.
  intros Hslot. split.
  - intros Hin.
    destruct (initialized_icon_table _ _ Hslot) as (key & Hk & Hcase).
    rewrite Hk.
    destruct Hcase
      as [[-> _] | [[-> _] | [[_ ->] | [[_ ->] | [_ [-> | ->]]]]]];
      [ right; reflexivity | left; reflexivity | | | | ];
      exfalso; cbn in Hin;
      destruct Hin as [H | [H | []]]; vm_compute in H; discriminate.
  - intros [E | E].
    + rewrite (configured_pin CONFIG.MARKERS.BLUE_STRIPED
                 (js "marker-blue-striped") r) in Hslot;
        [ | cbn; auto 6 | exact E ].
      apply Normal_inj in Hslot. subst slot. cbn. auto.
    + rewrite (configured_pin CONFIG.MARKERS.RED_STRIPED
                 (js "marker-red-striped") r) in Hslot;
        [ | cbn; auto 6 | exact E ].
      apply Normal_inj in Hslot. subst slot. cbn. auto.
Qed.

Ltac simpl_record :=
  cbn [markerColor displayColor isSpecialShape workerConfig
       MARKERS_DEFAULT COLORS_RED COLORS_BLUE] in *.

(** C2 (as amended).  For every accepted raw record: the display colour is
    the red (dual) one exactly when the [markerColor] string contains
    [red], and a missing or falsy [markerColor] gives the token [blue] and
    the blue (single) colour; [isSpecialShape] holds exactly when the
    [flavorType] string contains the special-shape marker; and the icon of
    the record's marker is chosen by the property key that [markerColor]
    denotes, and by nothing else: each of the four configured keys gives
    the pin registered under it, and the pin is one of the two striped
    ones if and only if the key is [blue-striped] or [red-striped],
    whatever [isSpecialShape] is. *)
Theorem C2_classification_and_icon :
  forall (rawStore : Value) (s : StoreRecord) (ft mc : JValue),
    normalizeStoreData rawStore workerConfig = Normal (Valid s) ->
    Get rawStore Raw.flavorType = Normal ft ->
    Get rawStore Raw.markerColor = Normal mc ->
    (forall t, mc = JStr t -> t <> [] ->
       markerColor s = JStr t /\
       (displayColor s = CONFIG.COLORS.RED <-> str_includes t (js "red") = true) /\
       (displayColor s = CONFIG.COLORS.BLUE <-> str_includes t (js "red") = false))
    /\
    (ToBoolean mc = false ->
       markerColor s = JStr CONFIG.MARKERS.BLUE /\
       displayColor s = CONFIG.COLORS.BLUE)
    /\
    (forall t, ft = JStr t ->
       (isSpecialShape s = true <-> str_includes t specialShapeMarker = true))
    /\
    (ToBoolean ft = false -> isSpecialShape s = false)
    /\
    (ToString (markerColor s) = Normal CONFIG.MARKERS.BLUE ->
       icon_for (init constructed) s
         = Normal (OwnIcon (createPinIcon (js "marker-blue"))))
    /\
    (ToString (markerColor s) = Normal CONFIG.MARKERS.RED ->
       icon_for (init constructed) s
         = Normal (OwnIcon (createPinIcon (js "marker-red"))))
    /\
    (ToString (markerColor s) = Normal CONFIG.MARKERS.BLUE_STRIPED ->
       icon_for (init constructed) s
         = Normal (OwnIcon (createPinIcon (js "marker-blue-striped"))))
    /\
    (ToString (markerColor s) = Normal CONFIG.MARKERS.RED_STRIPED ->
       icon_for (init constructed) s
         = Normal (OwnIcon (createPinIcon (js "marker-red-striped"))))
    /\
    (forall slot,
       icon_for (init constructed) s = Normal slot ->
       (In slot striped_icons <->
          ToString (markerColor s) = Normal CONFIG.MARKERS.BLUE_STRIPED \/
          ToString (markerColor s) = Normal CONFIG.MARKERS.RED_STRIPED)).
Proof.
  intros rawStore s ft mc Hn Hft Hmc.
  apply normalize_valid_inv in Hn.
  destruct Hn as (y & x & ft' & mc' & nm & ad & tel & lat & lng & sp & red
                  & _ & _ & Hft' & Hmc' & _ & _ & _ & _ & _ & Hs & Hr & ->).
  rewrite Hft in Hft'. injection Hft' as <-.
  rewrite Hmc in Hmc'. injection Hmc' as <-.
  split; [ | split; [ | split; [ | split; [ | split; [ | split; [ | split;
    [ | split ] ] ] ] ] ] ].
  - simpl_record. intros t -> Ht.
    rewrite (includes_text _ _ _ _ Hr Ht).
    split; [ apply or_else_truthy; destruct t; [ congruence | reflexivity ] | ].
    pose proof red_is_not_blue as Hne.
    destruct (str_includes t (js "red")); split; split; intros E;
      try reflexivity; try discriminate; congruence.
  - simpl_record. intros Hf. rewrite or_else_falsy in Hr |- * by assumption.
    vm_compute in Hr. injection Hr as <-. split; reflexivity.
  - simpl_record. intros t ->. destruct t as [ | c t].
    + vm_compute in Hs. injection Hs as <-.
      split; intros E; [ discriminate | vm_compute in E; discriminate ].
    + rewrite (includes_text _ _ _ _ Hs) by discriminate. reflexivity.
  - simpl_record. intros Hf. rewrite or_else_falsy in Hs by assumption.
    vm_compute in Hs. injection Hs as <-. reflexivity.
  - apply configured_pin. cbn. auto.
  - apply configured_pin. cbn. auto.
  - apply configured_pin. cbn. auto.
  - apply configured_pin. cbn. auto 6.
  - intros slot. apply striped_pin_iff.
Qed.

(** The spec's columnar scenario record: single flavour, plain shape, drawn
    with a pin that is not striped. *)
Lemma C2_classification_and_icon_witness :
  exists s slot,
    normalizeStoreData
      (record [(js "NAME", text "A"); (js "py", text "25.03");
               (js "px", text "121.5"); (js "flavorType", text "單口味");
               (js "markerColor", text "blue")]) workerConfig
      = Normal (Valid s)
    /\ (displayColor s = CONFIG.COLORS.BLUE <->
        str_includes (js "blue") (js "red") = false)
    /\ icon_for (init constructed) s = Normal slot
    /\ (In slot striped_icons <->
          ToString (markerColor s) = Normal CONFIG.MARKERS.BLUE_STRIPED \/
          ToString (markerColor s) = Normal CONFIG.MARKERS.RED_STRIPED).
Proof.
  eexists. eexists. split; [ vm_compute; reflexivity | ].
  destruct (C2_classification_and_icon
            (record [(js "NAME", text "A"); (js "py", text "25.03");
                     (js "px", text "121.5"); (js "flavorType", text "單口味");
                     (js "markerColor", text "blue")])
            _ (text "單口味") (text "blue")
            ltac:(vm_compute; reflexivity) eq_refl eq_refl)
    as (H1 & _ & _ & _ & _ & _ & _ & _ & H9).
  split.
  - apply (H1 (js "blue")); [ reflexivity | vm_compute; discriminate ].
  - split; [ vm_compute; reflexivity | ]. apply H9. vm_compute. reflexivity.
Defined.

(** ** C5 *)

Lemma count_red_spec (cluster : list Marker) (acc : nat) :
  Forall (fun m => text_or_falsy (options_markerColor m) = true) cluster ->
  count_red cluster acc = Normal (acc + dual_count cluster).
Proof.
  intros H. revert acc. induction H as [ | m rest Hm _ IH]; intros acc.
  - cbn. f_equal. unfold dual_count. cbn. lia.
  - cbn [count_red]. unfold counts_red, dual_count. cbn [filter].
    unfold is_dual at 1. unfold text_or_falsy in Hm.
    destruct (ToBoolean (options_markerColor m)); cbn [negb orb andb] in *.
    + destruct (includes_searchable _ (js "red") Hm) as [b ->].
      cbn [bind]. rewrite IH. unfold dual_count.
      destruct b; cbn [List.length]; f_equal; lia.
    + cbn [bind]. rewrite IH. reflexivity.
Qed.

Lemma colorClass_spec (redCount len : nat) :
  colorClass redCount len =
    if Nat.eqb (2 * redCount) len then js "marker-cluster-split"
    else if Nat.ltb len (2 * redCount) then js "marker-cluster-red"
    else js "marker-cluster-blue".
Proof.
  unfold colorClass, Qeq_bool, Qle_bool, Q_of_nat, Qdiv, Qmult, Qinv, inject_Z.
  cbn [Qnum Qden Pos.mul].
  destruct (Nat.eqb_spec (2 * redCount) len) as [E | E].
  - replace (Z.of_nat redCount * 2 =? Z.of_nat len * 1 * 1)%Z with true;
      [ reflexivity | ].
    symmetry. apply Z.eqb_eq. lia.
  - replace (Z.of_nat redCount * 2 =? Z.of_nat len * 1 * 1)%Z with false
      by (symmetry; apply Z.eqb_neq; lia).
    destruct (Nat.ltb_spec len (2 * redCount)) as [L | L].
    + replace (Z.of_nat redCount * 2 <=? Z.of_nat len * 1 * 1)%Z with false
        by (symmetry; apply Z.leb_gt; lia).
      reflexivity.
    + replace (Z.of_nat redCount * 2 <=? Z.of_nat len * 1 * 1)%Z with true
        by (symmetry; apply Z.leb_le; lia).
      reflexivity.
Qed.

(** C5.  For every cluster whose members carry a marker colour that is a
    string or an array (or a falsy value), the cluster icon is produced and
    its class is decided by the number of dual members against half the
    size of the cluster: more than half gives the red class, fewer than
    half the blue class, exactly half the split class, which is neither of
    the other two. *)
Theorem C5_cluster_majority_vote :
  forall cluster : list Marker,
    Forall (fun m => text_or_falsy (options_markerColor m) = true) cluster ->
    exists icon,
      iconCreateFunction cluster = Normal icon /\
      (List.length cluster < 2 * dual_count cluster ->
         className icon = cluster_class (js "marker-cluster-red")) /\
      (2 * dual_count cluster < List.length cluster ->
         className icon = cluster_class (js "marker-cluster-blue")) /\
      (2 * dual_count cluster = List.length cluster ->
         className icon = cluster_class (js "marker-cluster-split") /\
         className icon <> cluster_class (js "marker-cluster-red") /\
         className icon <> cluster_class (js "marker-cluster-blue")).
Proof.
  intros cluster H. unfold iconCreateFunction.
  rewrite (count_red_spec cluster 0 H). cbn [bind plus].
  eexists. split; [ reflexivity | ]. cbn [className].
  rewrite colorClass_spec. unfold cluster_class.
  destruct (Nat.eqb_spec (2 * dual_count cluster) (List.length cluster))
    as [E | E].
  - split; [ intros; lia | ]. split; [ intros; lia | ].
    intros _. split; [ reflexivity | ].
    split; intros Habs; vm_compute in Habs; discriminate.
  - destruct (Nat.ltb_spec (List.length cluster) (2 * dual_count cluster));
      (split; [ intros; first [ reflexivity | lia ] | ]);
      (split; [ intros; first [ reflexivity | lia ] | intros; lia ]).
Qed.


(** Four markers, two of them dual: the split class. *)
Lemma C5_cluster_majority_vote_witness :
  exists icon,
    iconCreateFunction
      [marker_of_color "red"; marker_of_color "blue";
       marker_of_color "red-striped"; marker_of_color "blue"] = Normal icon
    /\ className icon = cluster_class (js "marker-cluster-split")
    /\ className icon <> cluster_class (js "marker-cluster-red")
    /\ className icon <> cluster_class (js "marker-cluster-blue").
Proof.
  destruct (C5_cluster_majority_vote
              [marker_of_color "red"; marker_of_color "blue";
               marker_of_color "red-striped"; marker_of_color "blue"])
    as (icon & Hi & _ & _ & Hsplit).
  - repeat constructor.
  - exists icon. split; [ exact Hi | ]. apply Hsplit. reflexivity.
Defined.

(** ** C10 *)


(** C10 at its failing input.  The token [constructor] is none of the four
    keys, yet the marker does not get the default pin: [this.icons] is a
    plain object, the read finds [Object.prototype.constructor], which is
    truthy, and the fallback is skipped. *)
Lemma C10_inherited_member_instead_of_default_pin :
  normalizeStoreData
    (record [(js "py", text "25.03"); (js "px", text "121.5");
             (js "markerColor", text "constructor")]) workerConfig
    = Normal (Valid constructor_store)
  /\ ~ In (js "constructor") configured_keys
  /\ icon_for (init constructed) constructor_store
       = Normal (Inherited (js "constructor"))
  /\ Inherited (js "constructor") <> default_pin.
Proof.
  split; [ vm_compute; reflexivity | ].
  split; [ cbn; intros [H | [H | [H | [H | []]]]]; vm_compute in H;
           discriminate | ].
  split; [ vm_compute; reflexivity | discriminate ].
Qed.

Lemma existsb_str_eqb_false (t : jsstring) (l : list jsstring) :
  ~ In t l -> existsb (str_eqb t) l = false.
Proof.
  induction l as [ | a l IH]; cbn; [ reflexivity | ].
  intros H. rewrite str_eqb_neq by (intros ->; auto).
  apply IH. auto.
Qed.

(** X2.  The part of C10 the code does deliver: a string token that is
    neither one of the four keys nor the name of a member of
    [Object.prototype] is drawn with the default blue pin; the token
    [dark-red] is one, and its record keeps the red display colour. *)
Theorem unknown_token_gets_default_pin :
  (forall (s : StoreRecord) (t : jsstring),
     markerColor s = JStr t ->
     ~ In t configured_keys ->
     ~ In t object_prototype_members ->
     icon_for (init constructed) s = Normal default_pin)
  /\
  (exists s,
     normalizeStoreData
       (record [(js "py", text "25.03"); (js "px", text "121.5");
                (js "markerColor", text "dark-red")]) workerConfig
       = Normal (Valid s)
     /\ displayColor s = CONFIG.COLORS.RED
     /\ icon_for (init constructed) s = Normal default_pin).
Proof.
  split.
  - intros s t Hm Hk Hp. unfold icon_for. rewrite Hm. cbn [ToString bind].
    unfold icons_get at 1.
    assert (Hl : lookup_icon t (icons (init constructed)) = None).
    { cbn in Hk. cbn [init _initIcons _initMarkersLayer icons constructed app
                      lookup_icon].
      rewrite !str_eqb_neq; [ reflexivity | | | | ]; intros E; apply Hk; auto 6. }
    rewrite Hl, (existsb_str_eqb_false _ _ Hp). reflexivity.
  - eexists. split; [ vm_compute; reflexivity | ].
    split; vm_compute; reflexivity.
Qed.

(** ** Ingestion: shape of [processStores] *)

Lemma mapM_length {A B : Type} (f : A -> Completion B) (xs : list A)
  (ys : list B) :
  mapM f xs = Normal ys -> List.length ys = List.length xs.
Proof.
  revert ys. induction xs as [ | x xs IH]; cbn; intros ys H.
  - injection H as <-. reflexivity.
  - destruct (f x); cbn in H; [ | discriminate ].
    destruct (mapM f xs); cbn in H; [ | discriminate ].
    injection H as <-. cbn. f_equal. apply IH. reflexivity.
Qed.

Lemma mapM_ext {A B : Type} (f g : A -> Completion B) (xs : list A) :
  (forall x, In x xs -> f x = g x) -> mapM f xs = mapM g xs.
Proof.
  induction xs as [ | x xs IH]; cbn; intros H; [ reflexivity | ].
  rewrite (H x) by auto. rewrite IH by auto. reflexivity.
Qed.

Lemma mapM_map {A B C : Type} (f : B -> Completion C) (g : A -> B)
  (xs : list A) :
  mapM f (map g xs) = mapM (fun x => f (g x)) xs.
Proof.
  induction xs as [ | x xs IH]; cbn; [ reflexivity | ].
  rewrite IH. reflexivity.
Qed.

(** Only the first exception of a [map] is seen. *)
Lemma mapM_throws {A B : Type} (f : A -> Completion B) (xs : list A)
  (e : JsError) :
  mapM f xs = Throw e -> exists x, In x xs /\ f x = Throw e.
Proof.
  induction xs as [ | x xs IH]; cbn; [ discriminate | ].
  destruct (f x) eqn:E; cbn.
  - destruct (mapM f xs); cbn; [ discriminate | ].
    intros H. injection H as <-.
    destruct (IH eq_refl) as (x' & Hin & Hx). eauto.
  - intros H. injection H as <-. eauto.
Qed.

Lemma filter_valid_filter (results : list Normalized) :
  map Valid (filter_valid results) = filter isValid results.
Proof.
  induction results as [ | [ | s] rest IH]; cbn; [ | | f_equal ]; auto.
Qed.

Lemma filter_valid_length (results : list Normalized) :
  List.length (filter_valid results)
    = List.length results - rejected_count results.
Proof.
  unfold rejected_count.
  induction results as [ | r rest IH]; [ reflexivity | ].
  pose proof (filter_length_le (fun r => negb (isValid r)) rest) as Hle.
  destruct r; cbn [filter_valid filter isValid negb List.length]; lia.
Qed.

(** The legacy branch. *)
Lemma processStores_legacy (elems : list JValue) (config : Config) :
  processStores (JArr elems) config =
    lu <- match elems with
          | first :: _ =>
              l <- GetData first Raw.last_updated ;;
              Normal (if ToBoolean l then l else JStr [])
          | [] => Normal (JStr [])
          end ;;
    results <- mapM (fun store => normalizeStoreData (Data store) config)
                 elems ;;
    Normal {| stores := filter_valid results; lastUpdated := lu |}.
Proof. reflexivity. Qed.

(** The columnar branch. *)
Lemma processStores_columnar (members : list (jsstring * JValue))
  (config : Config) (rows : list JValue) :
  ToBoolean (own_or_undefined (js "keys") members) = true ->
  own_or_undefined (js "data") members = JArr rows ->
  processStores (JObj members) config =
    results <- mapM (normalize_record (JObj members) config) rows ;;
    Normal {| stores := filter_valid results;
              lastUpdated :=
                or_else (own_or_undefined (js "last_updated") members)
                  (JStr []) |}.
Proof.
  intros Hk Hd. unfold processStores. cbn [Get_keys bind keys_truthy].
  rewrite Hk. cbn [GetData bind].
  change (Raw.name_of Raw.data) with (js "data"). rewrite Hd.
  reflexivity.
Qed.

(** Every other payload that is not [null] or [undefined]. *)
Lemma processStores_format_error (rawData : JValue) (config : Config) :
  rawData <> JNull -> rawData <> JUndefined ->
  passes_shape_test rawData = false ->
  processStores rawData config = Throw invalid_data_format.
Proof.
  intros Hn Hu Hs. destruct rawData; try congruence; try reflexivity;
    try discriminate.
  unfold processStores, passes_shape_test in *.
  cbn [Get_keys bind keys_truthy GetData].
  change (Raw.name_of Raw.data) with (js "data").
  destruct (ToBoolean (own_or_undefined (js "keys") members));
    [ | reflexivity ].
  destruct (own_or_undefined (js "data") members); cbn [andb isArray] in Hs;
    try discriminate; reflexivity.
Qed.

(** ** Every exception of the pipeline but the two [new Error] is a
    [TypeError] *)

(** Induction over values, through the lists inside them. *)
Lemma JValue_nested_ind (P : JValue -> Prop) :
  P JUndefined -> P JNull -> (forall b, P (JBool b)) ->
  (forall n, P (JNum n)) -> (forall s, P (JStr s)) ->
  (forall elems, Forall P elems -> P (JArr elems)) ->
  (forall members, Forall (fun kv => P (snd kv)) members -> P (JObj members)) ->
  forall v, P v.
Proof.
  intros Hu Hn Hb Hnum Hs Ha Ho. fix IH 1.
  intros [ | | b | n | s | elems | members];
    [ exact Hu | exact Hn | apply Hb | apply Hnum | apply Hs | | ].
  - apply Ha. revert elems. fix IHl 1.
    intros [ | a l]; constructor; [ apply IH | apply IHl ].
  - apply Ho. revert members. fix IHl 1.
    intros [ | [k a] l]; constructor; [ apply IH | apply IHl ].
Qed.


Lemma ToString_array (elems : list JValue) :
  ToString (JArr elems) =
    parts <- mapM element_string elems ;; Normal (join (js ",") parts).
Proof.
  cbn [ToString]. f_equal.
  induction elems as [ | a l IH]; [ reflexivity | ].
  cbn [mapM]. rewrite <- IH. destruct a; reflexivity.
Qed.

Lemma ToString_throws (v : JValue) (e : JsError) :
  ToString v = Throw e -> e = TypeError.
Proof.
  revert e. induction v as [ | | b | n | s | elems IH | members _]
    using JValue_nested_ind; intros e.
  - discriminate.
  - discriminate.
  - destruct b; discriminate.
  - discriminate.
  - discriminate.
  - rewrite ToString_array.
    destruct (mapM element_string elems) eqn:E; cbn [bind]; [ discriminate | ].
    intros H. injection H as <-.
    apply mapM_throws in E. destruct E as (x & Hin & Hx).
    rewrite Forall_forall in IH. specialize (IH x Hin e0).
    destruct x; cbn in Hx; try discriminate; auto.
  - cbn [ToString].
    destruct (has_own (js "toString") members); [ | discriminate ].
    intros H. injection H as <-. reflexivity.
Qed.

Lemma parseFloat_throws (v : JValue) (e : JsError) :
  parseFloat v = Throw e -> e = TypeError.
Proof.
  unfold parseFloat. destruct (ToString v) eqn:E; cbn [bind]; [ discriminate | ].
  intros H. injection H as <-. exact (ToString_throws _ _ E).
Qed.

Lemma includes_throws_TypeError (v : JValue) (p : jsstring) (e : JsError) :
  includes v p = Throw e -> e = TypeError.
Proof. destruct v; cbn; try discriminate; congruence. Qed.

Lemma GetData_throws (v : JValue) (f : Raw.Field) (e : JsError) :
  GetData v f = Throw e -> e = TypeError.
Proof. destruct v; cbn; try discriminate; congruence. Qed.

Lemma Get_throws (rawStore : Value) (f : Raw.Field) (e : JsError) :
  Get rawStore f = Throw e -> e = TypeError.
Proof.
  destruct rawStore as [v | o]; cbn; [ apply GetData_throws | ].
  destruct (lookup (Raw.name_of f) (own o)); [ discriminate | ].
  destruct (proto o) as [ | | [ | | | | | | ]]; discriminate.
Qed.

Lemma GetIndex_throws (v : JValue) (i : nat) (e : JsError) :
  GetIndex v i = Throw e -> e = TypeError.
Proof. destruct v; cbn; try discriminate; congruence. Qed.

(** One step of a sequence of calls: the exception is a [TypeError]
    whichever call raised it. *)
Ltac bind_throws lem :=
  match goal with
  | |- bind ?c _ = Throw ?e -> ?e = TypeError =>
      let E := fresh "E" in
      destruct c eqn:E; cbn [bind];
      [ | let H := fresh in
          intros H; injection H as <-; eapply lem; eassumption ]
  end.

Lemma hasCoordinates_throws (rawStore : Value) (e : JsError) :
  hasCoordinates rawStore = Throw e -> e = TypeError.
Proof.
  unfold hasCoordinates.
  bind_throws Get_throws.
  destruct (negb (ToBoolean a)); [ discriminate | ].
  bind_throws Get_throws.
  destruct (negb (ToBoolean a0)); [ discriminate | ].
  bind_throws parseFloat_throws.
  destruct (isNaN a1); [ discriminate | ].
  bind_throws parseFloat_throws.
  discriminate.
Qed.

Lemma normalize_throws (rawStore : Value) (config : Config) (e : JsError) :
  normalizeStoreData rawStore config = Throw e -> e = TypeError.
Proof.
  unfold normalizeStoreData.
  bind_throws hasCoordinates_throws.
  destruct (negb a); [ discriminate | ].
  bind_throws Get_throws.
  bind_throws includes_throws_TypeError.
  bind_throws Get_throws.
  bind_throws includes_throws_TypeError.
  bind_throws Get_throws.
  bind_throws Get_throws.
  bind_throws parseFloat_throws.
  bind_throws Get_throws.
  bind_throws parseFloat_throws.
  bind_throws Get_throws.
  bind_throws Get_throws.
  discriminate.
Qed.

Lemma assign_columns_throws (keys : list JValue) (index : nat) (row : JValue)
  (storeObj : Object) (e : JsError) :
  assign_columns keys index row storeObj = Throw e -> e = TypeError.
Proof.
  revert index storeObj. induction keys as [ | key keys IH];
    intros index storeObj; cbn [assign_columns]; [ discriminate | ].
  bind_throws GetIndex_throws.
  bind_throws ToString_throws.
  apply IH.
Qed.

Lemma normalize_record_throws (rawData : JValue) (config : Config)
  (rec : JValue) (e : JsError) :
  normalize_record rawData config rec = Throw e -> e = TypeError.
Proof.
  unfold normalize_record.
  destruct rawData; try apply normalize_throws.
  match goal with
  | |- bind ?c _ = _ -> _ => destruct c eqn:E; cbn [bind]
  end.
  - apply normalize_throws.
  - intros H. injection H as <-. unfold forEach_key in E.
    destruct (own_or_undefined (js "keys") members);
      try (injection E as <-; reflexivity).
    eapply assign_columns_throws; eassumption.
Qed.

Lemma processStores_shape_errors (rawData : JValue) (config : Config)
  (e : JsError) :
  passes_shape_test rawData = true ->
  processStores rawData config = Throw e -> e = TypeError.
Proof.
  intros Hs. destruct rawData; try discriminate.
  - rewrite processStores_legacy.
    match goal with
    | |- bind ?c _ = _ -> _ => destruct c eqn:E; cbn [bind]
    end.
    + match goal with
      | |- bind ?c _ = _ -> _ => destruct c eqn:E'; cbn [bind]
      end; [ discriminate | ].
      intros H. injection H as <-.
      apply mapM_throws in E'. destruct E' as (x & _ & Hx).
      exact (normalize_throws _ _ _ Hx).
    + intros H. injection H as <-. destruct elems as [ | first rest];
        [ discriminate | ].
      destruct (GetData first Raw.last_updated) eqn:G; cbn [bind] in E;
        [ discriminate | ].
      injection E as <-. exact (GetData_throws _ _ _ G).
  - cbn [passes_shape_test] in Hs. apply andb_prop in Hs.
    destruct Hs as [Hk Hd].
    destruct (own_or_undefined (js "data") members) as [ | | | | | rows | ]
      eqn:D; try discriminate.
    rewrite (processStores_columnar members config rows Hk D).
    match goal with
    | |- bind ?c _ = _ -> _ => destruct c eqn:E; cbn [bind]
    end; [ discriminate | ].
    intros H. injection H as <-.
    apply mapM_throws in E. destruct E as (x & _ & Hx).
    exact (normalize_record_throws _ _ _ _ Hx).
Qed.

(** ** C4 *)

(** C4, where it fails: [keys] is the number 1, no sequence, so the
    payload has neither accepted shape; ingestion succeeds all the same,
    because [keys] is only tested for truthiness and never used when [data]
    is empty. *)
Lemma C4_truthy_keys_pass_the_shape_test :
  accepted_shape
    (JObj [(js "keys", JNum (number_of_decimal false 1 0));
           (js "data", JArr [])]) = false
  /\ fetchAndProcessStores workerConfig
       (Response true (js "OK")
          (Normal (JObj [(js "keys", JNum (number_of_decimal false 1 0));
                         (js "data", JArr [])])))
     = SUCCESS {| stores := []; lastUpdated := JStr [] |}.
Proof. split; vm_compute; reflexivity. Qed.

(** C4 (as amended).  With a successful response and a parsed payload,
    ingestion fails with the format error exactly when the payload is not
    [null], is not an array and is not an object whose [keys] is truthy and
    whose [data] is an array.  A payload with truthy [keys] and an empty
    [data] array, and a bare empty array, both succeed with no store; the
    format error is not the network error; and a response that is not [ok]
    fails with the network error whatever its body. *)
Theorem C4_format_and_network_errors :
  forall (config : Config) (statusText : jsstring),
    (forall rawData,
       fetchAndProcessStores config
         (Response true statusText (Normal rawData))
         = ERROR invalid_data_format
       <-> rawData <> JNull /\ rawData <> JUndefined /\
           passes_shape_test rawData = false)
    /\
    (forall members,
       ToBoolean (own_or_undefined (js "keys") members) = true ->
       own_or_undefined (js "data") members = JArr [] ->
       fetchAndProcessStores config
         (Response true statusText (Normal (JObj members)))
         = SUCCESS {| stores := [];
                      lastUpdated :=
                        or_else (own_or_undefined (js "last_updated") members)
                          (JStr []) |})
    /\
    fetchAndProcessStores config (Response true statusText (Normal (JArr [])))
      = SUCCESS {| stores := []; lastUpdated := JStr [] |}
    /\
    (forall json,
       fetchAndProcessStores config (Response false statusText json)
         = ERROR (network_error statusText))
    /\
    network_error statusText <> invalid_data_format.
Proof.
  intros config statusText.
  split; [ | split; [ | split; [ | split ] ] ].
  - intros rawData. unfold fetchAndProcessStores. cbn [negb bind].
    split.
    + intros H.
      destruct (processStores rawData config) as [p | e] eqn:E;
        [ discriminate | ].
      injection H as ->.
      split; [ intros ->; discriminate | ].
      split; [ intros ->; discriminate | ].
      destruct (passes_shape_test rawData) eqn:S; [ | reflexivity ].
      pose proof (processStores_shape_errors _ _ _ S E). discriminate.
    + intros (Hn & Hu & Hs).
      rewrite (processStores_format_error _ config Hn Hu Hs). reflexivity.
  - intros members Hk Hd. unfold fetchAndProcessStores. cbn [negb bind].
    rewrite (processStores_columnar members config [] Hk Hd). reflexivity.
  - reflexivity.
  - reflexivity.
  - unfold network_error, invalid_data_format. intros H.
    injection H as H. vm_compute in H. discriminate.
Qed.

(** A payload that is a string is refused with the format error. *)
Lemma C4_format_and_network_errors_witness :
  fetchAndProcessStores workerConfig
    (Response true (js "OK") (Normal (text "stores")))
    = ERROR invalid_data_format.
Proof.
  apply (C4_format_and_network_errors workerConfig (js "OK")).
  repeat split; discriminate.
Defined.

(** ** C6 *)

Lemma processStores_records (rawData : JValue) (config : Config)
  (recs : list JValue) :
  source_records rawData = Some recs ->
  stores_of (processStores rawData config) =
    results <- mapM (normalize_record rawData config) recs ;;
    Normal (filter_valid results).
Proof.
  intros Hs. unfold stores_of. destruct rawData; try discriminate.
  - injection Hs as ->. rewrite processStores_legacy.
    change (mapM (fun store => normalizeStoreData (Data store) config) recs)
      with (mapM (normalize_record (JArr recs) config) recs).
    destruct recs as [ | first rest]; cbn [bind].
    + reflexivity.
    + destruct (GetData first Raw.last_updated) as [l | e] eqn:G; cbn [bind].
      * destruct (mapM (normalize_record (JArr (first :: rest)) config)
                    (first :: rest)); reflexivity.
      * (* a first element that refuses property access also stops the map *)
        cbn [mapM normalize_record].
        destruct first; cbn in G; try discriminate; injection G as <-;
          reflexivity.
  - cbn [source_records] in Hs.
    destruct (own_or_undefined (js "data") members) as [ | | | | | rows | ]
      eqn:D; try discriminate.
    destruct (ToBoolean (own_or_undefined (js "keys") members)) eqn:K;
      [ | discriminate ].
    injection Hs as ->.
    rewrite (processStores_columnar members config recs K D).
    destruct (mapM (normalize_record (JObj members) config) recs);
      reflexivity.
Qed.

(** C6.  For every payload that carries a sequence of records (the rows of
    a columnar payload, the elements of a legacy one): when each record
    normalizes without an exception, ingestion succeeds and its store list
    is exactly the accepted results, in the order of the source sequence
    (it is the list of results with the rejected ones filtered out), and its
    length is the number of records minus the number of rejected ones; and
    ingestion yields a store list in no other case. *)
Theorem C6_survivors_in_source_order :
  forall (rawData : JValue) (config : Config) (recs : list JValue),
    source_records rawData = Some recs ->
    (forall results,
       mapM (normalize_record rawData config) recs = Normal results ->
       exists payload,
         processStores rawData config = Normal payload /\
         map Valid (stores payload) = filter isValid results /\
         List.length results = List.length recs /\
         List.length (stores payload)
           = List.length recs - rejected_count results)
    /\
    (forall payload,
       processStores rawData config = Normal payload ->
       exists results,
         mapM (normalize_record rawData config) recs = Normal results /\
         stores payload = filter_valid results).
Proof.
  intros rawData config recs Hs.
  pose proof (processStores_records rawData config recs Hs) as Hp.
  unfold stores_of in Hp.
  split.
  - intros results Hm. rewrite Hm in Hp. cbn [bind] in Hp.
    destruct (processStores rawData config) as [payload | ]; cbn [bind] in Hp;
      [ | discriminate ].
    injection Hp as Hp. exists payload.
    pose proof (mapM_length _ _ _ Hm) as Hlen.
    rewrite Hp, filter_valid_filter, filter_valid_length, Hlen. auto.
  - intros payload Hpay. rewrite Hpay in Hp. cbn [bind] in Hp.
    destruct (mapM (normalize_record rawData config) recs) as [results | ];
      cbn [bind] in Hp; [ | discriminate ].
    injection Hp as Hp. eauto.
Qed.


Lemma C6_survivors_in_source_order_witness :
  exists payload,
    processStores scenario_columnar workerConfig = Normal payload
    /\ List.length (stores payload) = 2 - 1
    /\ map name (stores payload) = [text "A"]
    /\ lastUpdated payload = text "2024-01-01".
Proof.
  destruct (C6_survivors_in_source_order scenario_columnar workerConfig
              _ eq_refl) as [H _].
  destruct (H _ eq_refl) as (payload & Hp & _ & _ & Hlen).
  exists payload. split; [ exact Hp | ]. split; [ exact Hlen | ].
  vm_compute in Hp. injection Hp as <-. split; reflexivity.
Defined.

(** ** C8 *)

(** C8.  For a legacy array whose first element lets [last_updated] be
    read: ingestion is the normalization of every element, the first
    included, followed by the filter; the first element is in the store list
    exactly when it is accepted, and then it comes first.  The timestamp is
    the first element's [last_updated] when that is truthy, and the empty
    string when the field is missing. *)
Theorem C8_legacy_timestamp_from_first_element :
  forall (first : JValue) (rest : list JValue) (config : Config) (lu : JValue),
    GetData first Raw.last_updated = Normal lu ->
    processStores (JArr (first :: rest)) config =
      (r0 <- normalizeStoreData (Data first) config ;;
       rs <- mapM (fun store => normalizeStoreData (Data store) config) rest ;;
       Normal {| stores := filter_valid [r0] ++ filter_valid rs;
                 lastUpdated := if ToBoolean lu then lu else JStr [] |})
    /\
    (forall payload,
       processStores (JArr (first :: rest)) config = Normal payload ->
       (ToBoolean lu = true -> lastUpdated payload = lu) /\
       (lu = JUndefined -> lastUpdated payload = JStr []) /\
       (forall s0,
          normalizeStoreData (Data first) config = Normal (Valid s0) ->
          exists others, stores payload = s0 :: others) /\
       (normalizeStoreData (Data first) config = Normal Invalid ->
        List.length (stores payload) <= List.length rest)).
Proof.
  intros first rest config lu Hlu.
  assert (Heq : processStores (JArr (first :: rest)) config =
      (r0 <- normalizeStoreData (Data first) config ;;
       rs <- mapM (fun store => normalizeStoreData (Data store) config) rest ;;
       Normal {| stores := filter_valid [r0] ++ filter_valid rs;
                 lastUpdated := if ToBoolean lu then lu else JStr [] |})).
  { rewrite processStores_legacy, Hlu. cbn [bind mapM].
    destruct (normalizeStoreData (Data first) config) as [r0 | ];
      cbn [bind]; [ | reflexivity ].
    destruct (mapM (fun store => normalizeStoreData (Data store) config) rest);
      cbn [bind]; [ | reflexivity ].
    destruct r0; reflexivity. }
  split; [ exact Heq | ].
  intros payload Hp. rewrite Heq in Hp.
  destruct (normalizeStoreData (Data first) config) as [r0 | ];
    cbn [bind] in Hp; [ | discriminate ].
  destruct (mapM (fun store => normalizeStoreData (Data store) config) rest)
    as [rs | ] eqn:Hm; cbn [bind] in Hp; [ | discriminate ].
  injection Hp as <-. cbn [lastUpdated stores].
  split; [ intros ->; reflexivity | ].
  split; [ intros ->; reflexivity | ].
  split.
  - intros s0 E. injection E as ->. cbn. eauto.
  - intros E. injection E as ->. cbn [filter_valid app].
    rewrite filter_valid_length, (mapM_length _ _ _ Hm). lia.
Qed.


Lemma C8_legacy_timestamp_from_first_element_witness :
  exists payload,
    processStores (JArr [scenario_legacy_first]) workerConfig = Normal payload
    /\ lastUpdated payload = text "2024-02-02"
    /\ map name (stores payload) = [text "C"]
    /\ map isSpecialShape (stores payload) = [true]
    /\ map displayColor (stores payload) = [CONFIG.COLORS.RED].
Proof.
  destruct (C8_legacy_timestamp_from_first_element scenario_legacy_first []
              workerConfig (text "2024-02-02") eq_refl) as [Heq Hpay].
  eexists. split; [ rewrite Heq; vm_compute; reflexivity | ].
  repeat split.
Defined.

(** ** C3 *)

(** C3 at its failing input.  With the key [__proto__] the assignment
    [storeObj[key] = row[index]] installs the row's value as the prototype
    of [storeObj] instead of defining a property, and [rawStore.py] is then
    found through it; [JSON.parse] makes [__proto__] an ordinary property of
    the flat object.  The columnar payload yields a store, the flat array
    none. *)
Lemma C3_proto_key_breaks_round_trip :
  let keys := [js "__proto__"] in
  let rows := [[JObj [(js "py", text "25.03"); (js "px", text "121.5")]]] in
  legacy_payload keys rows
    = JArr [JObj [(js "__proto__",
                   JObj [(js "py", text "25.03"); (js "px", text "121.5")])]]
  /\ (exists s,
        stores_of (processStores (columnar_payload keys rows) workerConfig)
          = Normal [s]
        /\ latitude s = number_of_decimal false 2503 (-2))
  /\ stores_of (processStores (legacy_payload keys rows) workerConfig)
       = Normal [].
Proof.
  cbv zeta. split; [ reflexivity | ]. split.
  - eexists. split; [ vm_compute; reflexivity | reflexivity ].
  - vm_compute. reflexivity.
Qed.

Lemma skipn_cons_nth {A : Type} (i : nat) (l : list A) (d : A) :
  i < List.length l -> skipn i l = nth i l d :: skipn (S i) l.
Proof.
  revert l. induction i as [ | i IH]; intros [ | a l] H; cbn in *;
    try lia; [ reflexivity | ].
  apply IH. lia.
Qed.

(** Without [__proto__] among the keys the loop defines one property per
    key. *)
Lemma assign_columns_plain (keys : list jsstring) (index : nat)
  (row : list JValue) (storeObj : Object) :
  ~ In (js "__proto__") keys ->
  index + List.length keys <= List.length row ->
  assign_columns (map JStr keys) index (JArr row) storeObj =
    Normal {| own := own storeObj ++ combine keys (skipn index row);
              proto := proto storeObj |}.
Proof.
  revert index storeObj. induction keys as [ | k keys IH];
    intros index storeObj Hk Hlen.
  - cbn. rewrite app_nil_r. destruct storeObj; reflexivity.
  - cbn [map assign_columns GetIndex ToString bind].
    cbn [List.length] in Hlen.
    rewrite IH; [ | intros H; apply Hk; right; exact H | lia ].
    unfold SetProperty.
    rewrite (str_eqb_neq k (js "__proto__"))
      by (intros ->; apply Hk; left; reflexivity).
    cbn [andb own proto].
    rewrite (skipn_cons_nth index row JUndefined) by lia.
    cbn [combine]. rewrite <- app_assoc. reflexivity.
Qed.

Lemma Get_plain_object (members : list (jsstring * JValue)) (f : Raw.Field) :
  Get (Obj {| own := members; proto := ObjectPrototype |}) f
    = Get (Data (JObj members)) f.
Proof.
  cbn. unfold own_or_undefined.
  destruct (lookup (Raw.name_of f) members); reflexivity.
Qed.

(** [normalizeStoreData] sees its argument through property reads only. *)
Lemma normalize_ext (a b : Value) (config : Config) :
  (forall f, Get a f = Get b f) ->
  normalizeStoreData a config = normalizeStoreData b config.
Proof.
  intros H. unfold normalizeStoreData, hasCoordinates.
  rewrite !H. reflexivity.
Qed.

(** X1.  The round trip the code does deliver: when no key is [__proto__]
    and every row has a value for each key, the columnar payload and the
    flat array of zipped objects yield the same stores, or fail alike. *)
Theorem round_trip_without_proto_key :
  forall (keys : list jsstring) (rows : list (list JValue)) (config : Config),
    ~ In (js "__proto__") keys ->
    Forall (fun row => List.length keys <= List.length row) rows ->
    stores_of (processStores (columnar_payload keys rows) config)
      = stores_of (processStores (legacy_payload keys rows) config).
Proof.
  intros keys rows config Hk Hrows.
  rewrite (processStores_records (columnar_payload keys rows) config
             (map JArr rows)) by reflexivity.
  rewrite (processStores_records (legacy_payload keys rows) config
             (map (zip_object keys) rows)) by reflexivity.
  rewrite !mapM_map. f_equal. apply mapM_ext.
  intros row Hin. rewrite Forall_forall in Hrows. specialize (Hrows row Hin).
  unfold normalize_record, columnar_payload, legacy_payload.
  change (own_or_undefined (js "keys")
            [(js "keys", JArr (map JStr keys));
             (js "data", JArr (map JArr rows))])
    with (JArr (map JStr keys)).
  cbn [forEach_key].
  rewrite assign_columns_plain by (cbn; auto).
  cbn [bind own proto app skipn]. unfold zip_object.
  apply normalize_ext. apply Get_plain_object.
Qed.

(** Three keys, two rows, the second with a latitude that does not parse. *)
Lemma round_trip_without_proto_key_witness :
  stores_of
    (processStores
       (columnar_payload [js "NAME"; js "py"; js "px"]
          [[text "A"; text "25.03"; text "121.5"];
           [text "B"; text "bad"; text "121.5"]]) workerConfig)
  = stores_of
      (processStores
         (legacy_payload [js "NAME"; js "py"; js "px"]
            [[text "A"; text "25.03"; text "121.5"];
             [text "B"; text "bad"; text "121.5"]]) workerConfig).
Proof.
  apply round_trip_without_proto_key.
  - cbn. intros [H | [H | [H | []]]]; vm_compute in H; discriminate.
  - repeat constructor.
Defined.

(** ** C9 *)

Lemma replace_all_app (c : N) (r a b : jsstring) :
  replace_all c r (a ++ b) = replace_all c r a ++ replace_all c r b.
Proof.
  induction a as [ | x a IH]; cbn; [ reflexivity | ].
  rewrite IH, app_assoc. reflexivity.
Qed.

(** The five passes, run one after the other, do to each character what a
    single pass would: the entities written by the first pass contain none
    of the characters the later passes look for, and the ampersand pass runs
    before any entity exists. *)
Lemma escape_string_cons (x : N) (s : jsstring) :
  escape_string (x :: s) = escape_char x ++ escape_string s.
Proof.
  unfold escape_string, escape_char. cbn [replace_all].
  rewrite !replace_all_app. f_equal.
  destruct (N.eqb x 38) eqn:E38; [ reflexivity | ].
  cbn [replace_all app].
  destruct (N.eqb x 60) eqn:E60; [ reflexivity | ].
  cbn [replace_all app].
  destruct (N.eqb x 62) eqn:E62; [ reflexivity | ].
  cbn [replace_all app].
  destruct (N.eqb x 34) eqn:E34; [ reflexivity | ].
  cbn [replace_all app].
  destruct (N.eqb x 39) eqn:E39; reflexivity.
Qed.

Lemma escape_string_flat_map (s : jsstring) :
  escape_string s = flat_map escape_char s.
Proof.
  induction s as [ | x s IH]; [ reflexivity | ].
  rewrite escape_string_cons, IH. reflexivity.
Qed.

Lemma count_app (c : N) (a b : jsstring) :
  count c (a ++ b) = count c a + count c b.
Proof. apply count_occ_app. Qed.

Lemma count_cons_neq (c x : N) (s : jsstring) :
  x <> c -> count c (x :: s) = count c s.
Proof. intros H. unfold count. apply count_occ_cons_neq. exact H. Qed.

Lemma escape_char_no_angle (x : N) :
  count lt_sign (escape_char x) = 0 /\ count gt_sign (escape_char x) = 0.
Proof.
  unfold escape_char.
  destruct (N.eqb x 38); [ split; reflexivity | ].
  destruct (N.eqb_spec x 60); [ split; reflexivity | ].
  destruct (N.eqb_spec x 62); [ split; reflexivity | ].
  destruct (N.eqb x 34); [ split; reflexivity | ].
  destruct (N.eqb x 39); [ split; reflexivity | ].
  split; rewrite count_cons_neq by assumption; reflexivity.
Qed.

Lemma escape_string_no_angle (s : jsstring) :
  count lt_sign (escape_string s) = 0 /\ count gt_sign (escape_string s) = 0.
Proof.
  rewrite escape_string_flat_map.
  induction s as [ | x s [IH1 IH2]]; [ split; reflexivity | ].
  cbn [flat_map]. rewrite !count_app, IH1, IH2.
  destruct (escape_char_no_angle x) as [-> ->]. split; reflexivity.
Qed.

Lemma escapeHtml_no_angle (v : JValue) (s : jsstring) :
  escapeHtml v = Normal s ->
  count lt_sign s = 0 /\ count gt_sign s = 0.
Proof.
  unfold escapeHtml. destruct (negb (ToBoolean v)).
  - intros H. injection H as <-. split; reflexivity.
  - destruct (ToString v); cbn [bind]; [ | discriminate ].
    intros H. injection H as <-. apply escape_string_no_angle.
Qed.

Lemma hex_digit_no_angle (n : N) :
  hex_digit n <> lt_sign /\ hex_digit n <> gt_sign.
Proof.
  unfold hex_digit, lt_sign, gt_sign.
  destruct (N.ltb_spec n 10); split; lia.
Qed.

Lemma percent_no_angle (bytes : list N) :
  count lt_sign (flat_map percent bytes) = 0 /\
  count gt_sign (flat_map percent bytes) = 0.
Proof.
  induction bytes as [ | b bytes [IH1 IH2]]; [ split; reflexivity | ].
  cbn [flat_map]. rewrite !count_app, IH1, IH2. unfold percent.
  destruct (hex_digit_no_angle (b / 16)) as [H1 H2].
  destruct (hex_digit_no_angle (b mod 16)) as [H3 H4].
  split; rewrite !count_cons_neq by (assumption || discriminate);
    reflexivity.
Qed.

Lemma unreserved_no_angle (c : N) :
  is_uri_unreserved c = true -> c <> lt_sign /\ c <> gt_sign.
Proof.
  intros H. split; intros ->; vm_compute in H; discriminate.
Qed.

Lemma encode_units_no_angle (s u : jsstring) :
  encode_units s = Normal u ->
  count lt_sign u = 0 /\ count gt_sign u = 0.
Proof.
  remember (List.length s) as n eqn:Hn.
  assert (Hle : List.length s <= n) by lia. clear Hn.
  revert s u Hle. induction n as [ | n IH]; intros s u Hle.
  - destruct s; [ | cbn in Hle; lia ].
    intros H. injection H as <-. split; reflexivity.
  - destruct s as [ | c s]; [ intros H; injection H as <-; split; reflexivity | ].
    cbn [List.length] in Hle. cbn [encode_units].
    destruct (is_uri_unreserved c) eqn:U.
    + destruct (encode_units s) as [r | ] eqn:E; cbn [bind]; [ | discriminate ].
      intros H. injection H as <-.
      destruct (IH s r ltac:(lia) E) as [H1 H2].
      destruct (unreserved_no_angle c U) as [N1 N2].
      split; rewrite count_cons_neq by assumption; assumption.
    + destruct (is_low_surrogate c); [ discriminate | ].
      destruct (is_high_surrogate c).
      * destruct s as [ | d s]; [ discriminate | ].
        destruct (is_low_surrogate d); [ | discriminate ].
        cbn [List.length] in Hle.
        destruct (encode_units s) as [r | ] eqn:E; cbn [bind];
          [ | discriminate ].
        intros H. injection H as <-.
        destruct (IH s r ltac:(lia) E) as [H1 H2].
        rewrite !count_app, H1, H2.
        match goal with
        | |- context [flat_map percent ?b] =>
            destruct (percent_no_angle b) as [-> ->]
        end.
        split; reflexivity.
      * destruct (encode_units s) as [r | ] eqn:E; cbn [bind];
          [ | discriminate ].
        intros H. injection H as <-.
        destruct (IH s r ltac:(lia) E) as [H1 H2].
        rewrite !count_app, H1, H2.
        destruct (percent_no_angle (utf8_encode c)) as [-> ->].
        split; reflexivity.
Qed.

Lemma encode_units_total (s : jsstring) :
  no_surrogate s = true -> exists u, encode_units s = Normal u.
Proof.
  induction s as [ | c s IH]; cbn [no_surrogate forallb encode_units];
    [ eauto | ].
  intros H. apply andb_prop in H. destruct H as [Hc Hs].
  destruct (IH Hs) as [u Hu]. rewrite Hu. cbn [bind].
  destruct (is_uri_unreserved c); [ eauto | ].
  apply negb_true_iff, orb_false_iff in Hc. destruct Hc as [-> ->]. eauto.
Qed.

(** How often [c] occurs in a popup, with the two places that hold the
    store's name set apart. *)
Lemma count_popup_template (c : N)
  (mapUrl safeName mapUrl' safeName' flavorClass colorStyle flavorHtml
   safeAddress safePhone : jsstring) :
  count c (popup_template mapUrl safeName flavorClass colorStyle flavorHtml
             safeAddress safePhone)
    + count c mapUrl' + count c safeName'
  = count c (popup_template mapUrl' safeName' flavorClass colorStyle
               flavorHtml safeAddress safePhone)
    + count c mapUrl + count c safeName.
Proof.
  unfold popup_template. cbn [List.concat].
  rewrite !count_app. lia.
Qed.

Lemma escapeHtml_text (s : jsstring) :
  escapeHtml (JStr s) = Normal (escape_string s).
Proof. destruct s; reflexivity. Qed.

Lemma encodeURIComponent_no_angle (v : JValue) (u : jsstring) :
  encodeURIComponent v = Normal u ->
  count lt_sign u = 0 /\ count gt_sign u = 0.
Proof.
  unfold encodeURIComponent. destruct (ToString v); cbn [bind];
    [ apply encode_units_no_angle | discriminate ].
Qed.

(** What a popup is made of, for any store. *)
Lemma popup_embeds_escaped_fields (store : StoreRecord) (popup : jsstring) :
  createStorePopupContent store = Normal popup ->
  exists safeName uri safeAddress safePhone flavorHtml,
    escapeHtml (name store) = Normal safeName /\
    encodeURIComponent (name store) = Normal uri /\
    escapeHtml (address store) = Normal safeAddress /\
    escapeHtml (phone store) = Normal safePhone /\
    escapeHtml (flavorType store) = Normal flavorHtml /\
    popup =
      popup_template
        (js "https://www.google.com/maps/search/" ++ uri)
        safeName
        (if isSpecialShape store
         then CONFIG.CSS_CLASSES.POPUP_FLAVOR ++ js " "
              ++ CONFIG.CSS_CLASSES.POPUP_FLAVOR_MULTILINE
         else CONFIG.CSS_CLASSES.POPUP_FLAVOR)
        (js "color: " ++ displayColor store ++ js ";")
        (if isSpecialShape store
         then replace_first (js " (") (js "<br>(") flavorHtml
         else flavorHtml)
        safeAddress safePhone.
Proof.
  unfold createStorePopupContent. intros H.
  destruct (escapeHtml (name store)) as [sn | ]; cbn [bind] in H;
    [ | discriminate ].
  destruct (encodeURIComponent (name store)) as [uri | ]; cbn [bind] in H;
    [ | discriminate ].
  destruct (escapeHtml (address store)) as [sa | ]; cbn [bind] in H;
    [ | discriminate ].
  destruct (escapeHtml (phone store)) as [sp | ]; cbn [bind] in H;
    [ | discriminate ].
  destruct (escapeHtml (flavorType store)) as [fh | ]; cbn [bind] in H;
    [ | discriminate ].
  exists sn, uri, sa, sp, fh. repeat (split; [ reflexivity | ]).
  destruct (isSpecialShape store); cbn [bind] in H;
    apply Normal_inj in H; subst popup; reflexivity.
Qed.

(** The number of raw angle brackets in a popup does not depend on the
    store's name. *)
Lemma popup_angle_count_ignores_name (store : StoreRecord) (other : JValue)
  (popup popup' : jsstring) :
  createStorePopupContent store = Normal popup ->
  createStorePopupContent (with_name other store) = Normal popup' ->
  count lt_sign popup = count lt_sign popup' /\
  count gt_sign popup = count gt_sign popup'.
Proof.
  unfold createStorePopupContent.
  cbn [with_name name address phone flavorType isSpecialShape displayColor].
  intros H H'.
  destruct (escapeHtml (name store)) as [sn | ] eqn:E1; cbn [bind] in H;
    [ | discriminate ].
  destruct (encodeURIComponent (name store)) as [uri | ] eqn:E2;
    cbn [bind] in H; [ | discriminate ].
  destruct (escapeHtml other) as [sn' | ] eqn:E1'; cbn [bind] in H';
    [ | discriminate ].
  destruct (encodeURIComponent other) as [uri' | ] eqn:E2';
    cbn [bind] in H'; [ | discriminate ].
  destruct (escapeHtml (address store)) as [sa | ]; cbn [bind] in H, H';
    [ | discriminate ].
  destruct (escapeHtml (phone store)) as [sp | ]; cbn [bind] in H, H';
    [ | discriminate ].
  destruct (escapeHtml (flavorType store)) as [fh | ]; cbn [bind] in H, H';
    [ | discriminate ].
  destruct (escapeHtml_no_angle _ _ E1) as [A1 A2].
  destruct (escapeHtml_no_angle _ _ E1') as [A1' A2'].
  destruct (encodeURIComponent_no_angle _ _ E2) as [B1 B2].
  destruct (encodeURIComponent_no_angle _ _ E2') as [B1' B2'].
  destruct (isSpecialShape store); cbn [bind] in H, H';
    apply Normal_inj in H; apply Normal_inj in H'; subst popup popup';
    split;
    match goal with
    | |- count ?c (popup_template ?u ?n ?fc ?cs ?f ?a ?p)
         = count ?c (popup_template ?u' ?n' _ _ _ _ _) =>
        pose proof (count_popup_template c u n u' n' fc cs f a p) as Hc;
        rewrite !count_app in Hc; lia
    end.
Qed.

(** The template around its five holes: what stands before the encoded
    name, between two fields, and after the phone. *)
Lemma popup_template_pieces
  (uri safeName flavorClass colorStyle flavorHtml safeAddress safePhone
   : jsstring) :
  popup_template (js "https://www.google.com/maps/search/" ++ uri) safeName
    flavorClass colorStyle flavorHtml safeAddress safePhone
  = (List.concat [
       nl; js "            <div class="; dq; js "store-popup"; dq; js ">";
       nl; js "                <b>";
       nl; js "                    <a href="; dq]
     ++ js "https://www.google.com/maps/search/")
    ++ uri
    ++ List.concat [
         dq; js " ";
         nl; js "                       target="; dq; js "_blank"; dq; js " ";
         nl; js "                       rel="; dq; js "noopener noreferrer"; dq; js " ";
         nl; js "                       class="; dq; CONFIG.CSS_CLASSES.POPUP_LINK; dq; js ">";
         nl; js "                        "]
    ++ safeName
    ++ List.concat [
         nl; js "                    </a>";
         nl; js "                </b><br>";
         nl; js "                <span class="; dq; flavorClass; dq; js " style="; dq; colorStyle; dq; js ">";
         nl; js "                    "]
    ++ flavorHtml
    ++ (List.concat [
          nl; js "                </span><br>";
          nl] ++ js "                地址: ")
    ++ safeAddress
    ++ (List.concat [js "<br>"; nl] ++ js "                電話: ")
    ++ safePhone
    ++ List.concat [
         nl; js "            </div>";
         nl; js "        "].
Proof.
  unfold popup_template. cbn [List.concat].
  rewrite ?app_nil_r. rewrite <- ?app_assoc. reflexivity.
Qed.

(** Every popup is made of six pieces of the template, which depend on the
    store through [isSpecialShape] and [displayColor] only, with the five
    fields between them, in this order: the encoded name, right after the
    address of the map search, the escaped name, the flavour text, the
    escaped address after its label and the escaped phone after its
    label. *)
Lemma popup_fields_in_order :
  exists frame : bool -> jsstring -> list jsstring,
    forall (store : StoreRecord) (popup : jsstring),
      createStorePopupContent store = Normal popup ->
      exists safeName uri safeAddress safePhone flavorHtml
             p0 p1 p2 p3 p4 p5 q0 q3 q4,
        frame (isSpecialShape store) (displayColor store)
          = [p0; p1; p2; p3; p4; p5] /\
        p0 = q0 ++ js "https://www.google.com/maps/search/" /\
        p3 = q3 ++ js "                地址: " /\
        p4 = q4 ++ js "                電話: " /\
        escapeHtml (name store) = Normal safeName /\
        encodeURIComponent (name store) = Normal uri /\
        escapeHtml (address store) = Normal safeAddress /\
        escapeHtml (phone store) = Normal safePhone /\
        escapeHtml (flavorType store) = Normal flavorHtml /\
        popup =
          p0 ++ uri ++ p1 ++ safeName ++ p2
          ++ (if isSpecialShape store
              then replace_first (js " (") (js "<br>(") flavorHtml
              else flavorHtml)
          ++ p3 ++ safeAddress ++ p4 ++ safePhone ++ p5.
Proof.
  exists (fun (special : bool) (color : jsstring) =>
    [ List.concat [
        nl; js "            <div class="; dq; js "store-popup"; dq; js ">";
        nl; js "                <b>";
        nl; js "                    <a href="; dq]
      ++ js "https://www.google.com/maps/search/";
      List.concat [
        dq; js " ";
        nl; js "                       target="; dq; js "_blank"; dq; js " ";
        nl; js "                       rel="; dq; js "noopener noreferrer"; dq; js " ";
        nl; js "                       class="; dq; CONFIG.CSS_CLASSES.POPUP_LINK; dq; js ">";
        nl; js "                        "];
      List.concat [
        nl; js "                    </a>";
        nl; js "                </b><br>";
        nl; js "                <span class="; dq;
        (if special
         then CONFIG.CSS_CLASSES.POPUP_FLAVOR ++ js " "
              ++ CONFIG.CSS_CLASSES.POPUP_FLAVOR_MULTILINE
         else CONFIG.CSS_CLASSES.POPUP_FLAVOR);
        dq; js " style="; dq; js "color: " ++ color ++ js ";"; dq; js ">";
        nl; js "                    "];
      List.concat [nl; js "                </span><br>"; nl]
      ++ js "                地址: ";
      List.concat [js "<br>"; nl] ++ js "                電話: ";
      List.concat [nl; js "            </div>"; nl; js "        "] ]).
  intros store popup H.
  destruct (popup_embeds_escaped_fields store popup H)
    as (safeName & uri & safeAddress & safePhone & flavorHtml
        & Hn & Hu & Ha & Hp & Hf & ->).
  exists safeName, uri, safeAddress, safePhone, flavorHtml.
  do 9 eexists.
  split; [ reflexivity | ].
  split; [ reflexivity | ].
  split; [ reflexivity | ].
  split; [ reflexivity | ].
  split; [ exact Hn | ]. split; [ exact Hu | ]. split; [ exact Ha | ].
  split; [ exact Hp | ]. split; [ exact Hf | ].
  apply popup_template_pieces.
Qed.

(** C9.  [escapeHtml] replaces each of the five characters by its entity
    and leaves every other character alone: its five passes, ampersand
    first, amount to one pass over the characters.  The popup of a store
    with string fields is the template filled with the escaped name,
    address and phone, the escaped flavour text (with a line break put
    before its first parenthesis when the store is special-shape) and the
    URI-encoded name in the link; it is produced whenever the name holds
    no surrogate code unit.  Every popup, of any store, is that template filled
    with what [escapeHtml] makes of the four fields.  Escaped text holds no
    raw angle bracket, and whatever the name, it adds none to the popup: two
    stores that differ in their names only have popups with the same number
    of each.  And the fields are really there: every popup consists of six
    pieces of the template, which depend on the store through
    [isSpecialShape] and [displayColor] only, and between them, in this
    order, the encoded name (right after the address of the map search),
    the escaped name, the escaped flavour text, the escaped address (after
    its label) and the escaped phone (after its label). *)
Theorem C9_escaping_and_popup :
  (forall s, escape_string s = flat_map escape_char s)
  /\
  (escape_char 38 = js "&amp;" /\ escape_char 60 = js "&lt;" /\
   escape_char 62 = js "&gt;" /\ escape_char 34 = js "&quot;" /\
   escape_char 39 = js "&#039;" /\
   forall c, ~ In c [38; 60; 62; 34; 39]%N -> escape_char c = [c])
  /\
  (forall nm ad ph fl mc lat lng special color,
     createStorePopupContent
       (text_store nm ad ph fl mc lat lng special color) =
       uri <- encode_units nm ;;
       Normal (popup_template
                 (js "https://www.google.com/maps/search/" ++ uri)
                 (escape_string nm)
                 (if special
                  then CONFIG.CSS_CLASSES.POPUP_FLAVOR ++ js " "
                       ++ CONFIG.CSS_CLASSES.POPUP_FLAVOR_MULTILINE
                  else CONFIG.CSS_CLASSES.POPUP_FLAVOR)
                 (js "color: " ++ color ++ js ";")
                 (if special
                  then replace_first (js " (") (js "<br>(") (escape_string fl)
                  else escape_string fl)
                 (escape_string ad)
                 (escape_string ph)))
  /\
  (forall nm ad ph fl mc lat lng special color,
     no_surrogate nm = true ->
     exists popup,
       createStorePopupContent
         (text_store nm ad ph fl mc lat lng special color) = Normal popup)
  /\
  (forall store popup,
     createStorePopupContent store = Normal popup ->
     exists safeName uri safeAddress safePhone flavorHtml,
       escapeHtml (name store) = Normal safeName /\
       encodeURIComponent (name store) = Normal uri /\
       escapeHtml (address store) = Normal safeAddress /\
       escapeHtml (phone store) = Normal safePhone /\
       escapeHtml (flavorType store) = Normal flavorHtml /\
       popup =
         popup_template
           (js "https://www.google.com/maps/search/" ++ uri)
           safeName
           (if isSpecialShape store
            then CONFIG.CSS_CLASSES.POPUP_FLAVOR ++ js " "
                 ++ CONFIG.CSS_CLASSES.POPUP_FLAVOR_MULTILINE
            else CONFIG.CSS_CLASSES.POPUP_FLAVOR)
           (js "color: " ++ displayColor store ++ js ";")
           (if isSpecialShape store
            then replace_first (js " (") (js "<br>(") flavorHtml
            else flavorHtml)
           safeAddress safePhone)
  /\
  (forall s, count lt_sign (escape_string s) = 0 /\
             count gt_sign (escape_string s) = 0)
  /\
  (forall store other popup popup',
     createStorePopupContent store = Normal popup ->
     createStorePopupContent (with_name other store) = Normal popup' ->
     count lt_sign popup = count lt_sign popup' /\
     count gt_sign popup = count gt_sign popup')
  /\
  (exists frame : bool -> jsstring -> list jsstring,
     forall (store : StoreRecord) (popup : jsstring),
       createStorePopupContent store = Normal popup ->
       exists safeName uri safeAddress safePhone flavorHtml
              p0 p1 p2 p3 p4 p5 q0 q3 q4,
         frame (isSpecialShape store) (displayColor store)
           = [p0; p1; p2; p3; p4; p5] /\
         p0 = q0 ++ js "https://www.google.com/maps/search/" /\
         p3 = q3 ++ js "                地址: " /\
         p4 = q4 ++ js "                電話: " /\
         escapeHtml (name store) = Normal safeName /\
         encodeURIComponent (name store) = Normal uri /\
         escapeHtml (address store) = Normal safeAddress /\
         escapeHtml (phone store) = Normal safePhone /\
         escapeHtml (flavorType store) = Normal flavorHtml /\
         popup =
           p0 ++ uri ++ p1 ++ safeName ++ p2
           ++ (if isSpecialShape store
               then replace_first (js " (") (js "<br>(") flavorHtml
               else flavorHtml)
           ++ p3 ++ safeAddress ++ p4 ++ safePhone ++ p5).
Proof.
  split; [ exact escape_string_flat_map | ].
  split.
  { repeat (split; [ reflexivity | ]).
    intros c Hc. unfold escape_char. cbn in Hc.
    repeat match goal with
    | |- context [N.eqb c ?k] =>
        destruct (N.eqb_spec c k); [ exfalso; apply Hc; subst; auto 6 | ]
    end.
    reflexivity. }
  assert (Htext : forall nm ad ph fl mc lat lng special color,
     createStorePopupContent
       (text_store nm ad ph fl mc lat lng special color) =
       uri <- encode_units nm ;;
       Normal (popup_template
                 (js "https://www.google.com/maps/search/" ++ uri)
                 (escape_string nm)
                 (if special
                  then CONFIG.CSS_CLASSES.POPUP_FLAVOR ++ js " "
                       ++ CONFIG.CSS_CLASSES.POPUP_FLAVOR_MULTILINE
                  else CONFIG.CSS_CLASSES.POPUP_FLAVOR)
                 (js "color: " ++ color ++ js ";")
                 (if special
                  then replace_first (js " (") (js "<br>(") (escape_string fl)
                  else escape_string fl)
                 (escape_string ad)
                 (escape_string ph))).
  { intros. unfold createStorePopupContent, text_store.
    cbn [name address phone flavorType isSpecialShape displayColor].
    rewrite !escapeHtml_text. cbn [bind].
    unfold encodeURIComponent. cbn [ToString bind].
    destruct (encode_units nm); cbn [bind]; [ | reflexivity ].
    destruct special; reflexivity. }
  split; [ exact Htext | ].
  split.
  { intros nm ad ph fl mc lat lng special color Hs. rewrite Htext.
    destruct (encode_units_total nm Hs) as [u ->]. cbn [bind]. eauto. }
  split; [ exact popup_embeds_escaped_fields | ].
  split; [ exact escape_string_no_angle | ].
  split; [ | exact popup_fields_in_order ].
  intros store other popup popup'. apply popup_angle_count_ignores_name.
Qed.

(** A name made of a script tag: the popup holds its escaped text, the
    link its URI-encoded text, the address, the phone and the flavour are
    there too, and the popup has as many raw angle brackets as the popup of
    the same store under the name [C]. *)
Lemma C9_escaping_and_popup_witness :
  escape_string (js "<script>") = js "&lt;script&gt;"
  /\ exists popup popup',
       createStorePopupContent
         (text_store (js "<script>") (js "Taipei") (js "02-1234") (js "單口味")
            (js "blue") (S754_zero false) (S754_zero false) false
            CONFIG.COLORS.BLUE) = Normal popup
       /\ createStorePopupContent
            (text_store (js "C") (js "Taipei") (js "02-1234") (js "單口味")
               (js "blue") (S754_zero false) (S754_zero false) false
               CONFIG.COLORS.BLUE) = Normal popup'
       /\ count lt_sign popup = count lt_sign popup'
       /\ count gt_sign popup = count gt_sign popup'
       /\ str_includes popup (js "&lt;script&gt;") = true
       /\ str_includes popup
            (js "https://www.google.com/maps/search/%3Cscript%3E") = true
       /\ str_includes popup (js "單口味") = true
       /\ str_includes popup (js "地址: Taipei<br>") = true
       /\ str_includes popup (js "電話: 02-1234") = true
       /\ str_includes popup (js "<script>") = false.
Proof.
  destruct C9_escaping_and_popup
    as (Hmap & _ & Hpopup & _ & _ & _ & Hcount & _).
  split; [ rewrite Hmap; reflexivity | ].
  eexists. eexists.
  split; [ rewrite Hpopup; cbn [encode_units bind]; vm_compute; reflexivity | ].
  split; [ rewrite Hpopup; vm_compute; reflexivity | ].
  vm_compute. repeat (split; [ reflexivity | ]). reflexivity.
Defined.

(** ** C7 *)

Lemma mapM_In_throws {A B : Type} (f : A -> Completion B) (xs : list A)
  (x : A) (e : JsError) :
  In x xs -> f x = Throw e -> exists e', mapM f xs = Throw e'.
Proof.
  induction xs as [ | a xs IH]; cbn; intros Hin Hf; [ destruct Hin | ].
  destruct (f a) as [b | e1] eqn:E; cbn [bind]; [ | eauto ].
  destruct Hin as [-> | Hin]; [ congruence | ].
  destruct (IH Hin Hf) as [e' ->]. cbn [bind]. eauto.
Qed.

Lemma source_records_shape (rawData : JValue) (recs : list JValue) :
  source_records rawData = Some recs -> passes_shape_test rawData = true.
Proof.
  destruct rawData; cbn [source_records passes_shape_test];
    try discriminate; [ reflexivity | ].
  destruct (own_or_undefined (js "data") members); try discriminate.
  destruct (ToBoolean (own_or_undefined (js "keys") members));
    [ reflexivity | discriminate ].
Qed.

Lemma mapM_Normal_Forall {A B : Type} (f : A -> Completion B) (xs : list A) :
  (exists ys, mapM f xs = Normal ys) <->
  Forall (fun x => exists y, f x = Normal y) xs.
Proof.
  induction xs as [ | x xs IH]; cbn [mapM].
  - split; [ constructor | eauto ].
  - split.
    + intros [ys H]. destruct (f x) as [y | e] eqn:E; cbn [bind] in H;
        [ | discriminate ].
      destruct (mapM f xs) as [ys' | e]; cbn [bind] in H; [ | discriminate ].
      constructor; [ eauto | ]. apply IH. eauto.
    + intros H. inversion H as [ | ? ? [y Hy] Hrest]; subst.
      apply IH in Hrest. destruct Hrest as [ys Hys].
      rewrite Hy, Hys. cbn [bind]. eauto.
Qed.

(** [String(v)] fails on an object with a member named [toString], on an
    array holding one, and on nothing else. *)
Lemma ToString_convertible (v : JValue) :
  (exists s, ToString v = Normal s) <-> convertible v = true.
Proof.
  induction v as [ | | b | n | s | elems IH | members _]
    using JValue_nested_ind.
  - cbn. split; [ reflexivity | eauto ].
  - cbn. split; [ reflexivity | eauto ].
  - destruct b; cbn; (split; [ reflexivity | eauto ]).
  - cbn. split; [ reflexivity | eauto ].
  - cbn. split; [ reflexivity | eauto ].
  - rewrite ToString_array. cbn [convertible]. rewrite forallb_forall.
    split.
    + intros [s H].
      destruct (mapM element_string elems) as [parts | e] eqn:E;
        cbn [bind] in H; [ | discriminate ].
      assert (Hall : Forall (fun x => exists y, element_string x = Normal y)
                       elems)
        by (apply mapM_Normal_Forall; eauto).
      rewrite Forall_forall in Hall, IH.
      intros x Hin. apply (proj1 (IH x Hin)).
      destruct (Hall x Hin) as [t Ht].
      destruct x; cbn in Ht |- *; eauto.
    + intros H.
      assert (Hall : Forall (fun x => exists y, element_string x = Normal y)
                       elems).
      { rewrite Forall_forall in IH |- *. intros x Hin.
        specialize (H x Hin). apply (proj2 (IH x Hin)) in H.
        destruct H as [t Ht]. destruct x; cbn in Ht |- *; eauto. }
      apply mapM_Normal_Forall in Hall. destruct Hall as [parts ->].
      cbn [bind]. eauto.
  - cbn [ToString convertible].
    destruct (has_own (js "toString") members); cbn [negb]; split.
    + intros [s H]. discriminate.
    + discriminate.
    + reflexivity.
    + eauto.
Qed.

Lemma parseFloat_convertible (v : JValue) :
  (exists n, parseFloat v = Normal n) <-> convertible v = true.
Proof.
  rewrite <- ToString_convertible. unfold parseFloat. split.
  - intros [n H]. destruct (ToString v); cbn [bind] in H;
      [ eauto | discriminate ].
  - intros [s ->]. cbn [bind]. eauto.
Qed.

Lemma primitive_convertible (v : JValue) :
  primitive v = true -> convertible v = true.
Proof. destruct v; cbn; congruence. Qed.

(** What [normalizeStoreData] does once the coordinate test is known. *)
Lemma normalize_after_test (rawStore : Value) (config : Config)
  (y ft mc : JValue) :
  Get rawStore Raw.py = Normal y ->
  Get rawStore Raw.flavorType = Normal ft ->
  Get rawStore Raw.markerColor = Normal mc ->
  match hasCoordinates rawStore with
  | Throw e => normalizeStoreData rawStore config = Throw e
  | Normal false => normalizeStoreData rawStore config = Normal Invalid
  | Normal true =>
      if text_or_falsy ft && text_or_falsy mc
      then exists s, normalizeStoreData rawStore config = Normal (Valid s)
      else normalizeStoreData rawStore config = Throw TypeError
  end.
Proof.
  intros Hy Hft Hmc.
  destruct (Get_total _ _ Raw.px _ Hy) as [x Hx].
  pose proof (normalize_inversion rawStore config y x Hy Hx) as Hinv.
  pose proof (hasCoordinates_spec rawStore y x Hy Hx) as Hc.
  destruct (hasCoordinates rawStore) as [[ | ] | e] eqn:E.
  - destruct (text_or_falsy ft) eqn:T1; cbn [andb].
    + destruct (text_or_falsy mc) eqn:T2.
      * destruct (ToBoolean y) eqn:Ty; cbn [negb] in Hc; [ | discriminate ].
        destruct (ToBoolean x) eqn:Tx; cbn [negb] in Hc; [ | discriminate ].
        destruct (parseFloat y) as [lat | ] eqn:Py; [ | discriminate ].
        destruct (isNaN lat) eqn:Nl; [ discriminate | ].
        destruct (parseFloat x) as [lng | ] eqn:Px; [ | discriminate ].
        destruct (isNaN lng) eqn:Ng; [ discriminate | ].
        destruct (includes_searchable _ specialShapeMarker
                    (text_or_falsy_searchable ft [] T1)) as [b1 E1].
        destruct (includes_searchable _ (js "red")
                    (text_or_falsy_searchable mc (MARKERS_DEFAULT config) T2))
          as [b2 E2].
        destruct (normalize_accepts rawStore config y x ft mc lat lng
                    Hy Hx Hft Hmc Ty Tx Py Px Nl Ng b1 b2 E1 E2)
          as (nm & ad & tel & _ & _ & _ & Hn).
        eauto.
      * unfold normalizeStoreData. rewrite E. cbn [bind negb].
        rewrite Hft. cbn [bind].
        destruct (includes_searchable _ specialShapeMarker
                    (text_or_falsy_searchable ft [] T1)) as [b1 ->].
        cbn [bind]. rewrite Hmc. cbn [bind].
        rewrite (includes_throws _ _
                   (not_text_or_falsy mc (MARKERS_DEFAULT config) T2)).
        reflexivity.
    + unfold normalizeStoreData. rewrite E. cbn [bind negb].
      rewrite Hft. cbn [bind].
      rewrite (includes_throws _ _ (not_text_or_falsy ft [] T1)).
      reflexivity.
  - unfold normalizeStoreData. rewrite E. reflexivity.
  - unfold normalizeStoreData. rewrite E. reflexivity.
Qed.

(** C7, where it fails: valid coordinates and a numeric [flavorType].
    [(5).includes] is not a function. *)
Lemma C7_numeric_flavorType_throws :
  normalizeStoreData
    (record [(js "py", text "25.03"); (js "px", text "121.5");
             (js "flavorType", JNum (number_of_decimal false 5 0))])
    workerConfig = Throw TypeError.
Proof. vm_compute. reflexivity. Qed.

(** C7 (as amended).  On a raw record whose properties can be read,
    [normalizeStoreData] returns (a rejection or a record) exactly when
    [py] or [px] is falsy, or [py] can be converted to a string and parses
    to [NaN], or [px] can be converted too and parses to [NaN], or both
    parse to Numbers and [flavorType] and [markerColor] are each falsy, a
    string or an array; [parseFloat] converts exactly the values that are
    not an object with a member named [toString] nor an array holding one,
    every primitive value among them; so it returns whenever [py] and [px]
    are such values and [flavorType] and [markerColor] are each falsy, a
    string or an array.  With valid coordinates and any other
    [flavorType] or [markerColor] it throws; whatever it throws is a
    [TypeError]; and a payload that hands the record to
    [normalizeStoreData] is then not ingested: the worker posts an [ERROR]
    message.  The outcome depends on the record through the values of its
    properties only. *)
Theorem C7_normalize_total_on_text_records :
  forall (rawStore : Value) (config : Config) (y x ft mc : JValue),
    Get rawStore Raw.py = Normal y ->
    Get rawStore Raw.px = Normal x ->
    Get rawStore Raw.flavorType = Normal ft ->
    Get rawStore Raw.markerColor = Normal mc ->
    ((normalizeStoreData rawStore config = Normal Invalid \/
      exists s, normalizeStoreData rawStore config = Normal (Valid s))
     <->
     (ToBoolean y = false \/ ToBoolean x = false \/
      exists lat, parseFloat y = Normal lat /\
        (isNaN lat = true \/
         exists lng, parseFloat x = Normal lng /\
           (isNaN lng = true \/
            text_or_falsy ft = true /\ text_or_falsy mc = true))))
    /\
    (forall v,
       ((exists n, parseFloat v = Normal n) <-> convertible v = true) /\
       (primitive v = true -> convertible v = true))
    /\
    (convertible y = true -> convertible x = true ->
     text_or_falsy ft = true -> text_or_falsy mc = true ->
       normalizeStoreData rawStore config = Normal Invalid \/
       exists s, normalizeStoreData rawStore config = Normal (Valid s))
    /\
    (hasCoordinates rawStore = Normal true ->
     text_or_falsy ft = false \/ text_or_falsy mc = false ->
       normalizeStoreData rawStore config = Throw TypeError)
    /\
    (forall e, normalizeStoreData rawStore config = Throw e -> e = TypeError)
    /\
    (forall (e : JsError) (rawData : JValue) (recs : list JValue)
            (rec : JValue) (statusText : jsstring),
       normalizeStoreData rawStore config = Throw e ->
       source_records rawData = Some recs ->
       In rec recs ->
       normalize_record rawData config rec
         = normalizeStoreData rawStore config ->
       fetchAndProcessStores config
         (Response true statusText (Normal rawData)) = ERROR TypeError)
    /\
    (forall other : Value,
       (forall f, Get other f = Get rawStore f) ->
       normalizeStoreData other config = normalizeStoreData rawStore config).
Proof.
  intros rawStore config y x ft mc Hy Hx Hft Hmc.
  pose proof (normalize_after_test rawStore config y ft mc Hy Hft Hmc) as Hn.
  pose proof (hasCoordinates_spec rawStore y x Hy Hx) as Hc.
  assert (HA :
    (normalizeStoreData rawStore config = Normal Invalid \/
      exists s, normalizeStoreData rawStore config = Normal (Valid s))
     <->
     (ToBoolean y = false \/ ToBoolean x = false \/
      exists lat, parseFloat y = Normal lat /\
        (isNaN lat = true \/
         exists lng, parseFloat x = Normal lng /\
           (isNaN lng = true \/
            text_or_falsy ft = true /\ text_or_falsy mc = true)))).
  { destruct (ToBoolean y) eqn:Ty; cbn [negb] in Hc.
    2:{ rewrite Hc in Hn. split; auto. }
    destruct (ToBoolean x) eqn:Tx; cbn [negb] in Hc.
    2:{ rewrite Hc in Hn. split; auto. }
    destruct (parseFloat y) as [lat | e1] eqn:Py.
    2:{ rewrite Hc in Hn. split.
        - intros [H | [s H]]; congruence.
        - intros [H | [H | (lat & H & _)]]; discriminate. }
    destruct (isNaN lat) eqn:Nl.
    { rewrite Hc in Hn. split; [ | auto ].
      intros _. right. right. exists lat. auto. }
    destruct (parseFloat x) as [lng | e2] eqn:Px.
    2:{ rewrite Hc in Hn. split.
        - intros [H | [s H]]; congruence.
        - intros [H | [H | (lat' & H & [H' | (lng & H' & _)])]];
            try discriminate.
          injection H as <-. congruence. }
    destruct (isNaN lng) eqn:Ng; cbn [negb] in Hc.
    { rewrite Hc in Hn. split; [ | auto ].
      intros _. right. right. exists lat. split; [ reflexivity | ].
      right. exists lng. auto. }
    rewrite Hc in Hn.
    destruct (text_or_falsy ft) eqn:T1; cbn [andb] in Hn.
    - destruct (text_or_falsy mc) eqn:T2.
      + split; [ | auto ].
        intros _. right. right. exists lat. split; [ reflexivity | ].
        right. exists lng. auto.
      + split.
        * intros [H | [s H]]; congruence.
        * intros [H | [H | (lat' & H & [H' | (lng' & H' & [H'' | [_ H'']])])]];
            try discriminate.
          -- injection H as <-. congruence.
          -- injection H' as <-. congruence.
    - split.
      + intros [H | [s H]]; congruence.
      + intros [H | [H | (lat' & H & [H' | (lng' & H' & [H'' | [H'' _]])])]];
          try discriminate.
        * injection H as <-. congruence.
        * injection H' as <-. congruence. }
  split; [ exact HA | ].
  split; [ | split; [ | split; [ | split; [ | split ] ] ] ].
  - intros v. split;
      [ apply parseFloat_convertible | apply primitive_convertible ].
  - intros Cy Cx T1 T2. apply HA.
    apply parseFloat_convertible in Cy. destruct Cy as [lat Py].
    apply parseFloat_convertible in Cx. destruct Cx as [lng Px].
    right. right. exists lat. split; [ exact Py | ].
    right. exists lng. auto.
  - intros Ht Hbad. rewrite Ht in Hn.
    destruct (text_or_falsy ft); cbn [andb] in Hn; [ | exact Hn ].
    destruct (text_or_falsy mc); [ | exact Hn ].
    destruct Hbad; discriminate.
  - intros e. apply normalize_throws.
  - intros e rawData recs rec statusText Hthrow Hs Hin Hrec.
    rewrite Hthrow in Hrec.
    destruct (mapM_In_throws _ _ _ _ Hin Hrec) as [e' Hm].
    pose proof (processStores_records rawData config recs Hs) as Hp.
    rewrite Hm in Hp. cbn [bind] in Hp.
    unfold fetchAndProcessStores. cbn [negb bind].
    destruct (processStores rawData config) as [p | e''] eqn:E;
      [ discriminate | ].
    rewrite (processStores_shape_errors rawData config e''
               (source_records_shape _ _ Hs) E).
    reflexivity.
  - intros other Hsame. apply normalize_ext. exact Hsame.
Qed.

(** A record whose coordinates are arrays of one string each is not
    raised: [String] joins the elements of an array.  A payload that holds
    the record with a numeric flavour is not ingested. *)
Lemma C7_normalize_total_on_text_records_witness :
  (normalizeStoreData
     (record [(js "py", JArr [text "25.03"]); (js "px", JArr [text "121.5"]);
              (js "flavorType", text "單口味")])
     workerConfig = Normal Invalid
   \/ exists s,
        normalizeStoreData
          (record [(js "py", JArr [text "25.03"]);
                   (js "px", JArr [text "121.5"]);
                   (js "flavorType", text "單口味")])
          workerConfig = Normal (Valid s))
  /\
  fetchAndProcessStores workerConfig
    (Response true (js "OK")
       (Normal
          (JArr [JObj [(js "py", text "25.03"); (js "px", text "121.5");
                       (js "flavorType",
                        JNum (number_of_decimal false 5 0))]])))
    = ERROR TypeError.
Proof.
  split.
  - destruct (C7_normalize_total_on_text_records
                (record [(js "py", JArr [text "25.03"]);
                         (js "px", JArr [text "121.5"]);
                         (js "flavorType", text "單口味")])
                workerConfig (JArr [text "25.03"]) (JArr [text "121.5"])
                (text "單口味") JUndefined eq_refl eq_refl eq_refl eq_refl)
      as (_ & _ & Hreturns & _).
    apply Hreturns; reflexivity.
  - destruct (C7_normalize_total_on_text_records
                (record [(js "py", text "25.03"); (js "px", text "121.5");
                         (js "flavorType",
                          JNum (number_of_decimal false 5 0))])
                workerConfig (text "25.03") (text "121.5")
                (JNum (number_of_decimal false 5 0)) JUndefined
                eq_refl eq_refl eq_refl eq_refl)
      as (_ & _ & _ & _ & _ & Hingestion & _).
    apply (Hingestion TypeError
             (JArr [JObj [(js "py", text "25.03"); (js "px", text "121.5");
                          (js "flavorType",
                           JNum (number_of_decimal false 5 0))]])
             [JObj [(js "py", text "25.03"); (js "px", text "121.5");
                    (js "flavorType", JNum (number_of_decimal false 5 0))]]
             (JObj [(js "py", text "25.03"); (js "px", text "121.5");
                    (js "flavorType", JNum (number_of_decimal false 5 0))])
             (js "OK")).
    + vm_compute. reflexivity.
    + reflexivity.
    + left. reflexivity.
    + reflexivity.
Defined.

(* ===================================================================== *)
(** * Further properties *)
(* ===================================================================== *)

Import Behaviour.

(** ** The stores of a [SUCCESS] message *)

Lemma mapM_In {A B : Type} (f : A -> Completion B) (xs : list A) (ys : list B)
  (y : B) :
  mapM f xs = Normal ys -> In y ys -> exists x, In x xs /\ f x = Normal y.
Proof.
  revert ys. induction xs as [ | x xs IH]; cbn; intros ys H Hin.
  - injection H as <-. destruct Hin.
  - destruct (f x) as [b | ] eqn:E; cbn in H; [ | discriminate ].
    destruct (mapM f xs) as [bs | ]; cbn in H; [ | discriminate ].
    injection H as <-. destruct Hin as [<- | Hin].
    + eauto.
    + destruct (IH bs eq_refl Hin) as (x' & Hx & Hf). eauto.
Qed.

Lemma filter_valid_In (results : list Normalized) (s : StoreRecord) :
  In s (filter_valid results) <-> In (Valid s) results.
Proof.
  induction results as [ | [ | s'] rest IH]; cbn.
  - tauto.
  - rewrite IH. split; [ auto | intros [H | H]; [ discriminate | exact H ] ].
  - rewrite IH. split; intros [H | H]; auto; [ left; congruence | ].
    left. congruence.
Qed.

Lemma processStores_source (rawData : JValue) (config : Config)
  (payload : Payload) :
  processStores rawData config = Normal payload ->
  exists recs, source_records rawData = Some recs.
Proof.
  intros H.
  destruct (passes_shape_test rawData) eqn:S.
  - destruct rawData; try discriminate; cbn [source_records].
    + eauto.
    + cbn [passes_shape_test] in S. apply andb_prop in S. destruct S as [K D].
      rewrite K.
      destruct (own_or_undefined (js "data") members); try discriminate.
      eauto.
  - assert (Hthrow : exists e, processStores rawData config = Throw e).
    { destruct rawData;
        try (eexists; reflexivity);
        try discriminate;
        (eexists; apply processStores_format_error;
         [ discriminate | discriminate | exact S ]). }
    destruct Hthrow as [e He]. congruence.
Qed.

Lemma normalize_record_value (rawData : JValue) (config : Config)
  (rec : JValue) (r : Normalized) :
  normalize_record rawData config rec = Normal r ->
  exists rawStore, normalizeStoreData rawStore config = Normal r.
Proof.
  unfold normalize_record. destruct rawData; eauto.
  destruct (forEach_key _ rec); cbn [bind]; [ eauto | discriminate ].
Qed.

Lemma normalize_invariant (rawStore : Value) (config : Config)
  (s : StoreRecord) :
  normalizeStoreData rawStore config = Normal (Valid s) ->
  store_invariant config s.
Proof.
  intros Hn.
  destruct (normalize_markerColor_searchable _ _ _ Hn) as [Sm Sf].
  assert (Hn' := Hn). apply normalize_valid_inv in Hn'.
  destruct Hn' as (y & x & ft & mc & nm & ad & tel & lat & lng & sp & red
                  & Hy & Hx & _ & _ & _ & _ & _ & Py & Px & Hs & Hr & E).
  pose proof (normalize_inversion rawStore config y x Hy Hx) as Hinv.
  rewrite Hn in Hinv. destruct Hinv as (Hc & Py' & Px').
  rewrite (hasCoordinates_spec _ _ _ Hy Hx) in Hc.
  destruct (ToBoolean y); cbn [negb] in Hc; [ | discriminate ].
  destruct (ToBoolean x); cbn [negb] in Hc; [ | discriminate ].
  rewrite Py', Px' in Hc.
  destruct (isNaN (latitude s)) eqn:N1; [ discriminate | ].
  destruct (isNaN (longitude s)) eqn:N2; [ discriminate | ].
  subst s. cbn [name latitude longitude address phone flavorType markerColor
                isSpecialShape displayColor] in *.
  unfold store_invariant.
  cbn [name latitude longitude address phone flavorType markerColor
       isSpecialShape displayColor].
  assert (Hor : forall v, or_else v (JStr []) = JStr [] \/
                          ToBoolean (or_else v (JStr [])) = true).
  { intros v. unfold or_else. destruct (ToBoolean v) eqn:T; auto. }
  repeat (split; [ first [ assumption | apply Hor | idtac ] | ]).
  - unfold or_else. destruct (ToBoolean nm) eqn:T; [ exact T | reflexivity ].
  - destruct red; [ left | right ]; split; trivial.
Qed.

(** X4.  Every store of a [SUCCESS] message is well formed: its name is
    truthy, its latitude and longitude are not [NaN], its address and phone
    are the empty string or truthy (never [undefined] or [null]), its
    flavour and marker colour are strings or arrays, [isSpecialShape] is
    the outcome of the search for the special-shape marker and
    [displayColor] is the red colour of the configuration when the marker
    colour includes [red] and the blue one otherwise. *)
Theorem success_stores_satisfy_invariant :
  forall (config : Config) (fetched : FetchOutcome) (payload : Payload)
         (s : StoreRecord),
    fetchAndProcessStores config fetched = SUCCESS payload ->
    In s (stores payload) ->
    store_invariant config s.
Proof.
  intros config fetched payload s H Hin.
  unfold fetchAndProcessStores in H.
  destruct fetched as [e | ok st json]; [ discriminate | ].
  destruct (negb ok); [ discriminate | ].
  destruct json as [rawData | e]; cbn [bind] in H; [ | discriminate ].
  destruct (processStores rawData config) as [p | e] eqn:E; [ | discriminate ].
  injection H as ->.
  destruct (processStores_source _ _ _ E) as [recs Hs].
  pose proof (processStores_records rawData config recs Hs) as Hp.
  unfold stores_of in Hp. rewrite E in Hp. cbn [bind] in Hp.
  destruct (mapM (normalize_record rawData config) recs) as [results | ]
    eqn:Hm; cbn [bind] in Hp; [ | discriminate ].
  injection Hp as Hp. rewrite Hp in Hin.
  apply filter_valid_In in Hin.
  destruct (mapM_In _ _ _ _ Hm Hin) as (rec & _ & Hrec).
  destruct (normalize_record_value _ _ _ _ Hrec) as [rawStore Hn].
  exact (normalize_invariant _ _ _ Hn).
Qed.

(** ** All or nothing *)

(** X5.  Ingestion is all or nothing: when normalizing one record of the
    payload throws, wherever it stands among the records, the worker posts
    no store at all but an [ERROR] message, and the error is a
    [TypeError]. *)
Theorem one_throwing_record_fails_the_ingestion :
  forall (config : Config) (statusText : jsstring) (rawData : JValue)
         (recs : list JValue) (rec : JValue) (e : JsError),
    source_records rawData = Some recs ->
    In rec recs ->
    normalize_record rawData config rec = Throw e ->
    fetchAndProcessStores config (Response true statusText (Normal rawData))
      = ERROR TypeError.
Proof.
  intros config statusText rawData recs rec e Hs Hin Hthrow.
  destruct (mapM_In_throws _ _ _ _ Hin Hthrow) as [e' Hm].
  pose proof (processStores_records rawData config recs Hs) as Hp.
  rewrite Hm in Hp. cbn [bind] in Hp.
  unfold fetchAndProcessStores. cbn [negb bind].
  destruct (processStores rawData config) as [p | e''] eqn:E;
    [ discriminate | ].
  rewrite (processStores_shape_errors rawData config e''
             (source_records_shape _ _ Hs) E).
  reflexivity.
Qed.

(** A numeric flavour between two good records. *)
Lemma one_throwing_record_fails_the_ingestion_witness :
  fetchAndProcessStores workerConfig
    (Response true (js "OK")
       (Normal (JArr [good_record; bad_flavor_record; good_record])))
    = ERROR TypeError.
Proof.
  apply (one_throwing_record_fails_the_ingestion workerConfig (js "OK")
           (JArr [good_record; bad_flavor_record; good_record])
           [good_record; bad_flavor_record; good_record]
           bad_flavor_record TypeError).
  - reflexivity.
  - right. left. reflexivity.
  - vm_compute. reflexivity.
Defined.

(** ** Payloads made of strings *)

Lemma string_or_absent_primitive (v : JValue) :
  string_or_absent v = true -> primitive v = true.
Proof. destruct v; simpl; congruence. Qed.

Lemma string_or_absent_text (v : JValue) :
  string_or_absent v = true -> text_or_falsy v = true.
Proof.
  destruct v as [ | | b | n | s | l | m]; try discriminate; try reflexivity.
  intros _. unfold text_or_falsy. cbn [searchable]. apply orb_true_r.
Qed.

Lemma normalize_total_on_strings (rawStore : Value) (config : Config) :
  (forall f, exists v, Get rawStore f = Normal v /\ string_or_absent v = true) ->
  exists r, normalizeStoreData rawStore config = Normal r.
Proof.
  intros H.
  destruct (H Raw.py) as (y & Hy & Sy).
  destruct (H Raw.px) as (x & Hx & Sx).
  destruct (H Raw.flavorType) as (ft & Hft & Sft).
  destruct (H Raw.markerColor) as (mc & Hmc & Smc).
  destruct (parseFloat_primitive y (string_or_absent_primitive y Sy))
    as [lat Hlat].
  destruct (parseFloat_primitive x (string_or_absent_primitive x Sx))
    as [lng Hlng].
  pose proof (hasCoordinates_spec rawStore y x Hy Hx) as Hc.
  rewrite Hlat, Hlng in Hc.
  destruct (hasCoordinates rawStore) as [[ | ] | e] eqn:E.
  - destruct (ToBoolean y) eqn:Ty; cbn [negb] in Hc; [ | discriminate ].
    destruct (ToBoolean x) eqn:Tx; cbn [negb] in Hc; [ | discriminate ].
    destruct (isNaN lat) eqn:Nl; [ discriminate | ].
    destruct (isNaN lng) eqn:Ng; [ discriminate | ].
    destruct (includes_searchable _ specialShapeMarker
                (text_or_falsy_searchable ft []
                   (string_or_absent_text ft Sft))) as [b1 E1].
    destruct (includes_searchable _ (js "red")
                (text_or_falsy_searchable mc (MARKERS_DEFAULT config)
                   (string_or_absent_text mc Smc))) as [b2 E2].
    destruct (normalize_accepts rawStore config y x ft mc lat lng
                Hy Hx Hft Hmc Ty Tx Hlat Hlng Nl Ng b1 b2 E1 E2)
      as (nm & ad & tel & _ & _ & _ & Hn).
    eauto.
  - exists Invalid. unfold normalizeStoreData. rewrite E. reflexivity.
  - exfalso.
    destruct (ToBoolean y), (ToBoolean x), (isNaN lat); discriminate.
Qed.

Lemma lookup_string_members (P : jsstring) (members : list (jsstring * JValue)) :
  forallb (fun kv => string_or_absent (snd kv)) members = true ->
  string_or_absent (own_or_undefined P members) = true.
Proof.
  unfold own_or_undefined.
  induction members as [ | [k v] rest IH]; cbn [lookup forallb snd];
    [ reflexivity | ].
  intros H. apply andb_prop in H. destruct H as [Hv Hr].
  specialize (IH Hr).
  destruct (lookup P rest); [ exact IH | ].
  destruct (str_eqb k P); [ exact Hv | reflexivity ].
Qed.

Lemma string_record_total (rec : JValue) (config : Config) :
  string_record rec = true ->
  exists r, normalizeStoreData (Data rec) config = Normal r.
Proof.
  intros H. apply normalize_total_on_strings. intros f.
  destruct rec; try discriminate. cbn [Get GetData].
  eexists. split; [ reflexivity | ].
  apply lookup_string_members. exact H.
Qed.

Lemma mapM_total {A B : Type} (f : A -> Completion B) (xs : list A) :
  (forall x, In x xs -> exists y, f x = Normal y) ->
  exists ys, mapM f xs = Normal ys.
Proof.
  induction xs as [ | x xs IH]; cbn; intros H; [ eauto | ].
  destruct (H x (or_introl eq_refl)) as [y ->]. cbn [bind].
  destruct IH as [ys ->]; [ intros; apply H; auto | ].
  cbn [bind]. eauto.
Qed.

Lemma nth_string_row (row : list jsstring) (index : nat) :
  string_or_absent (nth index (map JStr row) JUndefined) = true.
Proof.
  revert index. induction row as [ | c row IH]; intros [ | i]; cbn;
    try reflexivity. apply IH.
Qed.

Lemma SetProperty_string_object (o : Object) (P : jsstring) (V : JValue) :
  string_object o -> string_or_absent V = true ->
  string_object (SetProperty o P V).
Proof.
  intros [Hp Ho] HV. unfold SetProperty.
  destruct (str_eqb P (js "__proto__") && proto_setter_reachable o).
  - destruct V; try discriminate; split; assumption.
  - split; cbn [own proto]; [ exact Hp | ].
    rewrite forallb_app, Ho. cbn [forallb snd]. rewrite HV. reflexivity.
Qed.

Lemma assign_columns_strings (keys : list jsstring) (row : list jsstring)
  (index : nat) (o : Object) :
  string_object o ->
  exists o', assign_columns (map JStr keys) index (JArr (map JStr row)) o
               = Normal o' /\ string_object o'.
Proof.
  revert index o. induction keys as [ | k keys IH]; intros index o Ho;
    cbn [map assign_columns GetIndex bind ToString].
  - eauto.
  - apply IH. apply SetProperty_string_object; [ exact Ho | ].
    apply nth_string_row.
Qed.

Lemma string_object_total (o : Object) (config : Config) :
  string_object o ->
  exists r, normalizeStoreData (Obj o) config = Normal r.
Proof.
  intros [Hp Ho]. apply normalize_total_on_strings. intros f.
  cbn [Get]. rewrite Hp.
  pose proof (lookup_string_members (Raw.name_of f) (own o) Ho) as Hl.
  unfold own_or_undefined in Hl.
  destruct (lookup (Raw.name_of f) (own o)); eauto.
Qed.

(** X6.  A payload made of strings is always ingested: a legacy array of
    objects whose members are strings, and a columnar payload whose keys
    and cells are strings (rows of any length, keys of any spelling, the
    key [__proto__] included), both yield a [SUCCESS] message. *)
Theorem string_payloads_are_always_ingested :
  forall (config : Config) (statusText : jsstring),
    (forall elems : list JValue,
       forallb string_record elems = true ->
       exists payload,
         fetchAndProcessStores config
           (Response true statusText (Normal (JArr elems)))
           = SUCCESS payload) /\
    (forall (members : list (jsstring * JValue)) (keys : list jsstring)
            (rows : list (list jsstring)),
       own_or_undefined (js "keys") members = JArr (map JStr keys) ->
       own_or_undefined (js "data") members = string_rows rows ->
       exists payload,
         fetchAndProcessStores config
           (Response true statusText (Normal (JObj members)))
           = SUCCESS payload).
Proof.
  intros config statusText. split.
  - intros elems H.
    unfold fetchAndProcessStores. cbn [negb bind].
    rewrite processStores_legacy.
    assert (Hlu : exists lu,
              match elems with
              | first :: _ =>
                  l <- GetData first Raw.last_updated ;;
                  Normal (if ToBoolean l then l else JStr [])
              | [] => Normal (JStr [])
              end = Normal lu).
    { destruct elems as [ | first rest]; [ eauto | ].
      cbn [forallb] in H. apply andb_prop in H. destruct H as [H _].
      destruct first; try discriminate. cbn [GetData bind]. eauto. }
    destruct Hlu as [lu ->]. cbn [bind].
    destruct (mapM_total (fun store => normalizeStoreData (Data store) config)
                elems) as [results ->].
    { intros x Hx. apply string_record_total.
      rewrite forallb_forall in H. auto. }
    cbn [bind]. eauto.
  - intros members keys rows Hk Hd.
    unfold fetchAndProcessStores. cbn [negb bind].
    rewrite (processStores_columnar members config
               (map (fun row => JArr (map JStr row)) rows)).
    + destruct (mapM_total (normalize_record (JObj members) config)
                  (map (fun row => JArr (map JStr row)) rows))
        as [results ->].
      { intros x Hx. apply in_map_iff in Hx. destruct Hx as (row & <- & _).
        unfold normalize_record. rewrite Hk. cbn [forEach_key].
        destruct (assign_columns_strings keys row 0
                    {| own := []; proto := ObjectPrototype |})
          as (o' & -> & Ho'); [ split; reflexivity | ].
        cbn [bind]. apply string_object_total. exact Ho'. }
      cbn [bind]. eauto.
    + rewrite Hk. reflexivity.
    + exact Hd.
Qed.

(** The first row of the columnar scenario. *)
Lemma success_stores_satisfy_invariant_witness :
  exists payload s,
    fetchAndProcessStores workerConfig
      (Response true (js "OK") (Normal scenario_columnar)) = SUCCESS payload /\
    In s (stores payload) /\
    store_invariant workerConfig s.
Proof.
  eexists. eexists.
  split; [ vm_compute; reflexivity | ].
  split; [ cbn [stores In]; left; reflexivity | ].
  eapply (success_stores_satisfy_invariant workerConfig
            (Response true (js "OK") (Normal scenario_columnar))).
  - vm_compute. reflexivity.
  - cbn [stores In]. left. reflexivity.
Defined.

(** ** The markup of a popup *)

Lemma starts_with_skipn (p s : jsstring) :
  starts_with p s = true -> s = p ++ skipn (List.length p) s.
Proof.
  revert s. induction p as [ | a p IH]; intros s H; [ reflexivity | ].
  destruct s as [ | b s]; [ discriminate | ].
  cbn [starts_with] in H. apply andb_prop in H. destruct H as [Hab Hp].
  apply N.eqb_eq in Hab. subst b.
  cbn [List.length skipn app]. f_equal. apply IH. exact Hp.
Qed.

Lemma count_starts_with (c : N) (p s : jsstring) :
  starts_with p s = true ->
  count c s = count c p + count c (skipn (List.length p) s).
Proof.
  intros H. rewrite (starts_with_skipn p s H) at 1. apply count_app.
Qed.

Lemma count_replace_first (c : N) (p r s : jsstring) :
  count c (replace_first p r s)
    + (if str_includes s p then count c p else 0)
  = count c s + (if str_includes s p then count c r else 0).
Proof.
  induction s as [ | x s IH].
  - cbn [replace_first str_includes].
    destruct (starts_with p []) eqn:E; cbn [orb].
    + rewrite (count_starts_with c p [] E), count_app. lia.
    + reflexivity.
  - cbn [replace_first str_includes].
    destruct (starts_with p (x :: s)) eqn:E; cbn [orb].
    + rewrite (count_starts_with c p (x :: s) E), count_app. lia.
    + change (x :: replace_first p r s) with ([x] ++ replace_first p r s).
      change (x :: s) with ([x] ++ s).
      rewrite !count_app. lia.
Qed.

Lemma escape_char_no_markup (c x : N) :
  In c markup_characters -> count c (escape_char x) = 0.
Proof.
  intros Hc. unfold escape_char.
  destruct (N.eqb_spec x 38);
    [ destruct Hc as [<- | [<- | [<- | []]]]; reflexivity | ].
  destruct (N.eqb_spec x 60);
    [ destruct Hc as [<- | [<- | [<- | []]]]; reflexivity | ].
  destruct (N.eqb_spec x 62);
    [ destruct Hc as [<- | [<- | [<- | []]]]; reflexivity | ].
  destruct (N.eqb_spec x 34);
    [ destruct Hc as [<- | [<- | [<- | []]]]; reflexivity | ].
  destruct (N.eqb_spec x 39);
    [ destruct Hc as [<- | [<- | [<- | []]]]; reflexivity | ].
  destruct Hc as [<- | [<- | [<- | []]]];
    rewrite count_cons_neq by assumption; reflexivity.
Qed.

Lemma escape_string_no_markup (c : N) (s : jsstring) :
  In c markup_characters -> count c (escape_string s) = 0.
Proof.
  intros Hc. rewrite escape_string_flat_map.
  induction s as [ | x s IH]; [ reflexivity | ].
  cbn [flat_map]. rewrite count_app, IH, (escape_char_no_markup c x Hc).
  reflexivity.
Qed.

Lemma escapeHtml_no_markup (c : N) (v : JValue) (s : jsstring) :
  In c markup_characters -> escapeHtml v = Normal s -> count c s = 0.
Proof.
  intros Hc. unfold escapeHtml. destruct (negb (ToBoolean v)).
  - intros H. injection H as <-. reflexivity.
  - destruct (ToString v); cbn [bind]; [ | discriminate ].
    intros H. injection H as <-. apply escape_string_no_markup. exact Hc.
Qed.

Lemma hex_digit_no_markup (c n : N) :
  In c markup_characters -> hex_digit n <> c.
Proof.
  unfold hex_digit, markup_characters, lt_sign, gt_sign.
  intros [<- | [<- | [<- | []]]]; destruct (N.ltb_spec n 10); lia.
Qed.

Lemma percent_no_markup (c : N) (bytes : list N) :
  In c markup_characters -> count c (flat_map percent bytes) = 0.
Proof.
  intros Hc. induction bytes as [ | b bytes IH]; [ reflexivity | ].
  cbn [flat_map]. rewrite count_app, IH. unfold percent.
  pose proof (hex_digit_no_markup c (b / 16) Hc) as H1.
  pose proof (hex_digit_no_markup c (b mod 16) Hc) as H2.
  assert (H0 : 37%N <> c)
    by (destruct Hc as [<- | [<- | [<- | []]]]; discriminate).
  rewrite !count_cons_neq by assumption. reflexivity.
Qed.

Lemma unreserved_no_markup (c x : N) :
  In c markup_characters -> is_uri_unreserved x = true -> x <> c.
Proof.
  intros [<- | [<- | [<- | []]]] H ->; vm_compute in H; discriminate.
Qed.

Lemma encode_units_no_markup (c : N) (s u : jsstring) :
  In c markup_characters -> encode_units s = Normal u -> count c u = 0.
Proof.
  intros Hc.
  remember (List.length s) as n eqn:Hn.
  assert (Hle : List.length s <= n) by lia. clear Hn.
  revert s u Hle. induction n as [ | n IH]; intros s u Hle.
  - destruct s; [ | cbn in Hle; lia ].
    intros H. injection H as <-. reflexivity.
  - destruct s as [ | x s]; [ intros H; injection H as <-; reflexivity | ].
    cbn [List.length] in Hle. cbn [encode_units].
    destruct (is_uri_unreserved x) eqn:U.
    + destruct (encode_units s) as [r | ] eqn:E; cbn [bind]; [ | discriminate ].
      intros H. injection H as <-.
      rewrite count_cons_neq by (apply unreserved_no_markup; assumption).
      apply (IH s r); [ lia | exact E ].
    + destruct (is_low_surrogate x); [ discriminate | ].
      destruct (is_high_surrogate x).
      * destruct s as [ | d s]; [ discriminate | ].
        destruct (is_low_surrogate d); [ | discriminate ].
        cbn [List.length] in Hle.
        destruct (encode_units s) as [r | ] eqn:E; cbn [bind];
          [ | discriminate ].
        intros H. injection H as <-.
        rewrite count_app, (IH s r ltac:(lia) E), percent_no_markup by exact Hc.
        reflexivity.
      * destruct (encode_units s) as [r | ] eqn:E; cbn [bind];
          [ | discriminate ].
        intros H. injection H as <-.
        rewrite count_app, (IH s r ltac:(lia) E), percent_no_markup by exact Hc.
        reflexivity.
Qed.

Lemma encodeURIComponent_no_markup (c : N) (v : JValue) (u : jsstring) :
  In c markup_characters -> encodeURIComponent v = Normal u -> count c u = 0.
Proof.
  intros Hc. unfold encodeURIComponent.
  destruct (ToString v); cbn [bind]; [ | discriminate ].
  apply encode_units_no_markup. exact Hc.
Qed.

Lemma count_popup_fields (c : N)
  (mapUrl safeName flavorClass colorStyle flavorHtml safeAddress safePhone
   : jsstring) :
  count c (popup_template mapUrl safeName flavorClass colorStyle flavorHtml
             safeAddress safePhone)
  = count c (popup_template [] [] flavorClass colorStyle [] [] [])
    + count c mapUrl + count c safeName + count c flavorHtml
    + count c safeAddress + count c safePhone.
Proof.
  unfold popup_template. cbn [List.concat].
  rewrite !count_app. cbn [count count_occ]. unfold count. cbn [count_occ]. lia.
Qed.

(** X7.  No field of a store adds markup to its popup: the numbers of
    [<], of [>] and of double quotes in a popup are those of the template
    filled with empty fields, the colour style, and the one line break that
    a special-shape flavour with a parenthesis gets. *)
Theorem popup_markup_comes_from_the_template_alone :
  forall (store : StoreRecord) (popup : jsstring),
    createStorePopupContent store = Normal popup ->
    exists flavorHtml,
      escapeHtml (flavorType store) = Normal flavorHtml /\
      forall c, In c markup_characters ->
        count c popup =
        count c (popup_frame store
                   (isSpecialShape store &&
                    str_includes flavorHtml (js " ("))).
Proof.
  intros store popup H.
  destruct (popup_embeds_escaped_fields store popup H)
    as (safeName & uri & safeAddress & safePhone & flavorHtml
        & Hn & Hu & Ha & Hp & Hf & ->).
  exists flavorHtml. split; [ exact Hf | ].
  intros c Hc. unfold popup_frame.
  etransitivity; [ apply count_popup_fields | ].
  symmetry. etransitivity; [ apply count_popup_fields | ]. symmetry.
  rewrite (escapeHtml_no_markup c _ _ Hc Hn),
          (escapeHtml_no_markup c _ _ Hc Ha),
          (escapeHtml_no_markup c _ _ Hc Hp).
  rewrite count_app, (encodeURIComponent_no_markup c _ _ Hc Hu).
  pose proof (escapeHtml_no_markup c _ _ Hc Hf) as H0.
  assert (Hfl : count c (if isSpecialShape store
                         then replace_first (js " (") (js "<br>(") flavorHtml
                         else flavorHtml)
                = count c (if isSpecialShape store &&
                              str_includes flavorHtml (js " (")
                           then js "<br>" else [])).
  { destruct (isSpecialShape store); cbn [andb]; [ | exact H0 ].
    pose proof (count_replace_first c (js " (") (js "<br>(") flavorHtml) as R.
    rewrite H0 in R.
    remember (count c (replace_first (js " (") (js "<br>(") flavorHtml))
      as k eqn:Hk. clear Hk.
    destruct (str_includes flavorHtml (js " ("));
      destruct Hc as [<- | [<- | [<- | []]]]; cbn in R |- *; lia. }
  rewrite Hfl.
  change (count c []) with 0. lia.
Qed.

(** A special-shape store whose name is markup. *)
Lemma popup_markup_comes_from_the_template_alone_witness :
  exists popup,
    createStorePopupContent special_store = Normal popup /\
    count lt_sign popup = count lt_sign (popup_frame special_store true) /\
    count 34%N popup = count 34%N (popup_frame special_store true).
Proof.
  eexists. split; [ vm_compute; reflexivity | ].
  match goal with
  | |- count _ ?p = _ /\ _ =>
      destruct (popup_markup_comes_from_the_template_alone special_store p)
        as (fh & Hf & Hc); [ vm_compute; reflexivity | ]
  end.
  vm_compute in Hf. apply Normal_inj in Hf. subst fh.
  split.
  - exact (Hc lt_sign (or_introl eq_refl)).
  - exact (Hc 34%N (or_intror (or_intror (or_introl eq_refl)))).
Defined.

(** ** Rendering again *)

Lemma mapM_Forall2 {A B : Type} (f : A -> Completion B) (xs : list A)
  (ys : list B) :
  mapM f xs = Normal ys -> Forall2 (fun x y => f x = Normal y) xs ys.
Proof.
  revert ys. induction xs as [ | x xs IH]; cbn; intros ys H.
  - apply Normal_inj in H. subst ys. constructor.
  - destruct (f x) as [b | ] eqn:E; cbn [bind] in H; [ | discriminate ].
    destruct (mapM f xs) as [bs | ]; cbn [bind] in H; [ | discriminate ].
    apply Normal_inj in H. subst ys. constructor; [ exact E | ].
    apply IH. reflexivity.
Qed.

Lemma make_marker_fields (this : State) (s : StoreRecord) (m : Marker) :
  make_marker this s = Normal m -> marker_of this s m.
Proof.
  unfold make_marker, marker_of.
  destruct (icon_for this s); cbn [bind]; [ | discriminate ].
  destruct (createStorePopupContent s); cbn [bind]; [ | discriminate ].
  intros H. apply Normal_inj in H. subst m. cbn. auto.
Qed.

Lemma markers_of_stores (this : State) (stores : list StoreRecord)
  (markers : list Marker) :
  mapM (make_marker this) stores = Normal markers ->
  Forall2 (marker_of this) stores markers.
Proof.
  intros H. apply mapM_Forall2 in H.
  induction H as [ | s m ss ms Hm _ IH]; constructor;
    [ exact (make_marker_fields this s m Hm) | exact IH ].
Qed.

(** X8.  What [renderMarkers] does to the cluster group, on a controller
    that has one: it empties the group, makes one marker per store, in the
    order of the stores, each with the icon chosen for the store, at the
    store's coordinates, with its marker colour and its popup, and hands
    exactly these markers to [addLayers]; the group then holds what
    [addLayers] leaves on it, and the call ends as [addLayers] ends.  When
    the marker of a store cannot be made, [addLayers] is not called: the
    group stays empty and the call throws.  The icons are not touched. *)
Theorem renderMarkers_hands_one_marker_per_store_to_the_group :
  forall (addLayers : list Marker -> AddLayers) (this : State)
         (stores : list StoreRecord),
    markersLayer this <> None ->
    icons (fst (renderMarkers addLayers this stores)) = icons this /\
    ((exists markers,
        Forall2 (marker_of this) stores markers /\
        renderMarkers addLayers this stores
          = ({| icons := icons this;
                markersLayer := Some (onLayer (addLayers markers)) |},
             completion (addLayers markers)))
     \/
     (exists s e,
        In s stores /\ make_marker this s = Throw e /\
        renderMarkers addLayers this stores
          = ({| icons := icons this; markersLayer := Some [] |}, Throw e))).
Proof.
  intros addLayers this stores Hl. unfold renderMarkers.
  destruct (markersLayer this) as [old | ]; [ | congruence ].
  destruct (mapM (make_marker this) stores) as [markers | e] eqn:M.
  - split; [ reflexivity | ]. left. exists markers.
    split; [ exact (markers_of_stores _ _ _ M) | reflexivity ].
  - split; [ reflexivity | ]. right.
    destruct (mapM_throws _ _ _ M) as (s & Hin & Hs).
    exists s, e. auto.
Qed.

(** Two stores, the second with the marker colour [constructor], on a
    group that throws on the second marker: the first marker stays. *)
Lemma renderMarkers_hands_one_marker_per_store_to_the_group_witness :
  exists markers,
    Forall2 (marker_of (init constructed))
      [special_store; constructor_store] markers /\
    renderMarkers (throws_after 1) (init constructed)
      [special_store; constructor_store]
      = ({| icons := icons (init constructed);
            markersLayer := Some (firstn 1 markers) |},
         Throw TypeError).
Proof.
  destruct (renderMarkers_hands_one_marker_per_store_to_the_group
              (throws_after 1) (init constructed)
              [special_store; constructor_store])
    as (_ & [(markers & Hm & H) | (s & e & _ & _ & H)]).
  - cbn. discriminate.
  - exists markers. split; [ exact Hm | exact H ].
  - vm_compute in H. discriminate.
Defined.

(** ** The cluster icon and the order of the markers *)

Lemma count_red_throws (cluster : list Marker) (acc : nat) :
  forallb countable cluster = false ->
  count_red cluster acc = Throw TypeError.
Proof.
  revert acc. induction cluster as [ | m rest IH]; intros acc H;
    [ discriminate | ].
  cbn [forallb] in H. cbn [count_red]. unfold counts_red.
  destruct (countable m) eqn:C; cbn [andb] in H.
  - unfold countable, text_or_falsy in C.
    destruct (ToBoolean (options_markerColor m)); cbn [negb orb] in C.
    + destruct (includes_searchable _ (js "red") C) as [b ->].
      cbn [bind]. apply IH. exact H.
    + cbn [bind]. apply IH. exact H.
  - unfold countable, text_or_falsy in C.
    destruct (ToBoolean (options_markerColor m)); cbn [negb orb] in C;
      [ | discriminate ].
    rewrite (includes_throws _ _ C). reflexivity.
Qed.

Lemma count_red_char (cluster : list Marker) :
  count_red cluster 0 =
    if forallb countable cluster then Normal (dual_count cluster)
    else Throw TypeError.
Proof.
  destruct (forallb countable cluster) eqn:F.
  - rewrite count_red_spec; [ reflexivity | ].
    apply Forall_forall. rewrite forallb_forall in F. exact F.
  - apply count_red_throws. exact F.
Qed.

Lemma forallb_Permutation {A : Type} (f : A -> bool) (l l' : list A) :
  Permutation l l' -> forallb f l = forallb f l'.
Proof.
  induction 1; cbn [forallb]; try congruence.
  - destruct (f x), (f y); reflexivity.
Qed.

Lemma filter_length_Permutation {A : Type} (f : A -> bool) (l l' : list A) :
  Permutation l l' -> List.length (filter f l) = List.length (filter f l').
Proof.
  induction 1; cbn [filter]; try congruence.
  - destruct (f x); cbn [List.length]; congruence.
  - destruct (f x), (f y); reflexivity.
Qed.

(** X9.  The cluster icon does not depend on the order of the markers of
    the cluster: two clusters with the same markers get the same icon, or
    fail alike. *)
Theorem cluster_icon_ignores_marker_order :
  forall cluster cluster' : list Marker,
    Permutation cluster cluster' ->
    iconCreateFunction cluster = iconCreateFunction cluster'.
Proof.
  intros cluster cluster' P. unfold iconCreateFunction.
  rewrite !count_red_char.
  rewrite (forallb_Permutation countable _ _ P).
  unfold dual_count. rewrite (filter_length_Permutation is_dual _ _ P).
  rewrite (Permutation_length P). reflexivity.
Qed.

(** Three markers, rotated. *)
Lemma cluster_icon_ignores_marker_order_witness :
  iconCreateFunction
    [marker_at (S754_zero false) (text "red");
     marker_at (S754_zero true) (text "blue");
     marker_at (S754_zero true) (text "red-striped")]
  = iconCreateFunction
      [marker_at (S754_zero true) (text "blue");
       marker_at (S754_zero true) (text "red-striped");
       marker_at (S754_zero false) (text "red")].
Proof.
  apply cluster_icon_ignores_marker_order.
  apply Permutation_cons_append with (l := [_; _]).
Defined.

(** ** Escaping loses nothing *)

Lemma escape_char_cases (x : N) :
  (x = 38%N \/ x = 60%N \/ x = 62%N \/ x = 34%N \/ x = 39%N) \/
  (x <> 38%N /\ escape_char x = [x]).
Proof.
  unfold escape_char.
  destruct (N.eqb_spec x 38); [ auto | ].
  destruct (N.eqb_spec x 60); [ auto 6 | ].
  destruct (N.eqb_spec x 62); [ auto 6 | ].
  destruct (N.eqb_spec x 34); [ auto 6 | ].
  destruct (N.eqb_spec x 39); [ auto 7 | ].
  right. auto.
Qed.

Lemma escape_char_head (x : N) :
  x = 38%N \/ x = 60%N \/ x = 62%N \/ x = 34%N \/ x = 39%N ->
  exists rest, escape_char x = 38%N :: rest.
Proof.
  intros [-> | [-> | [-> | [-> | ->]]]]; vm_compute; eauto.
Qed.

Lemma escape_char_prefix_free (x y : N) (a b : jsstring) :
  escape_char x ++ a = escape_char y ++ b -> x = y /\ a = b.
Proof.
  intros H.
  destruct (escape_char_cases x) as [Sx | [Nx Ex]];
    destruct (escape_char_cases y) as [Sy | [Ny Ey]].
  - destruct Sx as [-> | [-> | [-> | [-> | ->]]]];
      destruct Sy as [-> | [-> | [-> | [-> | ->]]]];
      vm_compute in H; try discriminate;
      (split; [ reflexivity | congruence ]).
  - rewrite Ey in H. destruct (escape_char_head x Sx) as [rest Er].
    rewrite Er in H. cbn in H. congruence.
  - rewrite Ex in H. destruct (escape_char_head y Sy) as [rest Er].
    rewrite Er in H. cbn in H. congruence.
  - rewrite Ex, Ey in H. cbn in H. split; congruence.
Qed.

Lemma escape_string_injective (s t : jsstring) :
  escape_string s = escape_string t -> s = t.
Proof.
  rewrite !escape_string_flat_map.
  revert t. induction s as [ | x s IH]; intros [ | y t] H.
  - reflexivity.
  - exfalso. cbn [flat_map] in H.
    destruct (escape_char_cases y) as [Sy | [_ Ey]].
    + destruct (escape_char_head y Sy) as [rest Er]. rewrite Er in H.
      discriminate.
    + rewrite Ey in H. discriminate.
  - exfalso. cbn [flat_map] in H.
    destruct (escape_char_cases x) as [Sx | [_ Ex]].
    + destruct (escape_char_head x Sx) as [rest Er]. rewrite Er in H.
      discriminate.
    + rewrite Ex in H. discriminate.
  - cbn [flat_map] in H. apply escape_char_prefix_free in H.
    destruct H as [-> H]. f_equal. apply IH. exact H.
Qed.

(** X10.  [escapeHtml] loses nothing: two different strings have different
    escaped texts. *)
Theorem escaping_keeps_texts_apart :
  forall s t : jsstring,
    s <> t -> escapeHtml (JStr s) <> escapeHtml (JStr t).
Proof.
  intros s t Hne. rewrite !escapeHtml_text. intros H.
  apply Normal_inj in H. apply Hne. apply escape_string_injective. exact H.
Qed.

(** A character and the entity it is escaped to. *)
Lemma escaping_keeps_texts_apart_witness :
  escapeHtml (text "<") <> escapeHtml (text "&lt;").
Proof.
  apply escaping_keeps_texts_apart. vm_compute. discriminate.
Defined.

(** ** The notification service *)

Lemma constructor_invariant (found : bool) :
  toast_invariant found (NS.constructor found).
Proof.
  split; cbn.
  - destruct found; reflexivity.
  - auto.
  - discriminate.
Qed.

Lemma remove_child_self (t : nat) : DOM.remove_child t [t] = [].
Proof. unfold DOM.remove_child. cbn. rewrite Nat.eqb_refl. reflexivity. Qed.

Lemma nth_error_update_element (t k : nat) (f : NS.Toast -> NS.Toast)
  (l : list NS.Toast) :
  nth_error (NS.update_element t f l) k =
    if Nat.eqb t k then option_map f (nth_error l k) else nth_error l k.
Proof.
  revert t k. induction l as [ | e l IH]; intros [ | t] [ | k]; cbn;
    try reflexivity.
  - destruct (Nat.eqb _ _); reflexivity.
  - apply IH.
Qed.

Lemma classList_add_In (c d : jsstring) (l : list jsstring) :
  In c l -> In c (DOM.classList_add d l).
Proof.
  unfold DOM.classList_add. destruct (DOM.classList_contains d l); [ auto | ].
  intros H. apply in_or_app. auto.
Qed.

Lemma show_invariant (found : bool) (message type : jsstring) (now : Z)
  (s : NS.State) :
  toast_invariant found s -> toast_invariant found (NS.show message type now s).
Proof.
  intros H. unfold NS.show.
  destruct (NS.container s) as [children | ] eqn:C; [ | exact H ].
  destruct (str_eqb message (NS.lastMessageText s)
            && (now - NS.lastMessageTime s <? 2000)%Z);
    [ exact H | ].
  destruct H as [Hc Hf Hcur]. rewrite C in Hc.
  destruct found; [ | discriminate ].
  injection Hc as Hc.
  assert (Hch : match NS.currentToast s with
                | Some old => DOM.remove_child old children
                | None => children
                end = []).
  { subst children. unfold NS.shown.
    destruct (NS.currentToast s); [ apply remove_child_self | reflexivity ]. }
  rewrite Hch. split; cbn [NS.container NS.currentToast NS.timers NS.elements
                           NS.lastMessageText NS.shown app].
  - reflexivity.
  - discriminate.
  - intros t Ht. injection Ht as <-.
    rewrite nth_error_app2 by lia. rewrite Nat.sub_diag. cbn [nth_error].
    eexists. split; [ reflexivity | ]. cbn [NS.textContent NS.classList].
    split; [ reflexivity | ].
    apply classList_add_In.
    destruct (str_eqb type (js "error"));
      [ apply classList_add_In | ]; left; reflexivity.
Qed.

Lemma without_timer_invariant (found : bool) (k : nat) (s : NS.State) :
  toast_invariant found s -> toast_invariant found (NS.without_timer k s).
Proof.
  intros [Hc Hf Hcur]. split; cbn; try assumption.
  intros F. destruct (Hf F) as (H1 & H2 & H3). rewrite H2.
  destruct k; cbn; auto.
Qed.

Lemma is_child_shown (toast : nat) (s : NS.State) :
  DOM.is_child toast (NS.shown s) = NS.is_current toast s.
Proof.
  unfold NS.shown, NS.is_current, DOM.is_child.
  destruct (NS.currentToast s) as [t | ]; cbn; [ | reflexivity ].
  rewrite orb_false_r. apply Nat.eqb_sym.
Qed.

Lemma toast_is_not_show : str_eqb NS.TOAST_SHOW NS.TOAST = false.
Proof. vm_compute. reflexivity. Qed.

Lemma classList_remove_In (c d : jsstring) (l : list jsstring) :
  str_eqb d c = false -> In c l -> In c (DOM.classList_remove d l).
Proof.
  intros Hd H. unfold DOM.classList_remove. apply filter_In.
  split; [ exact H | rewrite Hd; reflexivity ].
Qed.

Lemma run_callback_invariant (found : bool) (c : NS.Callback) (now : Z)
  (s s' : NS.State) :
  toast_invariant found s ->
  NS.run_callback c now s = Normal s' ->
  toast_invariant found s'.
Proof.
  intros H. destruct c as [toast | toast]; cbn [NS.run_callback].
  - destruct (NS.is_current toast s) eqn:Cur.
    + intros E. apply Normal_inj in E. subst s'.
      destruct H as [Hc Hf Hcur]. split; cbn.
      * exact Hc.
      * intros F. destruct (Hf F) as (H1 & _).
        unfold NS.is_current in Cur. rewrite H1 in Cur. discriminate.
      * intros t Ht. destruct (Hcur t Ht) as (el & Hel & Htxt & Hcls).
        rewrite nth_error_update_element, Hel.
        destruct (Nat.eqb toast t); cbn [option_map]; eexists;
          (split; [ reflexivity | ]); cbn; [ | auto ].
        split; [ exact Htxt | ].
        apply classList_remove_In; [ apply toast_is_not_show | exact Hcls ].
    + intros E. apply Normal_inj in E. subst s'. exact H.
  - destruct (NS.container s) as [children | ] eqn:C; [ | discriminate ].
    intros E. apply Normal_inj in E. subst s'.
    destruct H as [Hc Hf Hcur]. rewrite C in Hc.
    destruct found; [ | discriminate ]. injection Hc as Hc. subst children.
    rewrite is_child_shown.
    split; cbn.
    + f_equal. unfold NS.shown at 3. cbn [NS.currentToast].
      destruct (NS.is_current toast s) eqn:Cur; [ | reflexivity ].
      unfold NS.shown, NS.is_current in *.
      destruct (NS.currentToast s) as [t | ]; [ | discriminate ].
      apply Nat.eqb_eq in Cur. subst t. apply remove_child_self.
    + discriminate.
    + intros t Ht. destruct (NS.is_current toast s); [ discriminate | ].
      exact (Hcur t Ht).
Qed.

Lemma fire_invariant (found : bool) (k : nat) (now : Z) (s : NS.State) :
  toast_invariant found s -> toast_invariant found (NS.fire k now s).
Proof.
  intros H. unfold NS.fire.
  destruct (nth_error (NS.timers s) k) as [t | ]; [ | exact H ].
  destruct (NS.due t <=? now)%Z; [ | exact H ].
  pose proof (without_timer_invariant found k s H) as Hw.
  destruct (NS.run_callback (NS.callback t) now (NS.without_timer k s))
    as [s' | e] eqn:E; [ | exact Hw ].
  exact (run_callback_invariant found _ now _ s' Hw E).
Qed.

Lemma run_invariant (found : bool) (events : list NS.Event) (s : NS.State) :
  toast_invariant found s -> toast_invariant found (NS.run events s).
Proof.
  revert s. induction events as [ | e events IH]; intros s H; [ exact H | ].
  cbn [NS.run fold_left]. apply IH.
  destruct e; cbn [NS.step];
    [ apply show_invariant | apply fire_invariant ]; exact H.
Qed.

(** X12.  Whatever calls of [show] and timers have run, the container
    holds the current toast and nothing else (no toast when there is no
    current one), and the current toast shows the last message and carries
    the toast class. *)
Theorem at_most_one_toast_in_the_container :
  forall (container_found : bool) (events : list NS.Event),
    let s := NS.run events (NS.constructor container_found) in
    NS.container s
      = (if container_found then Some (NS.shown s) else None) /\
    (forall t, NS.currentToast s = Some t ->
       exists el, nth_error (NS.elements s) t = Some el /\
                  NS.textContent el = NS.lastMessageText s /\
                  In NS.TOAST (NS.classList el)).
Proof.
  intros found events s.
  destruct (run_invariant found events _ (constructor_invariant found))
    as [Hc _ Hcur].
  split; assumption.
Qed.

(** X13.  No pending timer of the notification service throws, and a timer
    of a toast that is no longer the current one changes neither the
    container nor the current toast nor any element. *)
Theorem timers_never_throw_and_stale_ones_do_nothing :
  forall (container_found : bool) (events : list NS.Event) (k : nat)
         (timer : NS.Timer) (now : Z),
    let s := NS.run events (NS.constructor container_found) in
    nth_error (NS.timers s) k = Some timer ->
    (exists s', NS.run_callback (NS.callback timer) now (NS.without_timer k s)
                = Normal s') /\
    (NS.currentToast s <> Some (NS.toast_of (NS.callback timer)) ->
     NS.container (NS.fire k now s) = NS.container s /\
     NS.currentToast (NS.fire k now s) = NS.currentToast s /\
     NS.elements (NS.fire k now s) = NS.elements s).
Proof.
  intros found events k timer now s Hk.
  pose proof (run_invariant found events _ (constructor_invariant found))
    as H. fold s in H.
  destruct H as [Hc Hf Hcur].
  assert (F : found = true).
  { destruct found; [ reflexivity | ].
    destruct (Hf eq_refl) as (_ & Ht & _). rewrite Ht in Hk.
    destruct k; discriminate. }
  subst found. split.
  - destruct (NS.callback timer) as [toast | toast]; cbn [NS.run_callback].
    + destruct (NS.is_current toast (NS.without_timer k s)); eauto.
    + cbn [NS.without_timer NS.container]. rewrite Hc. eauto.
  - intros Hstale. unfold NS.fire. rewrite Hk.
    destruct (NS.due timer <=? now)%Z; [ | auto ].
    assert (Cur : NS.is_current (NS.toast_of (NS.callback timer))
                    (NS.without_timer k s) = false).
    { unfold NS.is_current. cbn [NS.without_timer NS.currentToast].
      destruct (NS.currentToast s) as [t | ]; [ | reflexivity ].
      apply Nat.eqb_neq. congruence. }
    destruct (NS.callback timer) as [toast | toast];
      cbn [NS.run_callback NS.toast_of] in *.
    + rewrite Cur. cbn. auto.
    + cbn [NS.without_timer NS.container]. rewrite Hc.
      pose proof (is_child_shown toast (NS.without_timer k s)) as Hch.
      unfold NS.shown in Hch at 1. cbn [NS.without_timer NS.currentToast] in Hch.
      fold (NS.shown s) in Hch. rewrite Hch, Cur. cbn. auto.
Qed.

(** The timer of a replaced toast fires. *)
Lemma timers_never_throw_and_stale_ones_do_nothing_witness :
  NS.container (NS.fire 0 4000 (NS.run two_toasts (NS.constructor true)))
    = NS.container (NS.run two_toasts (NS.constructor true)) /\
  NS.currentToast (NS.fire 0 4000 (NS.run two_toasts (NS.constructor true)))
    = Some 1 /\
  NS.elements (NS.fire 0 4000 (NS.run two_toasts (NS.constructor true)))
    = NS.elements (NS.run two_toasts (NS.constructor true)).
Proof.
  destruct (timers_never_throw_and_stale_ones_do_nothing true two_toasts 0
              {| NS.due := 4000; NS.callback := NS.Hide 0 |} 4000 eq_refl)
    as [_ H].
  destruct H as (H1 & H2 & H3); [ discriminate | ].
  split; [ exact H1 | split; [ rewrite H2; reflexivity | exact H3 ] ].
Defined.

Lemma remove_nth_last {A : Type} (l : list A) (x : A) :
  NS.remove_nth (List.length l) (l ++ [x]) = l.
Proof. induction l as [ | a l IH]; cbn; [ reflexivity | f_equal; exact IH ]. Qed.

Lemma update_element_last (l : list NS.Toast) (f : NS.Toast -> NS.Toast)
  (x : NS.Toast) :
  NS.update_element (List.length l) f (l ++ [x]) = l ++ [f x].
Proof. induction l as [ | a l IH]; cbn; [ reflexivity | f_equal; exact IH ]. Qed.

Lemma nth_error_last {A : Type} (l : list A) (x : A) :
  nth_error (l ++ [x]) (List.length l) = Some x.
Proof. induction l as [ | a l IH]; cbn; [ reflexivity | exact IH ]. Qed.

Lemma classList_remove_contains (token : jsstring) (l : list jsstring) :
  DOM.classList_contains token (DOM.classList_remove token l) = false.
Proof.
  unfold DOM.classList_contains, DOM.classList_remove.
  induction l as [ | c l IH]; cbn; [ reflexivity | ].
  destruct (str_eqb token c) eqn:E; cbn; [ exact IH | ].
  rewrite E. exact IH.
Qed.

(** X14.  The life of a toast that [show] creates: it is the only child of
    the container and carries the show class; its first timer does nothing
    before 3000 ms have passed; when it fires the toast loses the show
    class and stays in the container; when the second timer fires, 300 ms
    later or more, the container is empty and there is no current
    toast. *)
Theorem a_toast_leaves_after_its_two_timers :
  forall (events : list NS.Event) (message type : jsstring) (now t1 t2 : Z),
    let s := NS.run events (NS.constructor true) in
    let toast := List.length (NS.elements s) in
    let n := List.length (NS.timers s) in
    let s1 := NS.show message type now s in
    let s2 := NS.fire n t1 s1 in
    let s3 := NS.fire n t2 s2 in
    str_eqb message (NS.lastMessageText s)
      && (now - NS.lastMessageTime s <? 2000)%Z = false ->
    (now + NS.TOAST_TIMEOUT <= t1)%Z ->
    (t1 + 300 <= t2)%Z ->
    (NS.container s1 = Some [toast] /\
     exists el, nth_error (NS.elements s1) toast = Some el /\
                NS.textContent el = message /\
                DOM.classList_contains NS.TOAST_SHOW (NS.classList el) = true)
    /\
    (forall t, (t < now + NS.TOAST_TIMEOUT)%Z -> NS.fire n t s1 = s1)
    /\
    (NS.container s2 = Some [toast] /\
     exists el, nth_error (NS.elements s2) toast = Some el /\
                NS.textContent el = message /\
                DOM.classList_contains NS.TOAST_SHOW (NS.classList el) = false)
    /\
    (NS.container s3 = Some [] /\ NS.currentToast s3 = None).
Proof.
  intros events message type now t1 t2 s toast n s1 s2 s3 Hnew Ht1 Ht2.
  pose proof (run_invariant true events _ (constructor_invariant true))
    as H. fold s in H. destruct H as [Hc _ _].
  assert (Hch : match NS.currentToast s with
                | Some old => DOM.remove_child old (NS.shown s)
                | None => NS.shown s
                end = []).
  { unfold NS.shown.
    destruct (NS.currentToast s); [ apply remove_child_self | reflexivity ]. }
  set (classes :=
         DOM.classList_add NS.TOAST_SHOW
           (if str_eqb type (js "error")
            then DOM.classList_add NS.TOAST_ERROR [NS.TOAST]
            else [NS.TOAST])).
  set (el := {| NS.classList := classes; NS.textContent := message |}).
  assert (E1 : s1 = {| NS.container := Some [toast];
                       NS.lastMessageTime := now;
                       NS.lastMessageText := message;
                       NS.currentToast := Some toast;
                       NS.elements := NS.elements s ++ [el];
                       NS.timers :=
                         NS.timers s
                         ++ [{| NS.due := now + NS.TOAST_TIMEOUT;
                                NS.callback := NS.Hide toast |}] |}).
  { unfold s1, NS.show. rewrite Hc, Hnew, Hch. reflexivity. }
  assert (Hshow : DOM.classList_contains NS.TOAST_SHOW classes = true).
  { unfold classes. destruct (str_eqb type (js "error")); reflexivity. }
  set (el' := {| NS.classList := DOM.classList_remove NS.TOAST_SHOW classes;
                 NS.textContent := message |}).
  assert (E2 : s2 = {| NS.container := Some [toast];
                       NS.lastMessageTime := now;
                       NS.lastMessageText := message;
                       NS.currentToast := Some toast;
                       NS.elements := NS.elements s ++ [el'];
                       NS.timers :=
                         NS.timers s
                         ++ [{| NS.due := t1 + 300;
                                NS.callback := NS.Detach toast |}] |}).
  { unfold s2, NS.fire. rewrite E1. cbn [NS.timers].
    unfold n. rewrite nth_error_last. cbn [NS.due NS.callback].
    destruct (Z.leb_spec (now + NS.TOAST_TIMEOUT) t1); [ | lia ].
    unfold NS.without_timer. cbn [NS.timers NS.container NS.lastMessageTime
      NS.lastMessageText NS.currentToast NS.elements].
    rewrite remove_nth_last. cbn [NS.run_callback].
    unfold NS.is_current. cbn [NS.currentToast]. rewrite Nat.eqb_refl.
    cbn [NS.timers NS.container NS.lastMessageTime
      NS.lastMessageText NS.currentToast NS.elements].
    unfold toast. rewrite update_element_last. reflexivity. }
  assert (E3 : s3 = {| NS.container := Some [];
                       NS.lastMessageTime := now;
                       NS.lastMessageText := message;
                       NS.currentToast := None;
                       NS.elements := NS.elements s ++ [el'];
                       NS.timers := NS.timers s |}).
  { unfold s3, NS.fire. rewrite E2. cbn [NS.timers].
    unfold n. rewrite nth_error_last. cbn [NS.due NS.callback].
    destruct (Z.leb_spec (t1 + 300) t2); [ | lia ].
    unfold NS.without_timer. cbn [NS.timers NS.container NS.lastMessageTime
      NS.lastMessageText NS.currentToast NS.elements].
    rewrite remove_nth_last. cbn [NS.run_callback NS.container].
    unfold NS.is_current, DOM.is_child. cbn [NS.currentToast existsb].
    rewrite Nat.eqb_refl. cbn [orb].
    rewrite remove_child_self. reflexivity. }
  split; [ | split; [ | split ] ].
  - rewrite E1. cbn [NS.container NS.elements]. split; [ reflexivity | ].
    exists el. unfold toast. rewrite nth_error_last. auto.
  - intros t Ht. unfold NS.fire. rewrite E1 at 1. cbn [NS.timers].
    unfold n. rewrite nth_error_last. cbn [NS.due].
    destruct (Z.leb_spec (now + NS.TOAST_TIMEOUT) t); [ lia | reflexivity ].
  - rewrite E2. cbn [NS.container NS.elements]. split; [ reflexivity | ].
    exists el'. unfold toast. rewrite nth_error_last.
    split; [ reflexivity | split; [ reflexivity | ] ].
    apply classList_remove_contains.
  - rewrite E3. split; reflexivity.
Qed.

(** The first toast of a page. *)
Lemma a_toast_leaves_after_its_two_timers_witness :
  NS.container
    (NS.fire 0 4300
       (NS.fire 0 4000
          (NS.show (js "網路已連線") (js "info") 1000 (NS.constructor true))))
    = Some [] /\
  NS.currentToast
    (NS.fire 0 4300
       (NS.fire 0 4000
          (NS.show (js "網路已連線") (js "info") 1000 (NS.constructor true))))
    = None.
Proof.
  apply (a_toast_leaves_after_its_two_timers [] (js "網路已連線") (js "info")
           1000 4000 4300).
  - reflexivity.
  - unfold NS.TOAST_TIMEOUT. lia.
  - lia.
Defined.

(** ** The location service *)

(** X15.  [getErrorMessage] gives the unknown-error message exactly to the
    position errors whose code is none of 1, 2 and 3; codes 1, 2 and 3 get
    the denied, unavailable and timeout messages; and an error that is not
    a position error (an [Error] object, an exception of the engine) gets
    the permission-denied message, its [code] and the constant it is
    compared with being both [undefined]. *)
Theorem only_position_errors_with_unknown_code_get_the_unknown_message :
  forall error : LS.ErrorValue,
    (LS.getErrorMessage error = MESSAGES.LOCATION_UNKNOWN_ERROR <->
     exists c m, error = LS.GeolocationPositionError c m /\
                 c <> 1%N /\ c <> 2%N /\ c <> 3%N) /\
    ((forall c m, error <> LS.GeolocationPositionError c m) ->
     LS.getErrorMessage error = MESSAGES.LOCATION_DENIED) /\
    (forall c m, error = LS.GeolocationPositionError c m ->
       (LS.getErrorMessage error = MESSAGES.LOCATION_DENIED <-> c = 1%N) /\
       (LS.getErrorMessage error = MESSAGES.LOCATION_UNAVAILABLE <-> c = 2%N) /\
       (LS.getErrorMessage error = MESSAGES.LOCATION_TIMEOUT <-> c = 3%N)).
Proof.
  assert (D1 : MESSAGES.LOCATION_DENIED <> MESSAGES.LOCATION_UNKNOWN_ERROR)
    by (vm_compute; discriminate).
  assert (D2 : MESSAGES.LOCATION_UNAVAILABLE <> MESSAGES.LOCATION_UNKNOWN_ERROR)
    by (vm_compute; discriminate).
  assert (D3 : MESSAGES.LOCATION_TIMEOUT <> MESSAGES.LOCATION_UNKNOWN_ERROR)
    by (vm_compute; discriminate).
  assert (D4 : MESSAGES.LOCATION_DENIED <> MESSAGES.LOCATION_UNAVAILABLE)
    by (vm_compute; discriminate).
  assert (D5 : MESSAGES.LOCATION_DENIED <> MESSAGES.LOCATION_TIMEOUT)
    by (vm_compute; discriminate).
  assert (D6 : MESSAGES.LOCATION_UNAVAILABLE <> MESSAGES.LOCATION_TIMEOUT)
    by (vm_compute; discriminate).
  intros error. unfold LS.getErrorMessage.
  remember MESSAGES.LOCATION_DENIED as denied eqn:E1. clear E1.
  remember MESSAGES.LOCATION_UNAVAILABLE as unavailable eqn:E2. clear E2.
  remember MESSAGES.LOCATION_TIMEOUT as timeout eqn:E3. clear E3.
  remember MESSAGES.LOCATION_UNKNOWN_ERROR as unknown eqn:E4. clear E4.
  destruct error as [c m | m | e];
    cbn [LS.code LS.PERMISSION_DENIED LS.POSITION_UNAVAILABLE LS.TIMEOUT
         LS.strict_equals].
  - assert (Hinj : forall c' m',
              LS.GeolocationPositionError c m
                = LS.GeolocationPositionError c' m' -> c' = c)
      by (intros c' m' E; injection E; auto).
    destruct (N.eqb_spec c 1); [ | destruct (N.eqb_spec c 2);
                                     [ | destruct (N.eqb_spec c 3) ] ].
    + split; [ | split ].
      * split; [ congruence | ].
        intros (c' & m' & E & H1 & H2 & H3). apply Hinj in E. congruence.
      * intros H. exfalso. exact (H c m eq_refl).
      * intros c' m' E. apply Hinj in E. subst c'.
        split; [ | split ]; split; intros H; congruence.
    + split; [ | split ].
      * split; [ congruence | ].
        intros (c' & m' & E & H1 & H2 & H3). apply Hinj in E. congruence.
      * intros H. exfalso. exact (H c m eq_refl).
      * intros c' m' E. apply Hinj in E. subst c'.
        split; [ | split ]; split; intros H; congruence.
    + split; [ | split ].
      * split; [ congruence | ].
        intros (c' & m' & E & H1 & H2 & H3). apply Hinj in E. congruence.
      * intros H. exfalso. exact (H c m eq_refl).
      * intros c' m' E. apply Hinj in E. subst c'.
        split; [ | split ]; split; intros H; congruence.
    + split; [ | split ].
      * split; [ intros _; exists c, m; auto | reflexivity ].
      * intros H. exfalso. exact (H c m eq_refl).
      * intros c' m' E. apply Hinj in E. subst c'.
        split; [ | split ]; split; intros H; congruence.
  - split; [ | split ].
    + split; [ congruence | intros (c & m' & E & _); discriminate ].
    + reflexivity.
    + intros c m' E. discriminate.
  - split; [ | split ].
    + split; [ congruence | intros (c & m' & E & _); discriminate ].
    + reflexivity.
    + intros c m' E. discriminate.
Qed.

(** ** The throttle of location errors *)

Lemma spaced_snoc (log : CallLog) (c : jsstring * jsstring * Z) :
  spaced log ->
  (call_message c <> MESSAGES.LOCATION_NOT_SUPPORTED ->
   forall a, In a log ->
     call_message a <> MESSAGES.LOCATION_NOT_SUPPORTED ->
     (call_time a + 5000 <= call_time c)%Z) ->
  spaced (log ++ [c]).
Proof.
  intros Hs Hc i j a b Hij Ha Hb Na Nb.
  assert (Hj : j < List.length (log ++ [c]))
    by (apply nth_error_Some; congruence).
  rewrite length_app in Hj. cbn [List.length] in Hj.
  assert (Hi : i < List.length log) by lia.
  rewrite nth_error_app1 in Ha by exact Hi.
  destruct (Nat.eq_dec j (List.length log)) as [-> | Hne].
  - rewrite nth_error_app2, Nat.sub_diag in Hb by lia.
    cbn in Hb. injection Hb as <-.
    apply Hc; [ exact Nb | | exact Na ].
    apply nth_error_In with i. exact Ha.
  - rewrite nth_error_app1 in Hb by lia.
    exact (Hs i j a b Hij Ha Hb Na Nb).
Qed.

Lemma handleLocationError_throttle (error : LS.ErrorValue) (manual : bool)
  (now : Z) (s : MCL.State CallLog) :
  throttle_invariant s ->
  throttle_invariant (MCL._handleLocationError record_call error manual now s).
Proof.
  intros (log & Hl & Hle & Hs). unfold MCL._handleLocationError.
  destruct (LS.message_is error (js "GEOLOCATION_NOT_SUPPORTED")).
  - exists (record_call MESSAGES.LOCATION_NOT_SUPPORTED (js "error") now log).
    cbn. rewrite Hl. cbn. split; [ reflexivity | ]. split.
    + intros c Hin Hc. unfold record_call in Hin.
      apply in_app_or in Hin. destruct Hin as [Hin | [<- | []]];
        [ exact (Hle c Hin Hc) | ].
      exfalso. apply Hc. reflexivity.
    + apply spaced_snoc; [ exact Hs | ].
      intros Hc. exfalso. apply Hc. reflexivity.
  - cbn [MCL.set_button MCL.lastErrorTime].
    destruct (Z.ltb_spec (now - MCL.lastErrorTime s) 5000).
    + exists log. cbn. auto.
    + exists (record_call (LS.getErrorMessage error) (js "error") now log).
      cbn. rewrite Hl. cbn. split; [ reflexivity | ]. split.
      * intros c Hin Hc. unfold record_call in Hin.
        apply in_app_or in Hin. destruct Hin as [Hin | [<- | []]].
        -- pose proof (Hle c Hin Hc). lia.
        -- cbn. lia.
      * apply spaced_snoc; [ exact Hs | ].
        intros _ a Ha Na. pose proof (Hle a Ha Na). cbn. lia.
Qed.

Lemma step_throttle (e : MCL.Event) (s : MCL.State CallLog) :
  throttle_invariant s -> throttle_invariant (MCL.step record_call s e).
Proof.
  intros H. destruct e as [ | | manual browser now | position | ];
    cbn [MCL.step].
  - exact H.
  - unfold MCL.onclick. destruct (MCL.locateButton s) as [classes | ];
      [ destruct (DOM.classList_contains (js "loading") classes) | ];
      exact H.
  - unfold MCL.locateUser_resume.
    destruct (LS.getCurrentPosition (MCL.locationService s) browser)
      as [position | error].
    + assert (H1 : throttle_invariant
                     (MCL._handleLocationSuccess position s)).
      { unfold MCL._handleLocationSuccess, MCL._updateUserMarker.
        cbn [MCL.set_button MCL.userMarker].
        destruct (MCL.userMarker s); exact H. }
      destruct (LS.watchPosition _) as [service | e].
      * destruct H1 as (log & Hl & Hle & Hs). exists log. cbn.
        split; [ exact Hl | split; [ exact Hle | exact Hs ] ].
      * apply handleLocationError_throttle. exact H1.
    + apply handleLocationError_throttle. exact H.
  - unfold MCL._updateUserMarker. destruct (MCL.userMarker s); exact H.
  - exact H.
Qed.

Lemma run_throttle (events : list MCL.Event) (s : MCL.State CallLog) :
  throttle_invariant s -> throttle_invariant (MCL.run record_call events s).
Proof.
  revert s. induction events as [ | e events IH]; intros s H; [ exact H | ].
  cbn [MCL.run fold_left]. apply IH. apply step_throttle. exact H.
Qed.

(** X17.  Whatever happens to the controller, two location-error notices
    it passes to the notification service, the not-supported notice apart,
    are at least 5000 ms apart. *)
Theorem location_error_notices_are_five_seconds_apart :
  forall (geolocation : option LS.Geolocation)
         (events : list MCL.Event)
         (log : CallLog) (i j : nat) (a b : jsstring * jsstring * Z),
    MCL.notificationService
      (MCL.run record_call events
         (MCL.initialized (Some []) geolocation)) = Some log ->
    i < j ->
    nth_error log i = Some a ->
    nth_error log j = Some b ->
    call_message a <> MESSAGES.LOCATION_NOT_SUPPORTED ->
    call_message b <> MESSAGES.LOCATION_NOT_SUPPORTED ->
    (call_time a + 5000 <= call_time b)%Z.
Proof.
  intros geolocation events log i j a b Hlog.
  assert (H : throttle_invariant
                (MCL.run record_call events
                   (MCL.initialized (Some []) geolocation))).
  { apply run_throttle. exists []. cbn. split; [ reflexivity | ]. split.
    - intros c [].
    - intros i' j' a' b' _ Ha. destruct i'; discriminate. }
  destruct H as (log' & Hl' & _ & Hs). rewrite Hlog in Hl'.
  injection Hl' as <-. apply Hs.
Qed.

(** A denial, a timeout two seconds later (not shown) and one six seconds
    later (shown). *)
Lemma location_error_notices_are_five_seconds_apart_witness :
  exists log,
    MCL.notificationService
      (MCL.run record_call denied_then_timeouts
         (MCL.initialized (Some [])
            (browser_geolocation true 1))) = Some log /\
    log = [(MESSAGES.LOCATION_DENIED, js "error", 10000%Z);
           (MESSAGES.LOCATION_TIMEOUT, js "error", 16000%Z)] /\
    (10000 + 5000 <= 16000)%Z.
Proof.
  eexists. split; [ vm_compute; reflexivity | ].
  split; [ vm_compute; reflexivity | ].
  apply (location_error_notices_are_five_seconds_apart
           (browser_geolocation true 1) denied_then_timeouts
           [(MESSAGES.LOCATION_DENIED, js "error", 10000%Z);
            (MESSAGES.LOCATION_TIMEOUT, js "error", 16000%Z)]
           0 1
           (MESSAGES.LOCATION_DENIED, js "error", 10000%Z)
           (MESSAGES.LOCATION_TIMEOUT, js "error", 16000%Z)).
  - vm_compute. reflexivity.
  - lia.
  - reflexivity.
  - reflexivity.
  - vm_compute. discriminate.
  - vm_compute. discriminate.
Defined.

(** ** One marker of the user, one watch *)

Lemma watchPosition_invariant (ls : LS.State) :
  service_invariant ls ->
  exists ls', LS.watchPosition ls = Normal ls' /\ service_invariant ls' /\
              LS.isSupported ls' = LS.isSupported ls /\
              (LS.isSupported ls = true -> LS.watchId ls' <> None).
Proof.
  unfold service_invariant, LS.watchPosition, LS.isSupported, LS.clearWatch.
  destruct ls as [[id | ] [g | ]]; cbn; intros H; try discriminate.
  - rewrite H. cbn. rewrite Nat.eqb_refl. cbn.
    eexists. split; [ reflexivity | ]. cbn. repeat split. discriminate.
  - rewrite H. eexists. split; [ reflexivity | ]. cbn. repeat split.
    discriminate.
  - eexists. split; [ reflexivity | ]. cbn. repeat split. discriminate.
Qed.

Lemma clearWatch_invariant (ls : LS.State) :
  service_invariant ls ->
  exists ls', LS.clearWatch ls = Normal ls' /\ service_invariant ls' /\
              LS.watchId ls' = None /\
              (LS.watchId ls = None -> ls' = ls).
Proof.
  unfold service_invariant, LS.clearWatch.
  destruct ls as [[id | ] [g | ]]; cbn; intros H; try discriminate.
  - rewrite H. cbn. rewrite Nat.eqb_refl. cbn.
    eexists. split; [ reflexivity | ]. cbn. repeat split. discriminate.
  - eexists. split; [ reflexivity | ]. cbn. auto.
  - eexists. split; [ reflexivity | ]. cbn. auto.
Qed.

Section UserMarker.

Variable Notifier : Type.
Variable show : jsstring -> jsstring -> Z -> Notifier -> Notifier.

Lemma updateUserMarker_invariant (supported : bool)
  (fix_ : option (number * number)) (lat lng : number)
  (s : MCL.State Notifier) :
  marker_invariant supported fix_ s ->
  marker_invariant supported (Some (lat, lng))
    (MCL._updateUserMarker lat lng s).
Proof.
  intros (Hl & Hm & Hsup & Hls). unfold MCL._updateUserMarker. rewrite Hm.
  destruct fix_ as [p | ]; cbn in *; rewrite Hl; cbn; repeat split;
    assumption.
Qed.

Lemma handleLocationError_marker (supported : bool)
  (fix_ : option (number * number)) (error : LS.ErrorValue) (manual : bool)
  (now : Z) (s : MCL.State Notifier) :
  marker_invariant supported fix_ s ->
  marker_invariant supported fix_
    (MCL._handleLocationError show error manual now s).
Proof.
  intros H. unfold MCL._handleLocationError.
  destruct (LS.message_is error (js "GEOLOCATION_NOT_SUPPORTED"));
    [ exact H | ].
  cbn [MCL.set_button MCL.lastErrorTime].
  destruct (now - MCL.lastErrorTime s <? 5000)%Z; exact H.
Qed.

Lemma step_marker (supported : bool) (fix_ : option (number * number))
  (e : MCL.Event) (s : MCL.State Notifier) :
  marker_invariant supported fix_ s ->
  marker_invariant supported
    (match fix_of supported e with Some p => Some p | None => fix_ end)
    (MCL.step show s e).
Proof.
  intros H. destruct e as [ | | manual browser now | position | ];
    cbn [MCL.step fix_of].
  - exact H.
  - unfold MCL.onclick. destruct (MCL.locateButton s) as [classes | ];
      [ destruct (DOM.classList_contains (js "loading") classes) | ];
      exact H.
  - unfold MCL.locateUser_resume, LS.getCurrentPosition.
    destruct H as (Hl & Hm & Hsup & Hls). rewrite Hsup.
    destruct supported; cbn [negb].
    + destruct browser as [position | error].
      * assert (H1 : marker_invariant true
                       (Some (LS.latitude position, LS.longitude position))
                       (MCL._handleLocationSuccess position s)).
        { unfold MCL._handleLocationSuccess.
          apply (updateUserMarker_invariant true fix_).
          repeat split; assumption. }
        destruct H1 as (Hl1 & Hm1 & Hsup1 & Hls1).
        destruct (watchPosition_invariant _ Hls1)
          as (ls' & -> & Hls' & Hsup' & _).
        repeat split; cbn; try assumption. congruence.
      * apply handleLocationError_marker. repeat split; assumption.
    + assert (H0 : marker_invariant false fix_ s)
        by (repeat split; assumption).
      destruct browser; apply handleLocationError_marker; exact H0.
  - apply (updateUserMarker_invariant supported fix_). exact H.
  - exact H.
Qed.

Lemma run_marker (supported : bool) (events : list MCL.Event)
  (fix_ : option (number * number)) (s : MCL.State Notifier) :
  marker_invariant supported fix_ s ->
  marker_invariant supported (last_fix supported events fix_)
    (MCL.run show events s).
Proof.
  revert fix_ s. induction events as [ | e events IH]; intros fix_ s H;
    [ exact H | ].
  cbn [MCL.run fold_left last_fix]. apply IH. apply step_marker. exact H.
Qed.

(** X18.  Whatever location events have happened, the map holds at most one
    marker of the user, which is the one [userMarker] refers to and stands
    at the last position reported, and the browser holds at most one
    watch, the one recorded by the location service. *)
Theorem one_user_marker_at_the_last_fix_and_one_watch :
  forall (supported : bool) (next : nat) (notifier : option Notifier)
         (events : list MCL.Event),
    let s := MCL.run show events
               (MCL.initialized notifier
                  (browser_geolocation supported next)) in
    MCL.layers s = option_list (last_fix supported events None) /\
    (forall m, MCL.userMarker s = Some m ->
       nth_error (MCL.layers s) m = last_fix supported events None) /\
    match LS.geolocation (MCL.locationService s) with
    | Some g => LS.watches g = option_list (LS.watchId (MCL.locationService s))
    | None => LS.watchId (MCL.locationService s) = None
    end.
Proof.
  intros supported next notifier events s.
  assert (H : marker_invariant supported (last_fix supported events None) s).
  { apply run_marker. unfold marker_invariant, service_invariant.
    destruct supported; cbn; auto. }
  destruct H as (Hl & Hm & _ & Hls).
  split; [ exact Hl | ]. split; [ | exact Hls ].
  intros m Hmk. rewrite Hl. rewrite Hm in Hmk.
  destruct (last_fix supported events None); [ | discriminate ].
  injection Hmk as <-. reflexivity.
Qed.

End UserMarker.

(** ** The data path of [init] *)

(** X20.  When the promise of [fetchStores] has settled, [init] always hides
    the loading overlay.  When the promise was rejected, it requests one
    error notice (the offline message when the browser is offline, the
    fetch error otherwise) and leaves the markers and the timestamp alone.
    When it was fulfilled, the marker layer is what [renderMarkers] leaves;
    if [renderMarkers] throws (a marker cannot be made, or the cluster
    group throws), the same notice is requested and the timestamp is left
    alone; if it returns, the timestamp is printed and no notice is
    requested, unless printing throws, which gets the notice too. *)
Theorem data_path_outcome :
  forall (addLayers : list Marker -> AddLayers)
         (settled : StoreService.Outcome) (onLine : bool) (now : Z)
         (this : App.State),
    let this' := App.init_resume addLayers settled onLine now this in
    let notice :=
      NS.show (failure_message onLine) (js "error") now
        (App.notificationService this) in
    App.loadingController this'
      = LoadingController.hide (App.loadingController this) /\
    match settled with
    | StoreService.Rejected _ =>
        App.notificationService this' = notice /\
        App.last_updated this' = App.last_updated this /\
        App.mapController this' = App.mapController this
    | StoreService.Fulfilled payload =>
        let rendered :=
          renderMarkers addLayers (App.mapController this) (stores payload) in
        App.mapController this' = fst rendered /\
        match snd rendered,
              MapControllerRender.updateLastUpdatedTime (lastUpdated payload)
                (App.last_updated this) with
        | Normal _, Normal el =>
            App.notificationService this' = App.notificationService this /\
            App.last_updated this' = el
        | _, _ =>
            App.notificationService this' = notice /\
            App.last_updated this' = App.last_updated this
        end
    end.
Proof.
  intros addLayers settled onLine now this this' notice.
  subst this' notice.
  unfold App.init_resume, App.init_try, failure_message.
  destruct settled as [payload | reason].
  - destruct (renderMarkers addLayers (App.mapController this)
                (stores payload)) as [map [u | e]] eqn:R;
      cbn [fst snd App.last_updated].
    + destruct (MapControllerRender.updateLastUpdatedTime
                  (lastUpdated payload) (App.last_updated this))
        as [el | e]; cbn.
      * auto.
      * split; [ reflexivity | ]. split; [ reflexivity | ].
        destruct onLine; auto.
    + cbn. split; [ reflexivity | ]. split; [ reflexivity | ].
      destruct onLine; auto.
  - cbn. split; [ reflexivity | ]. destruct onLine; auto.
Qed.

(** A fulfilled promise whose second store has the marker colour
    [constructor], on a cluster group that throws when it draws that
    marker: the notice is requested, the timestamp stays empty, and the
    first marker stays on the layer. *)
Lemma data_path_outcome_witness :
  exists m,
    make_marker (init constructed) special_store = Normal m /\
    let this' :=
      App.init_resume (throws_after 1)
        (StoreService.Fulfilled
           {| stores := [special_store; constructor_store];
              lastUpdated := text "2024-01-01" |})
        true 5000 (App.init_begin empty_page) in
    markersLayer (App.mapController this') = Some [m] /\
    App.last_updated this' = App.last_updated empty_page /\
    App.notificationService this'
      = NS.show MESSAGES.FETCH_ERROR (js "error") 5000
          (App.notificationService empty_page).
Proof.
  eexists. split; [ vm_compute; reflexivity | ].
  pose proof (data_path_outcome (throws_after 1)
                (StoreService.Fulfilled
                   {| stores := [special_store; constructor_store];
                      lastUpdated := text "2024-01-01" |})
                true 5000 (App.init_begin empty_page)) as H.
  cbn zeta in H |- *. destruct H as (_ & Hmap & H).
  split; [ rewrite Hmap; vm_compute; reflexivity | ].
  assert (R : snd (renderMarkers (throws_after 1)
                     (App.mapController (App.init_begin empty_page))
                     [special_store; constructor_store])
              = Throw TypeError) by (vm_compute; reflexivity).
  cbn [stores] in H. rewrite R in H. destruct H as [Hn Hl].
  split; [ rewrite Hl; reflexivity | rewrite Hn; reflexivity ].
Defined.

(** X21.  When the marker of one store of the payload cannot be made, on an
    initialized controller, [init] leaves the marker layer empty, leaves
    the timestamp alone and requests the error notice, although the fetch
    succeeded, and whatever the cluster group would have done with the
    markers. *)
Theorem one_failing_marker_leaves_the_map_empty :
  forall (addLayers : list Marker -> AddLayers)
         (this : App.State) (payload : Payload) (store : StoreRecord)
         (e : JsError) (onLine : bool) (now : Z),
    markersLayer (App.mapController this) <> None ->
    In store (stores payload) ->
    make_marker (App.mapController this) store = Throw e ->
    let this' :=
      App.init_resume addLayers (StoreService.Fulfilled payload) onLine now
        this in
    markersLayer (App.mapController this') = Some [] /\
    App.last_updated this' = App.last_updated this /\
    App.notificationService this'
      = NS.show (failure_message onLine) (js "error") now
          (App.notificationService this).
Proof.
  intros addLayers this payload store e onLine now Hl Hin Hthrow this'.
  subst this'.
  destruct (mapM_In_throws _ _ _ _ Hin Hthrow) as [e' Hm].
  unfold App.init_resume, App.init_try, renderMarkers, failure_message.
  destruct (markersLayer (App.mapController this)); [ | congruence ].
  rewrite Hm. cbn. destruct onLine; auto.
Qed.

(** A record whose name is a lone surrogate is accepted by the worker and
    empties the map. *)
Lemma one_failing_marker_leaves_the_map_empty_witness :
  exists payload,
    StoreService.promise
      (StoreService.fetchStores
         (StoreService.Runs
            (Response true (js "OK")
               (Normal (JArr [good_record; lone_surrogate_record])))))
      = Some (StoreService.Fulfilled payload) /\
    List.length (stores payload) = 2 /\
    markersLayer
      (App.mapController
         (App.init_resume adds_all (StoreService.Fulfilled payload) true 5000
            (App.init_begin empty_page))) = Some [].
Proof.
  eexists. split; [ vm_compute; reflexivity | ].
  split; [ reflexivity | ].
  match goal with
  | |- context [StoreService.Fulfilled ?p] =>
      destruct (one_failing_marker_leaves_the_map_empty adds_all
                  (App.init_begin empty_page) p
                  (nth 1 (stores p) special_store) URIError true 5000)
        as (H & _)
  end.
  - cbn. discriminate.
  - cbn [stores nth In]. right. left. reflexivity.
  - vm_compute. reflexivity.
  - exact H.
Defined.

(** ** Names that cannot be encoded *)

Lemma unreserved_not_surrogate (c : N) :
  is_uri_unreserved c = true ->
  is_high_surrogate c = false /\ is_low_surrogate c = false.
Proof.
  intros H. unfold is_high_surrogate, is_low_surrogate.
  assert (Hc : (c < 128)%N).
  { unfold is_uri_unreserved in H.
    apply orb_prop in H. destruct H as [H | H].
    - repeat (apply orb_prop in H; destruct H as [H | H]);
        apply andb_prop in H; destruct H as [_ H];
        apply N.leb_le in H; lia.
    - apply existsb_exists in H. destruct H as (x & Hin & Hx).
      apply N.eqb_eq in Hx. subst x.
      vm_compute in Hin.
      repeat (destruct Hin as [<- | Hin]; [ lia | ]). destruct Hin. }
  split; apply andb_false_iff; left; apply N.leb_gt; lia.
Qed.

Lemma encode_units_well_formed_gen (n : nat) (s : jsstring) :
  List.length s <= n ->
  if well_formed s then exists u, encode_units s = Normal u
  else encode_units s = Throw URIError.
Proof.
  revert s. induction n as [ | n IH]; intros s Hle.
  - destruct s; [ cbn; eauto | cbn in Hle; lia ].
  - destruct s as [ | c s]; [ cbn; eauto | ].
    cbn [List.length] in Hle. cbn [encode_units well_formed].
    destruct (is_uri_unreserved c) eqn:U.
    + destruct (unreserved_not_surrogate c U) as [-> ->]. cbn [negb andb].
      specialize (IH s ltac:(lia)).
      destruct (well_formed s).
      * destruct IH as [u ->]. cbn [bind]. eauto.
      * rewrite IH. reflexivity.
    + destruct (is_low_surrogate c) eqn:L.
      * assert (Hh : is_high_surrogate c = false).
        { unfold is_high_surrogate, is_low_surrogate in *.
          apply andb_prop in L. destruct L as [L1 L2].
          apply N.leb_le in L1. apply andb_false_iff. right.
          apply N.leb_gt. lia. }
        rewrite Hh. reflexivity.
      * destruct (is_high_surrogate c).
        -- destruct s as [ | d s]; [ reflexivity | ].
           cbn [List.length] in Hle.
           destruct (is_low_surrogate d); cbn [andb]; [ | reflexivity ].
           specialize (IH s ltac:(lia)).
           destruct (well_formed s).
           ++ destruct IH as [u ->]. cbn [bind]. eauto.
           ++ rewrite IH. reflexivity.
        -- cbn [negb andb]. specialize (IH s ltac:(lia)).
           destruct (well_formed s).
           ++ destruct IH as [u ->]. cbn [bind]. eauto.
           ++ rewrite IH. reflexivity.
Qed.

Lemma hex_digit_unreserved (n : N) :
  (n < 16)%N -> is_uri_unreserved (hex_digit n) = true.
Proof.
  intros H.
  assert (E : In n [0; 1; 2; 3; 4; 5; 6; 7; 8; 9; 10; 11; 12; 13; 14; 15]%N).
  { cbn. lia. }
  cbn in E.
  repeat (destruct E as [<- | E]; [ reflexivity | ]). destruct E.
Qed.

Lemma percent_uri_characters (bytes : list N) :
  Forall (fun b => (b < 256)%N) bytes ->
  forallb uri_character (flat_map percent bytes) = true.
Proof.
  induction 1 as [ | b bytes Hb _ IH]; [ reflexivity | ].
  cbn [flat_map]. rewrite forallb_app, IH, andb_true_r.
  unfold percent. cbn [forallb]. unfold uri_character at 2 3.
  rewrite !hex_digit_unreserved.
  - reflexivity.
  - apply N.mod_lt. discriminate.
  - apply N.Div0.div_lt_upper_bound. lia.
Qed.

Lemma utf8_encode_bytes (cp : N) :
  (cp < 1114112)%N -> Forall (fun b => (b < 256)%N) (utf8_encode cp).
Proof.
  intros H. unfold utf8_encode.
  destruct (N.ltb_spec cp 128); [ repeat constructor; lia | ].
  destruct (N.ltb_spec cp 2048).
  { repeat constructor.
    - assert (cp / 64 < 32)%N by (apply N.Div0.div_lt_upper_bound; lia). lia.
    - assert (cp mod 64 < 64)%N by (apply N.mod_lt; discriminate). lia. }
  destruct (N.ltb_spec cp 65536).
  { repeat constructor.
    - assert (cp / 4096 < 16)%N by (apply N.Div0.div_lt_upper_bound; lia). lia.
    - assert ((cp / 64) mod 64 < 64)%N by (apply N.mod_lt; discriminate). lia.
    - assert (cp mod 64 < 64)%N by (apply N.mod_lt; discriminate). lia. }
  repeat constructor.
  - assert (cp / 262144 < 5)%N by (apply N.Div0.div_lt_upper_bound; lia). lia.
  - assert ((cp / 4096) mod 64 < 64)%N by (apply N.mod_lt; discriminate). lia.
  - assert ((cp / 64) mod 64 < 64)%N by (apply N.mod_lt; discriminate). lia.
  - assert (cp mod 64 < 64)%N by (apply N.mod_lt; discriminate). lia.
Qed.

Lemma encode_units_uri_characters_gen (n : nat) (s u : jsstring) :
  List.length s <= n ->
  Forall code_unit s ->
  encode_units s = Normal u ->
  forallb uri_character u = true.
Proof.
  revert s u. induction n as [ | n IH]; intros s u Hle Hs.
  - destruct s; [ | cbn in Hle; lia ].
    intros H. apply Normal_inj in H. subst u. reflexivity.
  - destruct s as [ | c s];
      [ intros H; apply Normal_inj in H; subst u; reflexivity | ].
    cbn [List.length] in Hle. inversion Hs as [ | ? ? Hc Hs' ]. subst.
    cbn [encode_units].
    destruct (is_uri_unreserved c) eqn:U.
    + destruct (encode_units s) as [r | ] eqn:E; cbn [bind]; [ | discriminate ].
      intros H. apply Normal_inj in H. subst u. cbn [forallb].
      unfold uri_character at 1. rewrite U. cbn [orb andb].
      apply (IH s r); [ lia | exact Hs' | exact E ].
    + destruct (is_low_surrogate c); [ discriminate | ].
      destruct (is_high_surrogate c) eqn:Hh.
      * destruct s as [ | d s]; [ discriminate | ].
        destruct (is_low_surrogate d) eqn:Ld; [ | discriminate ].
        cbn [List.length] in Hle. inversion Hs' as [ | ? ? Hd Hs'' ]. subst.
        destruct (encode_units s) as [r | ] eqn:E; cbn [bind];
          [ | discriminate ].
        intros H. apply Normal_inj in H. subst u.
        rewrite forallb_app, (IH s r ltac:(lia) Hs'' E), andb_true_r.
        apply percent_uri_characters. apply utf8_encode_bytes.
        unfold is_high_surrogate, is_low_surrogate in Hh, Ld.
        apply andb_prop in Hh. destruct Hh as [H1 H2].
        apply andb_prop in Ld. destruct Ld as [H3 H4].
        apply N.leb_le in H1, H2, H3, H4. lia.
      * destruct (encode_units s) as [r | ] eqn:E; cbn [bind];
          [ | discriminate ].
        intros H. apply Normal_inj in H. subst u.
        rewrite forallb_app, (IH s r ltac:(lia) Hs' E), andb_true_r.
        apply percent_uri_characters. apply utf8_encode_bytes.
        unfold code_unit in Hc. lia.
Qed.

Lemma popup_of_text_store (nm ad ph fl mc : jsstring) (lat lng : number)
  (special : bool) (color : jsstring) :
  createStorePopupContent (text_store nm ad ph fl mc lat lng special color) =
    uri <- encode_units nm ;;
    Normal (popup_template
              (js "https://www.google.com/maps/search/" ++ uri)
              (escape_string nm)
              (if special
               then CONFIG.CSS_CLASSES.POPUP_FLAVOR ++ js " "
                    ++ CONFIG.CSS_CLASSES.POPUP_FLAVOR_MULTILINE
               else CONFIG.CSS_CLASSES.POPUP_FLAVOR)
              (js "color: " ++ color ++ js ";")
              (if special
               then replace_first (js " (") (js "<br>(") (escape_string fl)
               else escape_string fl)
              (escape_string ad)
              (escape_string ph)).
Proof.
  unfold createStorePopupContent, text_store.
  cbn [name address phone flavorType isSpecialShape displayColor].
  rewrite !escapeHtml_text. cbn [bind].
  unfold encodeURIComponent. cbn [ToString bind].
  destruct (encode_units nm); cbn [bind]; [ | reflexivity ].
  destruct special; reflexivity.
Qed.

(** X11.  For a store whose fields are strings, the popup is produced if
    the name is well-formed UTF-16 and [createStorePopupContent] throws a
    [URIError] if it is not (a lone surrogate); the encoded name in the
    link is made of unreserved characters and percent signs only. *)
Theorem popup_fails_on_ill_formed_names_only :
  forall (nm ad ph fl mc : jsstring) (lat lng : number) (special : bool)
         (color : jsstring),
    let store := text_store nm ad ph fl mc lat lng special color in
    (well_formed nm = true ->
     exists popup, createStorePopupContent store = Normal popup) /\
    (well_formed nm = false ->
     createStorePopupContent store = Throw URIError) /\
    (forall uri, Forall code_unit nm ->
       encodeURIComponent (name store) = Normal uri ->
       forallb uri_character uri = true).
Proof.
  intros nm ad ph fl mc lat lng special color store. subst store.
  rewrite popup_of_text_store.
  pose proof (encode_units_well_formed_gen (List.length nm) nm (le_n _)) as H.
  split; [ | split ].
  - intros W. rewrite W in H. destruct H as [u ->]. cbn [bind]. eauto.
  - intros W. rewrite W in H. rewrite H. reflexivity.
  - intros uri Hs. unfold encodeURIComponent, text_store.
    cbn [name ToString bind].
    apply (encode_units_uri_characters_gen (List.length nm)).
    + apply le_n.
    + exact Hs.
Qed.

(** ** Clean data is rendered *)

Lemma clean_string_or_absent (v : JValue) :
  clean_value v = true -> string_or_absent v = true.
Proof. destruct v; cbn; congruence. Qed.

Lemma lookup_clean_members (P : jsstring) (members : list (jsstring * JValue)) :
  forallb (fun kv => clean_value (snd kv)) members = true ->
  clean_value (own_or_undefined P members) = true.
Proof.
  unfold own_or_undefined.
  induction members as [ | [k v] rest IH]; cbn [lookup forallb snd];
    [ reflexivity | ].
  intros H. apply andb_prop in H. destruct H as [Hv Hr].
  specialize (IH Hr).
  destruct (lookup P rest); [ exact IH | ].
  destruct (str_eqb k P); [ exact Hv | reflexivity ].
Qed.

Lemma clean_record_source (rec : JValue) :
  clean_record rec = true -> clean_source (Data rec).
Proof.
  intros H f. destruct rec; try discriminate. cbn [Get GetData].
  eexists. split; [ reflexivity | ].
  apply lookup_clean_members. exact H.
Qed.

Lemma nth_clean_row (cells : list JValue) (index : nat) :
  forallb clean_value cells = true ->
  clean_value (nth index cells JUndefined) = true.
Proof.
  revert index. induction cells as [ | c cells IH]; intros [ | i] H; cbn;
    try reflexivity; cbn [forallb] in H; apply andb_prop in H;
    destruct H as [Hc Hr]; [ exact Hc | apply IH; exact Hr ].
Qed.

Lemma SetProperty_clean_object (o : Object) (P : jsstring) (V : JValue) :
  clean_object o -> clean_value V = true ->
  clean_object (SetProperty o P V).
Proof.
  intros [Hp Ho] HV. unfold SetProperty.
  destruct (str_eqb P (js "__proto__") && proto_setter_reachable o).
  - destruct V; try discriminate; split; assumption.
  - split; cbn [own proto]; [ exact Hp | ].
    rewrite forallb_app, Ho. cbn [forallb snd]. rewrite HV. reflexivity.
Qed.

Lemma assign_columns_clean (keys : list jsstring) (cells : list JValue)
  (index : nat) (o : Object) :
  forallb clean_value cells = true ->
  clean_object o ->
  exists o', assign_columns (map JStr keys) index (JArr cells) o = Normal o'
             /\ clean_object o'.
Proof.
  intros Hc. revert index o.
  induction keys as [ | k keys IH]; intros index o Ho;
    cbn [map assign_columns GetIndex bind ToString].
  - eauto.
  - apply IH. apply SetProperty_clean_object; [ exact Ho | ].
    apply nth_clean_row. exact Hc.
Qed.

Lemma clean_object_source (o : Object) :
  clean_object o -> clean_source (Obj o).
Proof.
  intros [Hp Ho] f. cbn [Get]. rewrite Hp.
  pose proof (lookup_clean_members (Raw.name_of f) (own o) Ho) as Hl.
  unfold own_or_undefined in Hl.
  destruct (lookup (Raw.name_of f) (own o)); eauto.
Qed.

Lemma clean_source_total (rawStore : Value) (config : Config) :
  clean_source rawStore ->
  exists r, normalizeStoreData rawStore config = Normal r.
Proof.
  intros H. apply normalize_total_on_strings. intros f.
  destruct (H f) as (v & Hv & Hc). exists v. split; [ exact Hv | ].
  apply clean_string_or_absent. exact Hc.
Qed.

Lemma or_else_clean (v : JValue) (d : jsstring) :
  clean_value v = true -> well_formed d = true ->
  exists t, or_else v (JStr d) = JStr t /\ well_formed t = true.
Proof.
  intros Hv Hd. destruct v as [ | | b | n | s | l | m]; try discriminate.
  - exists d. auto.
  - destruct s as [ | c s]; [ exists d; auto | ].
    exists (c :: s). auto.
Qed.

Lemma clean_source_renderable (rawStore : Value) (config : Config)
  (s : StoreRecord) :
  clean_source rawStore ->
  well_formed (MARKERS_DEFAULT config) = true ->
  normalizeStoreData rawStore config = Normal (Valid s) ->
  renderable s.
Proof.
  intros H Hd Hn.
  apply normalize_valid_inv in Hn.
  destruct Hn as (y & x & ft & mc & nm & ad & tel & lat & lng & sp & red
                  & _ & _ & Hft & Hmc & Hnm & Had & Htel & _ & _ & _ & _ & E).
  assert (C : forall f v, Get rawStore f = Normal v -> clean_value v = true).
  { intros f v Hv. destruct (H f) as (v' & Hv' & Hc). congruence. }
  destruct (or_else_clean nm (js "Unknown Store") (C _ _ Hnm) eq_refl)
    as (tn & En & Wn).
  destruct (or_else_clean ad [] (C _ _ Had) eq_refl) as (ta & Ea & _).
  destruct (or_else_clean tel [] (C _ _ Htel) eq_refl) as (tp & Ep & _).
  destruct (or_else_clean ft [] (C _ _ Hft) eq_refl) as (tf & Ef & _).
  destruct (or_else_clean mc (MARKERS_DEFAULT config) (C _ _ Hmc) Hd)
    as (tm & Em & _).
  exists tn, ta, tp, tf, tm. split; [ | exact Wn ].
  rewrite E. unfold text_store.
  cbn [latitude longitude isSpecialShape displayColor].
  rewrite En, Ea, Ep, Ef, Em. reflexivity.
Qed.

Lemma make_marker_renderable (this : State) (s : StoreRecord) :
  renderable s -> exists m, make_marker this s = Normal m.
Proof.
  intros (nm & ad & ph & fl & mc & E & W). rewrite E.
  unfold make_marker, icon_for.
  cbn [markerColor text_store ToString bind].
  fold (text_store nm ad ph fl mc (latitude s) (longitude s)
          (isSpecialShape s) (displayColor s)).
  rewrite popup_of_text_store.
  pose proof (encode_units_well_formed_gen (List.length nm) nm (le_n _)) as H.
  rewrite W in H. destruct H as [u ->]. cbn [bind]. eauto.
Qed.

Lemma clean_record_values (rawData : JValue) (config : Config)
  (recs : list JValue) (rec : JValue) :
  source_records rawData = Some recs ->
  In rec recs ->
  match rawData with
  | JArr _ => clean_record rec = true
  | JObj members =>
      clean_row rec = true /\
      exists keys, own_or_undefined (js "keys") members = JArr (map JStr keys)
  | _ => False
  end ->
  well_formed (MARKERS_DEFAULT config) = true ->
  exists r, normalize_record rawData config rec = Normal r /\
            forall s, r = Valid s -> renderable s.
Proof.
  intros Hs Hin Hc Hd. unfold normalize_record.
  destruct rawData; try contradiction.
  - destruct (clean_source_total (Data rec) config
                (clean_record_source rec Hc)) as [r Hr].
    exists r. split; [ exact Hr | ]. intros s ->.
    exact (clean_source_renderable _ _ _ (clean_record_source rec Hc) Hd Hr).
  - destruct Hc as [Hrow [keys Hk]]. rewrite Hk. cbn [forEach_key].
    destruct rec; try discriminate. cbn [clean_row] in Hrow.
    destruct (assign_columns_clean keys elems 0
                {| own := []; proto := ObjectPrototype |} Hrow)
      as (o' & -> & Ho'); [ split; reflexivity | ].
    cbn [bind].
    destruct (clean_source_total (Obj o') config (clean_object_source o' Ho'))
      as [r Hr].
    exists r. split; [ exact Hr | ]. intros s ->.
    exact (clean_source_renderable _ _ _ (clean_object_source o' Ho') Hd Hr).
Qed.

Lemma clean_payload_processed (rawData : JValue) :
  clean_payload rawData ->
  exists results lu,
    processStores rawData workerConfig
      = Normal {| stores := filter_valid results; lastUpdated := JStr lu |} /\
    forall s, In (Valid s) results -> renderable s.
Proof.
  intros H. destruct rawData as [ | | b | n | s | elems | members];
    try contradiction; cbn [clean_payload] in H.
  - rewrite processStores_legacy.
    assert (Hlu : exists lu,
              match elems with
              | first :: _ =>
                  l <- GetData first Raw.last_updated ;;
                  Normal (if ToBoolean l then l else JStr [])
              | [] => Normal (JStr [])
              end = Normal (JStr lu)).
    { destruct elems as [ | first rest]; [ eauto | ].
      cbn [forallb] in H. apply andb_prop in H. destruct H as [H _].
      destruct first; try discriminate. cbn [GetData bind].
      pose proof (lookup_clean_members (Raw.name_of Raw.last_updated)
                    members H) as Hc.
      destruct (own_or_undefined (Raw.name_of Raw.last_updated) members)
        as [ | | b | n | t | l | m]; try discriminate.
      - cbn [ToBoolean]. eauto.
      - destruct t; cbn [ToBoolean]; eauto. }
    destruct Hlu as [lu ->]. cbn [bind].
    assert (Hrec : forall rec, In rec elems ->
              exists r, normalizeStoreData (Data rec) workerConfig = Normal r /\
                        forall s, r = Valid s -> renderable s).
    { intros rec Hin. rewrite forallb_forall in H.
      exact (clean_record_values (JArr elems) workerConfig elems rec
               eq_refl Hin (H rec Hin) eq_refl). }
    destruct (mapM_total (fun store => normalizeStoreData (Data store)
                                         workerConfig) elems)
      as [results Hm].
    { intros x Hx. destruct (Hrec x Hx) as (r & Hr & _). eauto. }
    rewrite Hm. cbn [bind]. exists results, lu. split; [ reflexivity | ].
    intros s Hs. destruct (mapM_In _ _ _ _ Hm Hs) as (rec & Hin & Hr).
    destruct (Hrec rec Hin) as (r & Hr' & Hren).
    apply Hren. congruence.
  - destruct H as (keys & rows & Hk & Hd & Hrows & Hlu).
    rewrite (processStores_columnar members workerConfig rows);
      [ | rewrite Hk; reflexivity | exact Hd ].
    assert (Hsrc : source_records (JObj members) = Some rows).
    { cbn [source_records]. rewrite Hd, Hk. reflexivity. }
    assert (Hrec : forall rec, In rec rows ->
              exists r, normalize_record (JObj members) workerConfig rec
                          = Normal r /\
                        forall s, r = Valid s -> renderable s).
    { intros rec Hin. rewrite forallb_forall in Hrows.
      apply (clean_record_values (JObj members) workerConfig rows rec
               Hsrc Hin); [ | reflexivity ].
      split; [ exact (Hrows rec Hin) | eauto ]. }
    destruct (mapM_total (normalize_record (JObj members) workerConfig) rows)
      as [results Hm].
    { intros x Hx. destruct (Hrec x Hx) as (r & Hr & _). eauto. }
    rewrite Hm. cbn [bind].
    destruct (or_else_clean _ [] Hlu eq_refl) as (lu & -> & _).
    exists results, lu. split; [ reflexivity | ].
    intros s Hs. destruct (mapM_In _ _ _ _ Hm Hs) as (rec & Hin & Hr).
    destruct (Hrec rec Hin) as (r & Hr' & Hren).
    apply Hren. congruence.
Qed.

(** X22.  A successful response whose payload, of either shape, is made of
    well-formed strings goes all the way to the cluster group: the promise
    of [fetchStores] is fulfilled and the worker terminated, [init] makes
    one marker per store, in order, with its icon, coordinates, marker
    colour and popup, and hands them to [addLayers]; the timestamp can be
    printed; the loading overlay is hidden.  Whether a notice is requested
    is then up to [addLayers] alone: none when it returns, the error notice
    (and no timestamp) when it throws. *)
Theorem clean_data_reaches_the_cluster_group :
  forall (addLayers : list Marker -> AddLayers) (rawData : JValue)
         (statusText : jsstring) (onLine : bool) (now : Z)
         (this : App.State),
    clean_payload rawData ->
    exists payload markers el,
      StoreService.fetchStores
        (StoreService.Runs (Response true statusText (Normal rawData)))
        = {| StoreService.promise := Some (StoreService.Fulfilled payload);
             StoreService.terminated := true |} /\
      Forall2 (marker_of (init (App.mapController this)))
        (stores payload) markers /\
      MapControllerRender.updateLastUpdatedTime (lastUpdated payload)
        (App.last_updated this) = Normal el /\
      let this' :=
        App.init_resume addLayers (StoreService.Fulfilled payload) onLine now
          (App.init_begin this) in
      markersLayer (App.mapController this')
        = Some (onLayer (addLayers markers)) /\
      App.loadingController this'
        = LoadingController.hide
            (LoadingController.show (App.loadingController this)) /\
      match completion (addLayers markers) with
      | Normal _ =>
          App.notificationService this' = App.notificationService this /\
          App.last_updated this' = el
      | Throw _ =>
          App.notificationService this'
            = NS.show (failure_message onLine) (js "error") now
                (App.notificationService this) /\
          App.last_updated this' = App.last_updated this
      end.
Proof.
  intros addLayers rawData statusText onLine now this H.
  destruct (clean_payload_processed rawData H) as (results & lu & Hp & Hren).
  set (payload := {| stores := filter_valid results;
                     lastUpdated := JStr lu |}) in *.
  set (map0 := init (App.mapController this)).
  destruct (mapM_total (make_marker map0) (stores payload)) as [markers Hm].
  { intros s Hs. apply make_marker_renderable. apply Hren.
    apply filter_valid_In. exact Hs. }
  assert (Hu : exists el,
            MapControllerRender.updateLastUpdatedTime (lastUpdated payload)
              (App.last_updated this) = Normal el).
  { unfold MapControllerRender.updateLastUpdatedTime.
    destruct (App.last_updated this); [ | eauto ].
    cbn [lastUpdated payload ToString bind].
    destruct (ToBoolean (JStr lu)); eauto. }
  destruct Hu as [el Hu].
  exists payload, markers, el. split.
  { unfold StoreService.fetchStores, WorkerMessages.onmessage,
      StoreService.request.
    cbn [WorkerMessages.type WorkerMessages.config].
    replace (str_eqb (js "FETCH_STORES") (js "FETCH_STORES")) with true
      by (symmetry; apply str_eqb_refl).
    unfold fetchAndProcessStores. cbn [negb bind]. rewrite Hp.
    reflexivity. }
  split; [ exact (markers_of_stores map0 _ _ Hm) | ].
  split; [ exact Hu | ].
  cbn zeta.
  unfold App.init_resume, App.init_try, App.init_begin, renderMarkers,
    failure_message.
  cbn [App.mapController App.loadingController App.notificationService
       App.last_updated].
  fold map0. change (markersLayer map0) with (Some ([] : list Marker)).
  rewrite Hm.
  destruct (completion (addLayers markers)) as [u | e];
    cbn [App.mapController App.loadingController App.notificationService
         App.last_updated markersLayer].
  - rewrite Hu.
    cbn [App.mapController App.loadingController App.notificationService
         App.last_updated markersLayer].
    auto.
  - split; [ reflexivity | ]. split; [ reflexivity | ].
    destruct onLine; auto.
Qed.

(** The columnar scenario with a name that is not ASCII, on a cluster
    group that takes every marker. *)
Lemma clean_data_reaches_the_cluster_group_witness :
  exists payload markers,
    StoreService.fetchStores
      (StoreService.Runs
         (Response true (js "OK") (Normal clean_scenario)))
      = {| StoreService.promise := Some (StoreService.Fulfilled payload);
           StoreService.terminated := true |} /\
    markersLayer
      (App.mapController
         (App.init_resume adds_all (StoreService.Fulfilled payload) true 5000
            (App.init_begin empty_page))) = Some markers /\
    List.length markers = List.length (stores payload).
Proof.
  destruct (clean_data_reaches_the_cluster_group adds_all clean_scenario
              (js "OK") true 5000 empty_page)
    as (payload & markers & el & Hf & Hm & _ & Hl & _).
  - cbn [clean_payload clean_scenario].
    exists (List.map js ["NAME"; "py"; "px"; "flavorType"; "markerColor"]%string).
    eexists. split; [ vm_compute; reflexivity | ].
    split; [ vm_compute; reflexivity | ].
    split; vm_compute; reflexivity.
  - exists payload, markers. split; [ exact Hf | ]. split; [ exact Hl | ].
    symmetry. exact (Forall2_length Hm).
Defined.

(** ** Calls of the location service *)

Lemma calls_invariant (cs : list LocationCalls.Call) (ls : LS.State) :
  service_invariant ls ->
  exists ls', LocationCalls.calls cs ls = Normal ls' /\
              service_invariant ls' /\
              LS.isSupported ls' = LS.isSupported ls.
Proof.
  revert ls. induction cs as [ | c cs IH]; intros ls H;
    cbn [LocationCalls.calls].
  - eauto.
  - destruct c; cbn [LocationCalls.call].
    + destruct (watchPosition_invariant ls H) as (ls1 & -> & H1 & S1 & _).
      cbn [bind]. destruct (IH ls1 H1) as (ls' & E & H' & S').
      exists ls'. split; [ exact E | ]. split; [ exact H' | congruence ].
    + destruct (clearWatch_invariant ls H) as (ls1 & E1 & H1 & W1 & _).
      rewrite E1. cbn [bind].
      destruct (IH ls1 H1) as (ls' & E & H' & S').
      exists ls'. split; [ exact E | ]. split; [ exact H' | ].
      rewrite S'. unfold LS.clearWatch in E1. unfold LS.isSupported.
      destruct (LS.watchId ls);
        [ | apply Normal_inj in E1; subst ls1; reflexivity ].
      destruct (LS.geolocation ls); [ | discriminate ].
      apply Normal_inj in E1. subst ls1. reflexivity.
Qed.

(** X16.  After any sequence of [watchPosition] and [clearWatch] calls, none
    of which throws, the browser holds the watch recorded in [watchId] and
    no other; a further [watchPosition] leaves exactly one watch where
    geolocation is supported, and a further [clearWatch] leaves none. *)
Theorem the_service_holds_at_most_one_watch :
  forall (supported : bool) (next : nat) (cs : list LocationCalls.Call),
    exists this,
      LocationCalls.calls cs
        (LS.constructor (browser_geolocation supported next)) = Normal this /\
      match LS.geolocation this with
      | Some g => LS.watches g = option_list (LS.watchId this)
      | None => LS.watchId this = None
      end /\
      (forall watching,
         LS.watchPosition this = Normal watching ->
         supported = true ->
         exists id g, LS.watchId watching = Some id /\
                      LS.geolocation watching = Some g /\
                      LS.watches g = [id]) /\
      (forall cleared,
         LS.clearWatch this = Normal cleared ->
         LS.watchId cleared = None /\
         forall g, LS.geolocation cleared = Some g -> LS.watches g = []).
Proof.
  intros supported next cs.
  destruct (calls_invariant cs
              (LS.constructor (browser_geolocation supported next)))
    as (this & E & H & S).
  { unfold service_invariant. destruct supported; reflexivity. }
  exists this. split; [ exact E | ]. split; [ exact H | ]. split.
  - intros watching Hw Hsup.
    destruct (watchPosition_invariant this H) as (w & Ew & Hiw & Sw & Nw).
    rewrite Ew in Hw. apply Normal_inj in Hw. subst w.
    assert (St : LS.isSupported this = true).
    { rewrite S. subst supported. reflexivity. }
    specialize (Nw St). unfold service_invariant in Hiw.
    unfold LS.isSupported in Sw, St. rewrite <- Sw in St.
    destruct (LS.geolocation watching) as [g | ]; [ | discriminate ].
    destruct (LS.watchId watching) as [id | ]; [ | congruence ].
    exists id, g. auto.
  - intros cleared Hc.
    destruct (clearWatch_invariant this H) as (c & Ec & Hic & Wc & _).
    rewrite Ec in Hc. apply Normal_inj in Hc. subst c.
    split; [ exact Wc | ].
    intros g Hg. unfold service_invariant in Hic. rewrite Hg, Wc in Hic.
    exact Hic.
Qed.

(** ** The service worker *)

Lemma cache_match_put (u : jsstring) (r : ServiceWorker.Response)
  (cache : ServiceWorker.Cache) :
  ServiceWorker.cache_match u (ServiceWorker.cache_put u r cache) = Some r.
Proof.
  unfold ServiceWorker.cache_put.
  induction cache as [ | [k r'] rest IH]; cbn.
  - rewrite str_eqb_refl. reflexivity.
  - destruct (str_eqb k u) eqn:E; cbn; [ exact IH | ].
    rewrite E. exact IH.
Qed.

Lemma cache_match_put_other (u v : jsstring) (r : ServiceWorker.Response)
  (cache : ServiceWorker.Cache) :
  u <> v ->
  ServiceWorker.cache_match u (ServiceWorker.cache_put v r cache)
    = ServiceWorker.cache_match u cache.
Proof.
  intros Hne. unfold ServiceWorker.cache_put.
  induction cache as [ | [k r'] rest IH]; cbn.
  - rewrite (str_eqb_neq v u) by congruence. reflexivity.
  - destruct (str_eqb k v) eqn:E; cbn.
    + apply str_eqb_true in E. subst k.
      rewrite (str_eqb_neq v u) by congruence. exact IH.
    + destruct (str_eqb k u); [ reflexivity | exact IH ].
Qed.

Lemma onactivate_one_cache (storage : ServiceWorker.CacheStorage) :
  one_cache (ServiceWorker.onactivate storage).
Proof.
  unfold one_cache, ServiceWorker.onactivate. apply Forall_forall.
  intros c Hc. apply filter_In in Hc. destruct Hc as [_ Hc].
  apply str_eqb_true. exact Hc.
Qed.

Lemma caches_put_one_cache (u : jsstring) (r : ServiceWorker.Response)
  (storage : ServiceWorker.CacheStorage) :
  one_cache storage ->
  one_cache (ServiceWorker.caches_put ServiceWorker.CACHE_NAME u r storage) /\
  ServiceWorker.caches_match u
    (ServiceWorker.caches_put ServiceWorker.CACHE_NAME u r storage) = Some r.
Proof.
  intros H. destruct H as [ | [n cache] rest Hn Hrest]; cbn.
  - split; [ repeat constructor | ].
    rewrite str_eqb_refl. reflexivity.
  - cbn in Hn. subst n. rewrite str_eqb_refl. cbn.
    rewrite cache_match_put. split; [ | reflexivity ].
    constructor; [ reflexivity | exact Hrest ].
Qed.

Lemma caches_put_other (u v : jsstring) (r : ServiceWorker.Response)
  (storage : ServiceWorker.CacheStorage) :
  one_cache storage -> u <> v ->
  ServiceWorker.caches_match u
    (ServiceWorker.caches_put ServiceWorker.CACHE_NAME v r storage)
  = ServiceWorker.caches_match u storage.
Proof.
  intros H Hne. destruct H as [ | [n cache] rest Hn Hrest]; cbn.
  - rewrite (str_eqb_neq v u) by congruence. reflexivity.
  - cbn in Hn. subst n. rewrite str_eqb_refl. cbn.
    rewrite (cache_match_put_other u v r cache Hne). reflexivity.
Qed.

Lemma remove_write_In (k : nat) (w : jsstring * ServiceWorker.Response)
  (writes : list (jsstring * ServiceWorker.Response)) :
  In w (ServiceWorker.remove_write k writes) -> In w writes.
Proof.
  revert k. induction writes as [ | x rest IH]; intros [ | k]; cbn; auto.
  intros [H | H]; eauto.
Qed.

Lemma answered_before_app (seen later : list ServiceWorker.Event)
  (u : jsstring) (r : ServiceWorker.Response) :
  answered_before seen u r -> answered_before (seen ++ later) u r.
Proof.
  intros (request & Hin & H). exists request.
  split; [ apply in_or_app; auto | exact H ].
Qed.

Lemma step_provenance (storage0 : ServiceWorker.CacheStorage)
  (seen : list ServiceWorker.Event) (e : ServiceWorker.Event)
  (s : ServiceWorker.State) :
  provenance storage0 seen s ->
  provenance storage0 (seen ++ [e]) (ServiceWorker.step e s).
Proof.
  intros (Hone & Hst & Hpe).
  assert (Hst' : forall u r,
            ServiceWorker.caches_match u (ServiceWorker.storage s) = Some r ->
            ServiceWorker.caches_match u (ServiceWorker.onactivate storage0)
              = Some r
            \/ answered_before (seen ++ [e]) u r).
  { intros u r H. destruct (Hst u r H) as [H' | H']; [ auto | ].
    right. apply answered_before_app. exact H'. }
  assert (Hpe' : forall u r,
            In (u, r) (ServiceWorker.pending s) ->
            answered_before (seen ++ [e]) u r).
  { intros u r H. apply answered_before_app. auto. }
  destruct e as [request network | k stored]; cbn [ServiceWorker.step].
  - unfold ServiceWorker.onfetch.
    destruct (ServiceWorker.ends_with (ServiceWorker.pathname request)
                (js "stores.json")) eqn:P.
    + destruct network as [r | ]; cbn [snd]; [ | repeat split; assumption ].
      destruct (ServiceWorker.ok r) eqn:K; [ | repeat split; assumption ].
      unfold provenance. cbn [ServiceWorker.storage ServiceWorker.pending].
      split; [ exact Hone | ]. split; [ exact Hst' | ].
      intros u r' Hin.
      apply in_app_or in Hin. destruct Hin as [Hin | [Hin | []]]; [ auto | ].
      injection Hin as <- <-. exists request.
      split; [ apply in_or_app; right; left; reflexivity | auto ].
    + destruct (ServiceWorker.caches_match (ServiceWorker.url request)
                  (ServiceWorker.storage s)); cbn [snd];
        repeat split; assumption.
  - destruct (nth_error (ServiceWorker.pending s) k) as [[v r] | ] eqn:N;
      [ | repeat split; assumption ].
    pose proof (nth_error_In _ _ N) as Hin.
    unfold provenance. cbn [ServiceWorker.storage ServiceWorker.pending].
    split; [ | split ].
    + destruct stored; [ | exact Hone ].
      apply caches_put_one_cache. exact Hone.
    + destruct stored; [ | exact Hst' ].
      intros u r' H.
      destruct (jsstring_eq_dec u v) as [-> | Hne].
      * destruct (caches_put_one_cache v r _ Hone) as [_ Hm].
        rewrite Hm in H. injection H as <-. right. auto.
      * rewrite (caches_put_other u v r _ Hone Hne) in H. auto.
    + intros u r' H. apply remove_write_In in H. auto.
Qed.

Lemma run_provenance (storage0 : ServiceWorker.CacheStorage)
  (events seen : list ServiceWorker.Event) (s : ServiceWorker.State) :
  provenance storage0 seen s ->
  provenance storage0 (seen ++ events) (ServiceWorker.run events s).
Proof.
  revert seen s. induction events as [ | e events IH]; intros seen s H.
  - rewrite app_nil_r. exact H.
  - change (ServiceWorker.run (e :: events) s)
      with (ServiceWorker.run events (ServiceWorker.step e s)).
    replace (seen ++ e :: events) with ((seen ++ [e]) ++ events)
      by (rewrite <- app_assoc; reflexivity).
    apply IH. apply step_provenance. exact H.
Qed.

Lemma activated_provenance (storage0 : ServiceWorker.CacheStorage) :
  provenance storage0 [] (ServiceWorker.activated storage0).
Proof.
  split; [ apply onactivate_one_cache | ].
  split; [ auto | intros u r [] ].
Qed.

Lemma prompt_writes_last_ok (request : ServiceWorker.Request)
  (networks : list ServiceWorker.Network) (s : ServiceWorker.State) :
  ServiceWorker.ends_with (ServiceWorker.pathname request) (js "stores.json")
    = true ->
  one_cache (ServiceWorker.storage s) ->
  ServiceWorker.pending s = [] ->
  let s' := ServiceWorker.run (prompt_writes request networks) s in
  one_cache (ServiceWorker.storage s') /\
  ServiceWorker.pending s' = [] /\
  ServiceWorker.caches_match (ServiceWorker.url request)
    (ServiceWorker.storage s')
  = last_ok networks
      (ServiceWorker.caches_match (ServiceWorker.url request)
         (ServiceWorker.storage s)).
Proof.
  intros Hp. revert s.
  induction networks as [ | n networks IH]; intros s Hone Hpe;
    cbn [prompt_writes flat_map last_ok app].
  - cbn. auto.
  - change (ServiceWorker.run
              (ServiceWorker.FetchEvent request n
               :: ServiceWorker.WriteEnds 0 true
               :: flat_map (fun n0 => [ServiceWorker.FetchEvent request n0;
                                       ServiceWorker.WriteEnds 0 true])
                    networks) s)
      with (ServiceWorker.run (prompt_writes request networks)
              (ServiceWorker.step (ServiceWorker.WriteEnds 0 true)
                 (ServiceWorker.step (ServiceWorker.FetchEvent request n) s))).
    cbn [ServiceWorker.step]. unfold ServiceWorker.onfetch. rewrite Hp.
    destruct n as [r | ]; cbn [snd].
    + destruct (ServiceWorker.ok r) eqn:K.
      * cbn [ServiceWorker.pending ServiceWorker.storage]. rewrite Hpe.
        cbn [app nth_error ServiceWorker.remove_write].
        destruct (caches_put_one_cache (ServiceWorker.url request) r _ Hone)
          as [H1 H2].
        specialize (IH {| ServiceWorker.storage :=
                            ServiceWorker.caches_put ServiceWorker.CACHE_NAME
                              (ServiceWorker.url request) r
                              (ServiceWorker.storage s);
                          ServiceWorker.pending := [] |} H1 eq_refl).
        cbn zeta in IH. cbn [ServiceWorker.storage] in IH.
        rewrite H2 in IH. exact IH.
      * rewrite Hpe. cbn [nth_error]. apply IH; assumption.
    + rewrite Hpe. cbn [nth_error]. apply IH; assumption.
Qed.

(** X23.  Once the service worker is activated: a request for the store
    data is answered by the network whenever the network answers, whatever
    the cache holds.  When the network fails, the answer comes from the
    cache, and whatever events came before (fetches, and writes that end in
    any order, stored or lost), it is what the cache held at activation or
    an [ok] answer that the network gave earlier to a request for the store
    data under the same URL.  It need not be the latest one: the write the
    handler starts is not awaited, and until it ends the cache answers as
    before; when every write is stored before the next event, the offline
    answer is the last [ok] answer, or what the cache held at activation if
    there was none.  A request for anything else starts no write and leaves
    the cache storage alone. *)
Theorem offline_store_data_is_an_earlier_good_answer :
  forall (request : ServiceWorker.Request)
         (storage0 : ServiceWorker.CacheStorage),
    let cached :=
      ServiceWorker.caches_match (ServiceWorker.url request)
        (ServiceWorker.onactivate storage0) in
    (ServiceWorker.ends_with (ServiceWorker.pathname request)
       (js "stores.json") = true ->
     (forall s r,
        fst (ServiceWorker.onfetch request (ServiceWorker.Answered r) s)
          = Some r) /\
     (forall events r,
        fst (ServiceWorker.onfetch request ServiceWorker.Failed
               (ServiceWorker.run events (ServiceWorker.activated storage0)))
          = Some r ->
        cached = Some r \/
        answered_before events (ServiceWorker.url request) r) /\
     (forall r,
        fst (ServiceWorker.onfetch request ServiceWorker.Failed
               (ServiceWorker.run
                  [ServiceWorker.FetchEvent request (ServiceWorker.Answered r)]
                  (ServiceWorker.activated storage0)))
          = cached) /\
     (forall networks,
        fst (ServiceWorker.onfetch request ServiceWorker.Failed
               (ServiceWorker.run (prompt_writes request networks)
                  (ServiceWorker.activated storage0)))
          = last_ok networks cached))
    /\
    (ServiceWorker.ends_with (ServiceWorker.pathname request)
       (js "stores.json") = false ->
     forall network s,
       snd (ServiceWorker.onfetch request network s) = s).
Proof.
  intros request storage0 cached. subst cached. split.
  - intros Hp. split; [ | split; [ | split ] ].
    + intros s r. unfold ServiceWorker.onfetch. rewrite Hp. reflexivity.
    + intros events r. unfold ServiceWorker.onfetch. rewrite Hp. cbn [fst].
      destruct (run_provenance storage0 events []
                  (ServiceWorker.activated storage0)
                  (activated_provenance storage0)) as (_ & H & _).
      apply H.
    + intros r. unfold ServiceWorker.onfetch at 1. rewrite Hp. cbn [fst].
      cbn [ServiceWorker.run fold_left ServiceWorker.step].
      unfold ServiceWorker.onfetch. rewrite Hp.
      destruct (ServiceWorker.ok r); reflexivity.
    + intros networks. unfold ServiceWorker.onfetch at 1. rewrite Hp.
      cbn [fst].
      apply (prompt_writes_last_ok request networks
               (ServiceWorker.activated storage0) Hp
               (onactivate_one_cache storage0) eq_refl).
  - intros Hp network s. unfold ServiceWorker.onfetch. rewrite Hp.
    destruct (ServiceWorker.caches_match (ServiceWorker.url request)
                (ServiceWorker.storage s)); reflexivity.
Qed.

(** Two good answers whose writes end in the other order: offline, the
    page gets the older one. *)
Example writes_may_end_out_of_order :
  let request := {| ServiceWorker.url := js "https://example.org/stores.json";
                    ServiceWorker.pathname := js "/stores.json" |} in
  let older := {| ServiceWorker.ok := true; ServiceWorker.body := js "1" |} in
  let newer := {| ServiceWorker.ok := true; ServiceWorker.body := js "2" |} in
  fst (ServiceWorker.onfetch request ServiceWorker.Failed
         (ServiceWorker.run
            [ServiceWorker.FetchEvent request (ServiceWorker.Answered older);
             ServiceWorker.FetchEvent request (ServiceWorker.Answered newer);
             ServiceWorker.WriteEnds 1 true;
             ServiceWorker.WriteEnds 0 true]
            (ServiceWorker.activated [])))
  = Some older.
Proof. vm_compute. reflexivity. Qed.

(** ** Coordinates with text around them *)

Lemma span_digits_app (d t : jsstring) :
  forallb is_digit d = true ->
  match t with [] => True | c :: _ => is_digit c = false end ->
  span_digits (d ++ t) = (map (fun c => (c - 48)%N) d, t).
Proof.
  intros Hd Ht. induction d as [ | c d IH]; cbn [app map].
  - destruct t as [ | c t]; [ reflexivity | ].
    cbn [span_digits]. rewrite Ht. reflexivity.
  - cbn [forallb] in Hd. apply andb_prop in Hd. destruct Hd as [Hc Hd].
    cbn [span_digits]. rewrite Hc, (IH Hd). reflexivity.
Qed.

Lemma trim_start_app (ws s : jsstring) :
  forallb is_white_space ws = true ->
  trim_start (ws ++ s) = trim_start s.
Proof.
  induction ws as [ | c ws IH]; intros H; [ reflexivity | ].
  cbn [forallb] in H. apply andb_prop in H. destruct H as [Hc Hw].
  cbn [app trim_start]. rewrite Hc. exact (IH Hw).
Qed.

Lemma digit_facts (c : N) :
  is_digit c = true ->
  is_white_space c = false /\ c <> 43%N /\ c <> 45%N /\ c <> 73%N /\
  c <> 46%N.
Proof.
  unfold is_digit. intros H. apply andb_prop in H. destruct H as [H1 H2].
  apply N.leb_le in H1, H2.
  assert (E : In c [48; 49; 50; 51; 52; 53; 54; 55; 56; 57]%N)
    by (cbn; lia).
  split; [ | lia ].
  cbn in E.
  repeat (destruct E as [<- | E]; [ reflexivity | ]). destruct E.
Qed.

Lemma numeral_head (int frac rest : jsstring) :
  forallb is_digit int = true ->
  exists c s, numeral int frac ++ rest = c :: s /\
              is_white_space c = false /\ c <> 43%N /\ c <> 45%N /\
              c <> 73%N.
Proof.
  intros H. unfold numeral. destruct int as [ | c int].
  - exists 46%N. eexists. split; [ reflexivity | ].
    split; [ reflexivity | ]. repeat split; discriminate.
  - cbn [forallb] in H. apply andb_prop in H. destruct H as [Hc _].
    destruct (digit_facts c Hc) as (W & P & M & I & _).
    exists c. eexists. split; [ reflexivity | ]. auto.
Qed.

Lemma parse_after_plus (s1 : jsstring) :
  parse_decimal_prefix (43%N :: s1) =
    if starts_with (js "Infinity") s1 then S754_infinity false
    else
      let (int_digits, s2) := span_digits s1 in
      let (frac_digits, s3) :=
        match s2 with
        | 46%N :: t => span_digits t
        | _ => ([], s2)
        end in
      match int_digits ++ frac_digits with
      | [] => S754_nan
      | ds => number_of_decimal false (digits_value ds)
                (exponent_part s3 - Z.of_nat (List.length frac_digits))
      end.
Proof. reflexivity. Qed.

Lemma parse_unsigned (c : N) (s : jsstring) :
  c <> 43%N -> c <> 45%N ->
  parse_decimal_prefix (c :: s) = parse_decimal_prefix (43%N :: c :: s).
Proof.
  intros P M. destruct c as [ | p]; [ reflexivity | ].
  do 6 (destruct p as [p | p | ]; try reflexivity);
    exfalso; (apply P; reflexivity) || (apply M; reflexivity).
Qed.

Lemma parse_numeral (int frac t : jsstring) :
  forallb is_digit int = true ->
  forallb is_digit frac = true ->
  stops_numeral t = true ->
  parse_decimal_prefix (numeral int frac ++ t) =
    match map (fun c => (c - 48)%N) int ++ map (fun c => (c - 48)%N) frac with
    | [] => S754_nan
    | ds => number_of_decimal false (digits_value ds)
              (- Z.of_nat (List.length frac))
    end.
Proof.
  intros Hi Hf Ht.
  destruct (numeral_head int frac t Hi) as (c & s & E & _ & P & M & I).
  rewrite E, (parse_unsigned c s P M), parse_after_plus.
  assert (Hinf : starts_with (js "Infinity") (c :: s) = false).
  { change (js "Infinity") with (73%N :: js "nfinity").
    cbn [starts_with]. apply N.eqb_neq in I. rewrite N.eqb_sym, I.
    reflexivity. }
  rewrite Hinf, <- E. unfold numeral. rewrite <- !app_assoc.
  rewrite (span_digits_app int ([46%N] ++ frac ++ t) Hi eq_refl).
  cbn [app].
  assert (Hstop : match t with [] => True | c0 :: _ => is_digit c0 = false end).
  { destruct t as [ | c0 t]; [ exact Logic.I | ].
    cbn [stops_numeral] in Ht. apply andb_prop in Ht. destruct Ht as [Ht _].
    apply negb_true_iff in Ht. exact Ht. }
  rewrite (span_digits_app frac t Hf Hstop).
  rewrite length_map.
  assert (He : exponent_part t = 0%Z).
  { destruct t as [ | c0 t]; [ reflexivity | ].
    cbn [stops_numeral] in Ht. apply andb_prop in Ht. destruct Ht as [_ Ht].
    apply negb_true_iff in Ht. cbn [exponent_part]. rewrite Ht.
    reflexivity. }
  rewrite He. reflexivity.
Qed.

Lemma parseFloat_numeral (ws int frac t : jsstring) :
  forallb is_white_space ws = true ->
  forallb is_digit int = true ->
  forallb is_digit frac = true ->
  stops_numeral t = true ->
  parseFloat (JStr (ws ++ numeral int frac ++ t))
    = parseFloat (JStr (numeral int frac)).
Proof.
  intros Hw Hi Hf Ht. unfold parseFloat. cbn [ToString bind]. f_equal.
  rewrite (trim_start_app ws _ Hw).
  assert (Htrim : forall rest,
            trim_start (numeral int frac ++ rest) = numeral int frac ++ rest).
  { intros rest.
    destruct (numeral_head int frac rest Hi) as (c & s & E & W & _).
    rewrite E. cbn [trim_start]. rewrite W. reflexivity. }
  rewrite Htrim.
  pose proof (Htrim []) as H0. rewrite app_nil_r in H0. rewrite H0.
  rewrite (parse_numeral int frac t Hi Hf Ht).
  pose proof (parse_numeral int frac [] Hi Hf eq_refl) as H1.
  rewrite app_nil_r in H1. rewrite H1. reflexivity.
Qed.

Lemma lookup_app_last (P k : jsstring) (v : JValue)
  (members : list (jsstring * JValue)) :
  lookup P (members ++ [(k, v)]) =
    if str_eqb k P then Some v else lookup P members.
Proof.
  induction members as [ | [k' v'] rest IH]; cbn [app lookup].
  - reflexivity.
  - rewrite IH. destruct (str_eqb k P); reflexivity.
Qed.

Lemma name_of_injective (f g : Raw.Field) :
  str_eqb (Raw.name_of f) (Raw.name_of g) = true -> f = g.
Proof.
  destruct f, g; intros H; try reflexivity; vm_compute in H; discriminate.
Qed.

Lemma Get_with_field_same (members : list (jsstring * JValue))
  (f : Raw.Field) (v : JValue) :
  Get (with_field members f v) f = Normal v.
Proof.
  unfold with_field, record. cbn [Get GetData]. unfold own_or_undefined.
  rewrite lookup_app_last, str_eqb_refl. reflexivity.
Qed.

Lemma Get_with_field_other (members : list (jsstring * JValue))
  (f g : Raw.Field) (v : JValue) :
  f <> g ->
  Get (with_field members f v) g = Get (record members) g.
Proof.
  intros Hne. unfold with_field, record. cbn [Get GetData].
  unfold own_or_undefined. rewrite lookup_app_last.
  destruct (str_eqb (Raw.name_of f) (Raw.name_of g)) eqn:E;
    [ | reflexivity ].
  exfalso. apply Hne. apply name_of_injective. exact E.
Qed.

Lemma normalize_same_reading (a b : Value) (config : Config)
  (ya yb xa xb : JValue) :
  (forall g, coordinate g = false -> Get a g = Get b g) ->
  Get a Raw.py = Normal ya -> Get b Raw.py = Normal yb ->
  Get a Raw.px = Normal xa -> Get b Raw.px = Normal xb ->
  ToBoolean ya = ToBoolean yb -> parseFloat ya = parseFloat yb ->
  ToBoolean xa = ToBoolean xb -> parseFloat xa = parseFloat xb ->
  normalizeStoreData a config = normalizeStoreData b config.
Proof.
  intros Hn Gya Gyb Gxa Gxb Ty Py Tx Px.
  unfold normalizeStoreData, hasCoordinates.
  rewrite (Hn Raw.flavorType eq_refl), (Hn Raw.markerColor eq_refl),
    (Hn Raw.NAME eq_refl), (Hn Raw.addr eq_refl), (Hn Raw.TEL eq_refl).
  rewrite Gya, Gyb, Gxa, Gxb. cbn [bind].
  rewrite Ty, Py, Tx, Px. reflexivity.
Qed.

(** X24.  White space before a coordinate and text after it are ignored: a
    raw record whose [py] or [px] is a decimal numeral (digits, a point,
    digits) preceded by white space and followed by text that starts with
    neither a digit nor the letter of an exponent is normalized as the
    record with the bare numeral is. *)
Theorem text_around_a_coordinate_is_ignored :
  forall (members : list (jsstring * JValue)) (f : Raw.Field)
         (ws int frac t : jsstring) (config : Config),
    coordinate f = true ->
    forallb is_white_space ws = true ->
    forallb is_digit int = true ->
    forallb is_digit frac = true ->
    stops_numeral t = true ->
    normalizeStoreData
      (with_field members f (JStr (ws ++ numeral int frac ++ t))) config
    = normalizeStoreData
        (with_field members f (JStr (numeral int frac))) config.
Proof.
  intros members f ws int frac t config Hf Hw Hi Hfr Ht.
  pose proof (parseFloat_numeral ws int frac t Hw Hi Hfr Ht) as Hp.
  assert (Hb : ToBoolean (JStr (ws ++ numeral int frac ++ t))
               = ToBoolean (JStr (numeral int frac))).
  { unfold numeral. destruct ws, int; reflexivity. }
  destruct f; try discriminate.
  - destruct (Get (record members) Raw.px) as [x | e] eqn:Gx.
    + apply (normalize_same_reading _ _ config
               (JStr (ws ++ numeral int frac ++ t))
               (JStr (numeral int frac)) x x);
        try apply Get_with_field_same; try reflexivity; try assumption.
      * intros g Hg. rewrite !Get_with_field_other; [ reflexivity | | ];
          intros <-; discriminate.
      * rewrite Get_with_field_other; [ exact Gx | discriminate ].
      * rewrite Get_with_field_other; [ exact Gx | discriminate ].
    + unfold record in Gx. cbn [Get GetData] in Gx. discriminate.
  - destruct (Get (record members) Raw.py) as [y | e] eqn:Gy.
    + apply (normalize_same_reading _ _ config y y
               (JStr (ws ++ numeral int frac ++ t))
               (JStr (numeral int frac)));
        try apply Get_with_field_same; try reflexivity; try assumption.
      * intros g Hg. rewrite !Get_with_field_other; [ reflexivity | | ];
          intros <-; discriminate.
      * rewrite Get_with_field_other; [ exact Gy | discriminate ].
      * rewrite Get_with_field_other; [ exact Gy | discriminate ].
    + unfold record in Gy. cbn [Get GetData] in Gy. discriminate.
Qed.

(** A latitude with a space before it and a letter after it. *)
Lemma text_around_a_coordinate_is_ignored_witness :
  normalizeStoreData
    (with_field [(js "NAME", text "A"); (js "px", text "121.5")] Raw.py
       (text " 25.03 N")) workerConfig
  = normalizeStoreData
      (with_field [(js "NAME", text "A"); (js "px", text "121.5")] Raw.py
         (text "25.03")) workerConfig.
Proof.
  apply (text_around_a_coordinate_is_ignored
           [(js "NAME", text "A"); (js "px", text "121.5")] Raw.py
           (js " ") (js "25") (js "03") (js " N") workerConfig);
    reflexivity.
Defined.

(** ** A browser without geolocation *)

Lemma step_unsupported (log : CallLog) (e : MCL.Event)
  (s : MCL.State CallLog) :
  unsupported log s ->
  unsupported (log ++ map not_supported_notice (resume_times [e]))
    (MCL.step record_call s e).
Proof.
  intros (Hn & Ht & Hs).
  destruct e as [ | | manual browser now | position | ];
    cbn [MCL.step resume_times map]; rewrite ?app_nil_r.
  - split; [ exact Hn | split; [ exact Ht | exact Hs ] ].
  - unfold MCL.onclick.
    destruct (MCL.locateButton s) as [classes | ];
      [ destruct (DOM.classList_contains (js "loading") classes) | ];
      (split; [ exact Hn | split; [ exact Ht | exact Hs ] ]).
  - unfold MCL.locateUser_resume. rewrite Hs.
    cbn [LS.getCurrentPosition LS.isSupported
         LS.constructor LS.geolocation negb].
    unfold MCL._handleLocationError.
    cbn [LS.message_is].
    rewrite str_eqb_refl.
    unfold unsupported. cbn. rewrite Hn. cbn.
    split; [ reflexivity | split; [ exact Ht | exact Hs ] ].
  - unfold MCL._updateUserMarker.
    destruct (MCL.userMarker s);
      (split; [ exact Hn | split; [ exact Ht | exact Hs ] ]).
  - split; [ exact Hn | split; [ exact Ht | exact Hs ] ].
Qed.

Lemma resume_times_cons (e : MCL.Event)
  (events : list MCL.Event) :
  resume_times (e :: events) = resume_times [e] ++ resume_times events.
Proof. destruct e; reflexivity. Qed.

Lemma run_unsupported (events : list MCL.Event)
  (log : CallLog) (s : MCL.State CallLog) :
  unsupported log s ->
  unsupported (log ++ map not_supported_notice (resume_times events))
    (MCL.run record_call events s).
Proof.
  revert log s. induction events as [ | e events IH]; intros log s H.
  - cbn. rewrite app_nil_r. exact H.
  - cbn [MCL.run fold_left].
    rewrite resume_times_cons, map_app, app_assoc.
    apply IH. apply step_unsupported. exact H.
Qed.

(** X25.  In a browser without geolocation every [locateUser] call makes
    the controller pass the not-supported notice to the notification
    service, one notice per call and none else, whatever the other events;
    the throttle of the location errors never starts and no watch is ever
    registered. *)
Theorem without_geolocation_every_request_is_answered_with_a_notice :
  forall events : list MCL.Event,
    let s := MCL.run record_call events
               (MCL.initialized (Some []) None) in
    MCL.notificationService s
      = Some (map not_supported_notice (resume_times events)) /\
    MCL.lastErrorTime s = 0%Z /\
    LS.watchId (MCL.locationService s) = None.
Proof.
  intros events s.
  destruct (run_unsupported events []
              (MCL.initialized (Some []) None))
    as (Hn & Ht & Hs).
  { split; [ reflexivity | split; reflexivity ]. }
  fold s in Hn, Ht, Hs. split; [ exact Hn | ]. split; [ exact Ht | ].
  rewrite Hs. reflexivity.
Qed.
